(** * razancompare: extraction and comparison of two slide decks

    A shallow embedding of [razancompare.py]: the shape walk
    ([extract_images_from_shape]), the image fingerprinter
    ([process_image_blob]), the slide extractor
    ([extract_content_from_pptx]) and the comparator
    ([compare_presentations]), together with the part of Python's
    [difflib] that [compare_presentations] calls ([difflib.ndiff]).

    Conventions.
    - Python [str] is [string]; a character is a code point below 256.
    - Python [int] is [Z] inside [Difflib] (indices are subtracted there)
      and [nat] for the counters and lengths of the comparator.
    - A Python dict is an association list in insertion order.
    - Generators are the lists of the values they yield.
    - Code that can raise returns in the monad [M]; the collaborators the
      program imports (python-pptx, PIL, hashlib) are section variables.
    - A read of a parsed object is recorded with its outcome: the value
      read, or that the read raises, be it for lack of stack room.
    - The interpreter's call stack is the section variable [stack_room],
      the number of nested calls of the shape walk it has room for where
      the extractor calls the walk; a call that does not fit raises
      [RecursionError]. *)

From Stdlib Require Import List String Ascii ZArith QArith Lia Bool Arith.
From Stdlib Require Import Permutation Sorted DecimalString.
From Stdlib.Strings Require Import Byte.
Import ListNotations.

Local Open Scope string_scope.
Local Open Scope list_scope.
Local Open Scope Z_scope.

(* ================================================================== *)
(** * Python built-ins *)
(* ================================================================== *)

Module Py.

(** [l[i]] with Python's negative indices; [None] is [IndexError]. *)
Definition getitem {A : Type} (l : list A) (i : Z) : option A :=
  let n := Z.of_nat (List.length l) in
  if i <? 0
  then (if 0 <=? n + i then nth_error l (Z.to_nat (n + i)) else None)
  else nth_error l (Z.to_nat i).

(** [range(lo, hi)] *)
Definition range (lo hi : Z) : list Z :=
  map (fun n => lo + Z.of_nat n) (seq 0 (Z.to_nat (hi - lo))).

(** [l[lo:hi]] for [0 <= lo] and [0 <= hi]. *)
Definition slice {A : Type} (l : list A) (lo hi : Z) : list A :=
  firstn (Z.to_nat hi - Z.to_nat lo) (skipn (Z.to_nat lo) l).

(** [enumerate(l)] *)
Definition enumerate {A : Type} (l : list A) : list (Z * A) :=
  combine (range 0 (Z.of_nat (List.length l))) l.

(** A [while] loop run for at most [fuel] iterations. *)
Fixpoint while {S : Type} (fuel : nat) (cond : S -> bool) (body : S -> S)
  (s : S) : S :=
  match fuel with
  | O => s
  | Datatypes.S f => if cond s then while f cond body (body s) else s
  end.

(** ** Dictionaries: association lists in insertion order *)
Section Dict.
Context {K V : Type} (keq : K -> K -> bool).

Fixpoint dict_get (d : list (K * V)) (k : K) : option V :=
  match d with
  | [] => None
  | (k', v) :: d' => if keq k' k then Some v else dict_get d' k
  end.

(** [d.get(k, dflt)] *)
Definition dict_get_default (d : list (K * V)) (k : K) (dflt : V) : V :=
  match dict_get d k with Some v => v | None => dflt end.

(** [k in d] *)
Definition dict_mem (d : list (K * V)) (k : K) : bool :=
  match dict_get d k with Some _ => true | None => false end.

(** [d[k] = v]: an existing key keeps its place, a new one goes last. *)
Fixpoint dict_set (d : list (K * V)) (k : K) (v : V) : list (K * V) :=
  match d with
  | [] => [(k, v)]
  | (k', v') :: d' =>
      if keq k' k then (k', v) :: d' else (k', v') :: dict_set d' k v
  end.

(** [del d[k]] *)
Definition dict_del (d : list (K * V)) (k : K) : list (K * V) :=
  filter (fun p => negb (keq (fst p) k)) d.
End Dict.

(** ** Strings *)

(** [c.isspace()] for a code point below 256. *)
Definition isspace (c : ascii) : bool :=
  let n := nat_of_ascii c in
  (((9 <=? n) && (n <=? 13)) || ((28 <=? n) && (n <=? 32))
   || (n =? 133) || (n =? 160))%nat.

Fixpoint lstrip (s : string) : string :=
  match s with
  | EmptyString => EmptyString
  | String c s' => if isspace c then lstrip s' else s
  end.

Fixpoint rstrip (s : string) : string :=
  match s with
  | EmptyString => EmptyString
  | String c s' =>
      match rstrip s' with
      | EmptyString => if isspace c then EmptyString else String c EmptyString
      | r => String c r
      end
  end.

(** [s.strip()] *)
Definition strip (s : string) : string := rstrip (lstrip s).

(** [sep.join(l)] *)
Fixpoint join (sep : string) (l : list string) : string :=
  match l with
  | [] => ""
  | [x] => x
  | x :: l' => (x ++ sep ++ join sep l')%string
  end.

(** [c * n] for a one-character string [c]. *)
Definition repeat_char (c : ascii) (n : Z) : string :=
  string_of_list_ascii (repeat c (Z.to_nat n)).

(** Line boundaries of [str.splitlines] below code point 256. *)
Definition islinebreak (c : ascii) : bool :=
  let n := nat_of_ascii c in
  (((10 <=? n) && (n <=? 13)) || ((28 <=? n) && (n <=? 30)) || (n =? 133))%nat.

(** [s.splitlines()]: [cur] holds the current line reversed. A carriage
    return followed by a line feed is one boundary, and no empty line is
    produced after the last boundary. *)
Fixpoint splitlines_from (cur : list ascii) (s : string) : list string :=
  match s with
  | EmptyString =>
      match cur with
      | [] => []
      | _ => [string_of_list_ascii (rev cur)]
      end
  | String c s' =>
      if islinebreak c then
        string_of_list_ascii (rev cur) ::
        match s' with
        | String c' s'' =>
            if (Ascii.eqb c "013"%char && Ascii.eqb c' "010"%char)%bool
            then splitlines_from [] s'' else splitlines_from [] s'
        | EmptyString => []
        end
      else splitlines_from (c :: cur) s'
  end.

Definition splitlines (s : string) : list string := splitlines_from [] s.

End Py.

(* ================================================================== *)
(** * [difflib]: the sequence matcher and [ndiff] *)
(* ================================================================== *)

(** [compare_presentations] computes its text diff with
    [difflib.ndiff]. The definitions below follow [difflib.py] of the
    Python standard library (CPython 3.11) function by function. The
    similarity ratios, floats in Python, are exact rationals here; the
    two agree on every comparison made as long as lines stay below 2^26
    characters, and what is proved about the delta holds whichever pair
    of lines is chosen. *)

Module Difflib.
Import Py.

(** A matching block [(i, j, k)] and a region [(alo, ahi, blo, bhi)]. *)
Definition block : Type := Z * Z * Z.
Definition region : Type := Z * Z * Z * Z.

Inductive tag : Type := Replace | Delete | Insert | Equal.
Definition opcode : Type := tag * Z * Z * Z * Z.

(** Tuple comparison [x <= y] used by [list.sort]. *)
Definition block_leb (x y : block) : bool :=
  let '(i1, j1, k1) := x in
  let '(i2, j2, k2) := y in
  (i1 <? i2) || ((i1 =? i2) && ((j1 <? j2) || ((j1 =? j2) && (k1 <=? k2)))).

Fixpoint sort_insert (x : block) (l : list block) : list block :=
  match l with
  | [] => [x]
  | y :: l' => if block_leb x y then x :: l else y :: sort_insert x l'
  end.

(** [matching_blocks.sort()] *)
Definition sort (l : list block) : list block :=
  fold_right sort_insert [] l.

(** [_calculate_ratio] *)
Definition calculate_ratio (matches length : Z) : Q :=
  if length =? 0 then 1%Q else Qmake (2 * matches) (Z.to_pos length).

Definition Qgtb (x y : Q) : bool := negb (Qle_bool x y).
Definition Qltb (x y : Q) : bool := negb (Qle_bool y x).

Section SequenceMatcher.
Context {A : Type} (eqb : A -> A -> bool).
(** [isjunk]; [autojunk] keeps its default [True] at both call sites. *)
Variable isjunk : option (A -> bool).

(** The fields of a [SequenceMatcher] that the methods read. *)
Record matcher : Type := {
  seq_a : list A;
  seq_b : list A;
  b2j : list (A * list Z);
  bjunk : list A
}.

(** [__chain_b] *)
Definition chain_b (b : list A) : list (A * list Z) * list A :=
  let b2j0 :=
    fold_left
      (fun d '(i, elt) =>
         match dict_get eqb d elt with
         | Some indices => dict_set eqb d elt (indices ++ [i])
         | None => dict_set eqb d elt [i]
         end)
      (enumerate b) [] in
  let junk :=
    match isjunk with
    | Some f => filter f (map fst b2j0)
    | None => []
    end in
  let b2j1 := fold_left (dict_del eqb) junk b2j0 in
  let n := Z.of_nat (List.length b) in
  let popular :=
    if 200 <=? n
    then
      let ntest := n / 100 + 1 in
      map fst
        (filter (fun p => ntest <? Z.of_nat (List.length (snd p))) b2j1)
    else [] in
  (fold_left (dict_del eqb) popular b2j1, junk).

(** [SequenceMatcher(isjunk, a, b)] and [set_seqs] *)
Definition set_seqs (a b : list A) : matcher :=
  let '(d, junk) := chain_b b in
  {| seq_a := a; seq_b := b; b2j := d; bjunk := junk |}.

Definition isbjunk (m : matcher) (x : A) : bool := existsb (eqb x) (bjunk m).

(** [a[i] == b[j]] *)
Definition eq_at (m : matcher) (i j : Z) : bool :=
  match getitem (seq_a m) i, getitem (seq_b m) j with
  | Some x, Some y => eqb x y
  | _, _ => false
  end.

(** [isbjunk(b[j])] *)
Definition junk_at (m : matcher) (j : Z) : bool :=
  match getitem (seq_b m) j with
  | Some y => isbjunk m y
  | None => false
  end.

(** The inner loop of [find_longest_match]: [for j in b2j.get(a[i])]. *)
Fixpoint flm_inner (js : list Z) (i blo bhi : Z)
  (j2len newj2len : list (Z * Z)) (best : block)
  : list (Z * Z) * block :=
  match js with
  | [] => (newj2len, best)
  | j :: js' =>
      if j <? blo then flm_inner js' i blo bhi j2len newj2len best
      else if bhi <=? j then (newj2len, best)
      else
        let k := dict_get_default Z.eqb j2len (j - 1) 0 + 1 in
        let newj2len' := dict_set Z.eqb newj2len j k in
        let '(_, _, bestsize) := best in
        let best' := if bestsize <? k then (i - k + 1, j - k + 1, k)
                     else best in
        flm_inner js' i blo bhi j2len newj2len' best'
  end.

(** The outer loop: [for i in range(alo, ahi)]. *)
Definition flm_outer (m : matcher) (alo ahi blo bhi : Z)
  : list (Z * Z) * block :=
  fold_left
    (fun '(j2len, best) i =>
       let js :=
         match getitem (seq_a m) i with
         | Some x => dict_get_default eqb (b2j m) x []
         | None => []
         end in
       flm_inner js i blo bhi j2len [] best)
    (range alo ahi) ([], (alo, blo, 0)).

Definition extend_left (m : matcher) (alo blo : Z) (junk : bool)
  (best : block) : block :=
  let '(besti0, _, _) := best in
  while (Z.to_nat (besti0 - alo))
    (fun '(besti, bestj, _) =>
       (alo <? besti) && (blo <? bestj)
       && Bool.eqb (junk_at m (bestj - 1)) junk
       && eq_at m (besti - 1) (bestj - 1))
    (fun '(besti, bestj, bestsize) => (besti - 1, bestj - 1, bestsize + 1))
    best.

Definition extend_right (m : matcher) (ahi bhi : Z) (junk : bool)
  (best : block) : block :=
  let '(besti0, _, bestsize0) := best in
  while (Z.to_nat (ahi - (besti0 + bestsize0)))
    (fun '(besti, bestj, bestsize) =>
       (besti + bestsize <? ahi) && (bestj + bestsize <? bhi)
       && Bool.eqb (junk_at m (bestj + bestsize)) junk
       && eq_at m (besti + bestsize) (bestj + bestsize))
    (fun '(besti, bestj, bestsize) => (besti, bestj, bestsize + 1))
    best.

(** [find_longest_match(alo, ahi, blo, bhi)] *)
Definition find_longest_match (m : matcher) (alo ahi blo bhi : Z) : block :=
  let best0 := snd (flm_outer m alo ahi blo bhi) in
  let best1 := extend_left m alo blo false best0 in
  let best2 := extend_right m ahi bhi false best1 in
  let best3 := extend_left m alo blo true best2 in
  extend_right m ahi bhi true best3.

(** The queue loop of [get_matching_blocks]. The head of [queue] is the
    element [queue.pop()] returns. [None] when [fuel] pops were not
    enough to empty the queue. *)
Fixpoint gmb_loop (m : matcher) (fuel : nat) (queue : list region)
  (matching_blocks : list block) : option (list block) :=
  match queue with
  | [] => Some matching_blocks
  | (alo, ahi, blo, bhi) :: rest =>
      match fuel with
      | O => None
      | S f =>
          let '(i, j, k) := find_longest_match m alo ahi blo bhi in
          if k =? 0 then gmb_loop m f rest matching_blocks
          else
            let q1 := if (alo <? i) && (blo <? j)
                      then [(alo, i, blo, j)] else [] in
            let q2 := if (i + k <? ahi) && (j + k <? bhi)
                      then [(i + k, ahi, j + k, bhi)] else [] in
            gmb_loop m f (q2 ++ q1 ++ rest) (matching_blocks ++ [(i, j, k)])
      end
  end.

(** The body of the loop that merges adjacent blocks. *)
Definition collapse_step (st : Z * Z * Z * list block) (blk : block)
  : Z * Z * Z * list block :=
  let '(i1, j1, k1, non_adjacent) := st in
  let '(i2, j2, k2) := blk in
  if (i1 + k1 =? i2) && (j1 + k1 =? j2)
  then (i1, j1, k1 + k2, non_adjacent)
  else (i2, j2, k2,
        if k1 =? 0 then non_adjacent else non_adjacent ++ [(i1, j1, k1)]).

(** The loop that merges adjacent blocks, and the [if k1:] after it. *)
Definition collapse (matching_blocks : list block) : list block :=
  let '(i1, j1, k1, non_adjacent) :=
    fold_left collapse_step matching_blocks (0, 0, 0, []) in
  if k1 =? 0 then non_adjacent else non_adjacent ++ [(i1, j1, k1)].

(** Pops that always empty the queue (lemma [gmb_loop_total]). *)
Definition gmb_fuel (m : matcher) : nat :=
  S (2 * List.length (seq_a m)).

(** [get_matching_blocks()] *)
Definition get_matching_blocks (m : matcher) : list block :=
  let la := Z.of_nat (List.length (seq_a m)) in
  let lb := Z.of_nat (List.length (seq_b m)) in
  match gmb_loop m (gmb_fuel m) [(0, la, 0, lb)] [] with
  | Some matching_blocks => collapse (sort matching_blocks) ++ [(la, lb, 0)]
  | None => [(la, lb, 0)]
  end.

(** The body of the loop of [get_opcodes]. *)
Definition opcodes_step (st : Z * Z * list opcode) (blk : block)
  : Z * Z * list opcode :=
  let '(i, j, answer) := st in
  let '(ai, bj, size) := blk in
  let answer1 :=
    if (i <? ai) && (j <? bj) then answer ++ [(Replace, i, ai, j, bj)]
    else if i <? ai then answer ++ [(Delete, i, ai, j, bj)]
    else if j <? bj then answer ++ [(Insert, i, ai, j, bj)]
    else answer in
  let answer2 :=
    if size =? 0 then answer1
    else answer1 ++ [(Equal, ai, ai + size, bj, bj + size)] in
  (ai + size, bj + size, answer2).

(** The loop of [get_opcodes]. *)
Definition opcodes_of (blocks : list block) : list opcode :=
  snd (fold_left opcodes_step blocks (0, 0, [])).

(** [get_opcodes()] *)
Definition get_opcodes (m : matcher) : list opcode :=
  opcodes_of (get_matching_blocks m).

(** [ratio()] *)
Definition ratio (m : matcher) : Q :=
  let matches :=
    fold_left (fun s '(_, _, k) => s + k) (get_matching_blocks m) 0 in
  calculate_ratio matches
    (Z.of_nat (List.length (seq_a m)) + Z.of_nat (List.length (seq_b m))).

(** [quick_ratio()] *)
Definition quick_ratio (m : matcher) : Q :=
  let fullbcount :=
    fold_left
      (fun d elt => dict_set eqb d elt (dict_get_default eqb d elt 0 + 1))
      (seq_b m) [] in
  let '(_, matches) :=
    fold_left
      (fun '(avail, matches) elt =>
         let numb :=
           match dict_get eqb avail elt with
           | Some n => n
           | None => dict_get_default eqb fullbcount elt 0
           end in
         (dict_set eqb avail elt (numb - 1),
          if 0 <? numb then matches + 1 else matches))
      (seq_a m) ([], 0) in
  calculate_ratio matches
    (Z.of_nat (List.length (seq_a m)) + Z.of_nat (List.length (seq_b m))).

(** [real_quick_ratio()] *)
Definition real_quick_ratio (m : matcher) : Q :=
  let la := Z.of_nat (List.length (seq_a m)) in
  let lb := Z.of_nat (List.length (seq_b m)) in
  calculate_ratio (Z.min la lb) (la + lb).

End SequenceMatcher.

(** ** [Differ] as [ndiff] builds it: no line junk, blanks and tabs as
    character junk *)

Definition newline : string := String "010"%char EmptyString.

(** [IS_CHARACTER_JUNK] *)
Definition IS_CHARACTER_JUNK (ch : ascii) : bool :=
  Ascii.eqb ch " "%char || Ascii.eqb ch "009"%char.

(** [SequenceMatcher(self.charjunk)] with [set_seq1(ai)], [set_seq2(bj)] *)
Definition char_cruncher (ai bj : string) : matcher (A := ascii) :=
  set_seqs Ascii.eqb (Some IS_CHARACTER_JUNK)
    (list_ascii_of_string ai) (list_ascii_of_string bj).

(** [SequenceMatcher(self.linejunk, a, b)] *)
Definition line_cruncher (a b : list string) : matcher (A := string) :=
  set_seqs String.eqb None a b.

(** [_dump]: yields ['%s %s' % (tag, x[i])] for [i] in [range(lo, hi)]. *)
Definition dump (tg : string) (x : list string) (lo hi : Z) : list string :=
  flat_map
    (fun i =>
       match getitem x i with
       | Some line => [(tg ++ " " ++ line)%string]
       | None => []
       end)
    (range lo hi).

(** [_plain_replace]; its assertion [alo < ahi and blo < bhi] holds at the
    only call. *)
Definition plain_replace (a : list string) (alo ahi : Z) (b : list string)
  (blo bhi : Z) : list string :=
  if bhi - blo <? ahi - alo
  then dump "+" b blo bhi ++ dump "-" a alo ahi
  else dump "-" a alo ahi ++ dump "+" b blo bhi.

(** [_keep_original_ws] *)
Definition keep_original_ws (s tag_s : string) : string :=
  string_of_list_ascii
    (map (fun '(c, tag_c) =>
            if Ascii.eqb tag_c " "%char && isspace c then c else tag_c)
       (combine (list_ascii_of_string s) (list_ascii_of_string tag_s))).

(** [_qformat] *)
Definition qformat (aline bline atags btags : string) : list string :=
  let atags := rstrip (keep_original_ws aline atags) in
  let btags := rstrip (keep_original_ws bline btags) in
  [("- " ++ aline)%string]
  ++ (if String.eqb atags "" then []
      else [("? " ++ atags ++ newline)%string])
  ++ [("+ " ++ bline)%string]
  ++ (if String.eqb btags "" then []
      else [("? " ++ btags ++ newline)%string]).

(** The state of the search in [_fancy_replace]: [best_ratio], the pair
    [(best_i, best_j)] once it is bound, and [(eqi, eqj)]. *)
Definition search_state : Type := Q * option (Z * Z) * option (Z * Z).

(** One pass of the body of [for i in range(alo, ahi)]. *)
Definition search_step (a b : list string) (j : Z) (st : search_state)
  (i : Z) : search_state :=
  let '(best_ratio, best, eqij) := st in
  match getitem a i, getitem b j with
  | Some ai, Some bj =>
      if String.eqb ai bj
      then (best_ratio, best,
            match eqij with None => Some (i, j) | Some _ => eqij end)
      else
        let cruncher := char_cruncher ai bj in
        if Qgtb (real_quick_ratio cruncher) best_ratio then
          if Qgtb (quick_ratio Ascii.eqb cruncher) best_ratio then
            if Qgtb (ratio Ascii.eqb cruncher) best_ratio
            then (ratio Ascii.eqb cruncher, Some (i, j), eqij)
            else st
          else st
        else st
  | _, _ => st
  end.

(** The two nested [for] loops of [_fancy_replace]. *)
Definition search (a : list string) (alo ahi : Z) (b : list string)
  (blo bhi : Z) : search_state :=
  fold_left
    (fun st j => fold_left (search_step a b j) (range alo ahi) st)
    (range blo bhi) ((74 # 100)%Q, None, None).

(** The intraline tags of the synch pair, from the opcodes of the
    character matcher. *)
Definition intraline_tags (aelt belt : string) : string * string :=
  fold_left
    (fun '(atags, btags) '(tg, ai1, ai2, bj1, bj2) =>
       let la := ai2 - ai1 in
       let lb := bj2 - bj1 in
       match tg with
       | Replace => ((atags ++ repeat_char "^" la)%string,
                     (btags ++ repeat_char "^" lb)%string)
       | Delete => ((atags ++ repeat_char "-" la)%string, btags)
       | Insert => (atags, (btags ++ repeat_char "+" lb)%string)
       | Equal => ((atags ++ repeat_char " " la)%string,
                   (btags ++ repeat_char " " lb)%string)
       end)
    (get_opcodes Ascii.eqb (char_cruncher aelt belt)) ("", "").

(** The lines for the synch pair [a[best_i]], [b[best_j]]. *)
Definition synch_lines (a b : list string) (best_i best_j : Z)
  (identical : bool) : list string :=
  match getitem a best_i, getitem b best_j with
  | Some aelt, Some belt =>
      if identical then [("  " ++ aelt)%string]
      else let '(atags, btags) := intraline_tags aelt belt in
           qformat aelt belt atags btags
  | _, _ => []
  end.

(** [_fancy_replace], with [_fancy_helper] as the local [helper]. Each
    call may nest [fuel] calls deep; [None] when that depth is exceeded or
    when [best_i] would be read unbound. *)
Fixpoint fancy_replace (fuel : nat) (a : list string) (alo ahi : Z)
  (b : list string) (blo bhi : Z) : option (list string) :=
  match fuel with
  | O => None
  | S f =>
      let helper (alo ahi blo bhi : Z) : option (list string) :=
        if alo <? ahi then
          if blo <? bhi then fancy_replace f a alo ahi b blo bhi
          else Some (dump "-" a alo ahi)
        else if blo <? bhi then Some (dump "+" b blo bhi)
        else Some [] in
      let '(best_ratio, best, eqij) := search a alo ahi b blo bhi in
      let close := negb (Qltb best_ratio (75 # 100)%Q) in
      match (if close then best else eqij) with
      | None =>
          if close then None
          else Some (plain_replace a alo ahi b blo bhi)
      | Some (best_i, best_j) =>
          match helper alo best_i blo best_j,
                helper (best_i + 1) ahi (best_j + 1) bhi with
          | Some before, Some after =>
              Some (before
                    ++ synch_lines a b best_i best_j (negb close)
                    ++ after)
          | _, _ => None
          end
      end
  end.

(** The body of the loop of [Differ.compare]: the lines for one opcode.
    [_fancy_replace] always returns here (lemma [fancy_replace_total]). *)
Definition compare_opcode (a b : list string) (op : opcode) : list string :=
  let '(tg, alo, ahi, blo, bhi) := op in
  match tg with
  | Replace =>
      match fancy_replace (Z.to_nat (ahi - alo)) a alo ahi b blo bhi with
      | Some g => g
      | None => []
      end
  | Delete => dump "-" a alo ahi
  | Insert => dump "+" b blo bhi
  | Equal => dump " " a alo ahi
  end.

(** [Differ.compare] *)
Definition compare (a b : list string) : list string :=
  flat_map (compare_opcode a b) (get_opcodes String.eqb (line_cruncher a b)).

(** [difflib.ndiff(a, b)] *)
Definition ndiff (a b : list string) : list string := compare a b.

(** [difflib.restore(delta, which)]: the lines of sequence [which], 1 or
    2, recovered from a delta. *)
Definition restore (delta : list string) (which : Z) : list string :=
  let tg := if which =? 1 then "- " else "+ " in
  flat_map
    (fun line =>
       let prefix := substring 0 2 line in
       if String.eqb prefix "  " || String.eqb prefix tg
       then [substring 2 (String.length line - 2) line]
       else [])
    delta.

(** ** Invariants of the matcher, for the proofs below *)

(** Every index that [b2j] lists for a key holds that key in [b]. *)
Definition entries_ok {A : Type} (b : list A) (d : list (A * list Z))
  : Prop :=
  Forall
    (fun p => Forall (fun j => 0 <= j /\ getitem b j = Some (fst p)) (snd p))
    d.

(** [a[i:i+k] == b[j:j+k]], element by element. *)
Definition match_ok {A : Type} (a b : list A) (i j k : Z) : Prop :=
  forall t, 0 <= t < k ->
    exists x, getitem a (i + t) = Some x /\ getitem b (j + t) = Some x.

(** A block of equal elements inside a region. *)
Definition block_in {A : Type} (a b : list A) (alo ahi blo bhi : Z)
  (blk : block) : Prop :=
  let '(i, j, k) := blk in
  alo <= i /\ i + k <= ahi /\ blo <= j /\ j + k <= bhi /\ 0 <= k
  /\ match_ok a b i j k.

(** [j2len[j]] is the length of a match that ends with [a[i-1]] and
    [b[j]]. *)
Definition j2len_ok {A : Type} (a b : list A) (alo blo bhi i : Z)
  (d : list (Z * Z)) : Prop :=
  Forall
    (fun p =>
       let '(j, k) := p in
       1 <= k /\ alo <= i - k /\ blo <= j - k + 1 /\ j < bhi
       /\ match_ok a b (i - k) (j - k + 1) k)
    d.

(** The rectangle of index pairs that a block covers. *)
Definition rect_of_block (blk : block) : region :=
  let '(i, j, k) := blk in (i, i + k, j, j + k).

(** [r1] lies before [r2] in both sequences. *)
Definition before (r1 r2 : region) : Prop :=
  let '(_, ahi1, _, bhi1) := r1 in
  let '(alo2, _, blo2, _) := r2 in
  ahi1 <= alo2 /\ bhi1 <= blo2.

Definition comparable (r1 r2 : region) : Prop :=
  before r1 r2 \/ before r2 r1.

(** [r] is a part of [q]. *)
Definition inside (q r : region) : Prop :=
  let '(alo, ahi, blo, bhi) := r in
  let '(alo', ahi', blo', bhi') := q in
  alo' <= alo /\ alo <= ahi /\ ahi <= ahi'
  /\ blo' <= blo /\ blo <= bhi /\ bhi <= bhi'.

(** A region within the two sequences. *)
Definition region_wf {A : Type} (a b : list A) (r : region) : Prop :=
  let '(alo, ahi, blo, bhi) := r in
  0 <= alo /\ alo <= ahi /\ ahi <= Z.of_nat (List.length a)
  /\ 0 <= blo /\ blo <= bhi /\ bhi <= Z.of_nat (List.length b).

(** A non-empty block of equal elements within the two sequences. *)
Definition blk_ok {A : Type} (a b : list A) (blk : block) : Prop :=
  0 < snd blk
  /\ block_in a b 0 (Z.of_nat (List.length a)) 0 (Z.of_nat (List.length b))
       blk.

(** The invariant of the queue loop of [get_matching_blocks]: the
    blocks found and the regions still to search lie pairwise before one
    another. *)
Definition gmb_inv {A : Type} (a b : list A) (queue : list region)
  (blocks : list block) : Prop :=
  Forall (region_wf a b) queue
  /\ Forall (blk_ok a b) blocks
  /\ ForallOrdPairs comparable (map rect_of_block blocks ++ queue).

(** A bound on the pops the queue loop still makes. *)
Definition queue_measure (queue : list region) : nat :=
  list_sum
    (map (fun r => let '(alo, ahi, _, _) := r in
                   S (2 * Z.to_nat (ahi - alo)))
       queue).

(** Block [x] ends before block [y] starts, in both sequences. *)
Definition block_before (x y : block) : Prop :=
  before (rect_of_block x) (rect_of_block y).

(** The last steps of [get_matching_blocks], from the state of the
    merging loop. *)
Definition collapse_end (st : Z * Z * Z * list block) : list block :=
  let '(i1, j1, k1, non_adjacent) := st in
  if k1 =? 0 then non_adjacent else non_adjacent ++ [(i1, j1, k1)].

(** Blocks that can follow position [(i, j)]: in order, each a run of
    equal elements, the last one the sentinel [(la, lb, 0)]. *)
Inductive good_blocks {A : Type} (a b : list A)
  : Z -> Z -> list block -> Prop :=
| good_last (i j : Z) :
    0 <= i <= Z.of_nat (List.length a) ->
    0 <= j <= Z.of_nat (List.length b) ->
    good_blocks a b i j
      [(Z.of_nat (List.length a), Z.of_nat (List.length b), 0)]
| good_cons (i j ai bj size : Z) (rest : list block) :
    0 <= i <= ai -> 0 <= j <= bj -> 0 < size ->
    match_ok a b ai bj size ->
    good_blocks a b (ai + size) (bj + size) rest ->
    good_blocks a b i j ((ai, bj, size) :: rest).

(** What the search of [_fancy_replace] maintains: [best_ratio] keeps
    its initial value until a pair is bound, and both pairs lie in the
    ranges searched, [(eqi, eqj)] at two equal lines. *)
Definition search_inv (a b : list string) (alo ahi blo bhi : Z)
  (st : search_state) : Prop :=
  let '(best_ratio, best, eqij) := st in
  (best = None -> best_ratio = (74 # 100)%Q)
  /\ (forall bi bj, best = Some (bi, bj) ->
        alo <= bi < ahi /\ blo <= bj < bhi)
  /\ (forall ei ej, eqij = Some (ei, ej) ->
        alo <= ei < ahi /\ blo <= ej < bhi
        /\ exists x, getitem a ei = Some x /\ getitem b ej = Some x).

End Difflib.

(* ================================================================== *)
(** * The program: data *)
(* ================================================================== *)

Import Py.

(** ** Exceptions *)

(** A raised exception: its class name, [str(e)] and the frames that
    [traceback] prints for it. *)
Record pyexn : Type := {
  exn_type : string;
  exn_msg : string;
  exn_frames : string
}.

(** Code that either raises or returns. *)
Definition M (A : Type) : Type := (pyexn + A)%type.
Definition ret {A : Type} (x : A) : M A := inr x.
Definition raise {A : Type} (e : pyexn) : M A := inl e.
Definition bind {A B : Type} (c : M A) (k : A -> M B) : M B :=
  match c with
  | inl e => inl e
  | inr x => k x
  end.

Notation "x <- c ;; k" := (bind c (fun x => k))
  (at level 61, c at next level, right associativity).

Definition IndexError : pyexn :=
  {| exn_type := "IndexError";
     exn_msg := "list index out of range";
     exn_frames := "" |}.

(** What the interpreter raises for a call that does not fit on its
    stack. *)
Definition RecursionError : pyexn :=
  {| exn_type := "RecursionError";
     exn_msg := "maximum recursion depth exceeded";
     exn_frames := "" |}.

(** What python-pptx raises for the [shape_type] of a shape element it
    does not recognise. *)
Definition NotImplementedError : pyexn :=
  {| exn_type := "NotImplementedError";
     exn_msg := "Shape instance of unrecognized shape type";
     exn_frames := "" |}.

(** [l[i]] for [0 <= i] *)
Definition list_index {A : Type} (l : list A) (i : nat) : M A :=
  match nth_error l i with
  | Some x => ret x
  | None => raise IndexError
  end.

(** [traceback.format_exc()] while [e] is being handled. *)
Definition format_exc (e : pyexn) : string :=
  ("Traceback (most recent call last):" ++ Difflib.newline
   ++ exn_frames e ++ exn_type e
   ++ (if String.eqb (exn_msg e) "" then "" else ": " ++ exn_msg e)
   ++ Difflib.newline)%string.

(** [str(n)] inside an f-string, for [n >= 0]. *)
Definition str_of_nat (n : nat) : string :=
  NilEmpty.string_of_uint (Nat.to_uint n).

(** ** What the document parser yields *)

(** The object handed to [process_image_blob]: a [bytes] value, or
    anything [hashlib.md5] and [len] reject. *)
Inductive blob : Type :=
| Bytes (data : list byte)
| NotBytes.

(** [shape.fill]: [fill_type] is [None] when [shape.fill.type] raises or
    is [None]; [fill_picture_blob] is [None] when
    [shape.fill.fore_color.picture.blob] raises. *)
Record fill_format : Type := {
  fill_type : option Z;
  fill_picture_blob : option blob
}.

(** A shape. [shape_type] is [getattr(shape, "shape_type", None)]: the
    value of the property, [None] when reading it raises
    [AttributeError], and any other exception of the property as it is,
    since [getattr] absorbs [AttributeError] only. [image_blob] is
    [shape.image.blob], [None] when that raises; [fill], [text] and
    [table] are [None] when [hasattr] is false ([table] also when
    [has_table] is false); [shapes] are the children of a group, none
    when reading them raises. *)
#[warnings="-register-all"]
Inductive shape : Type :=
  Shape {
    shape_type : M (option Z);
    image_blob : option blob;
    fill : option fill_format;
    shapes : list shape;
    text : option string;
    table : option (list (list string))
  }.

(** ** Records built by the program *)

(** The dict returned by [process_image_blob]. *)
Record image_record : Type := {
  img_hash : string;
  img_size : nat;
  img_width : nat;
  img_height : nat;
  img_format : string;
  img_thumbnail : option string;
  img_debug_info : string
}.

(** One element of [all_slides_content]. *)
Record slide_content : Type := {
  slide_number : nat;
  text_content : string;
  images : list image_record;
  image_count : nat
}.

(** The dict [slide_differences]; a key that may be absent is an option. *)
Record slide_differences : Type := {
  sd_slide_number : nat;
  has_text_diff : bool;
  has_image_diff : bool;
  image_count1 : nat;
  image_count2 : nat;
  text_diff : option (list string);
  ppt1_content : option string;
  ppt2_content : option string;
  image_count_different : option bool;
  images_missing_in_ppt1 : option (list image_record);
  images_missing_in_ppt2 : option (list image_record)
}.

(** One element of [extra_slides]. *)
Record extra_slide : Type := {
  ex_slide_number : nat;
  in_presentation : nat;
  ex_text_content : string;
  ex_image_count : nat
}.

(** The dict returned by [compare_presentations]. *)
Record comparison_result : Type := {
  identical : bool;
  summary : string;
  differences : list slide_differences;
  detailed_summary : option string;
  extra_slides : option (list extra_slide);
  slide_count_different : option bool;
  slide_count_message : option string;
  error_details : option string;
  error : option bool
}.

(** The local variables of the loop of [compare_presentations]. *)
Record loop_state : Type := {
  ls_differences : list slide_differences;
  identical_count : nat;
  text_diff_count : nat;
  image_diff_count : nat
}.

(* ================================================================== *)
(** * Sample collaborators and inputs *)
(* ================================================================== *)

(** Stand-ins for the imported libraries, for running the program on
    concrete inputs. *)

(** A digest that spells the bytes out. *)
Definition sample_digest (data : list byte) : string :=
  string_of_list_byte data.

(** A decoder that accepts payloads starting with ["P"]. *)
Definition sample_decoder (data : list byte) : option (nat * nat * string) :=
  match data with
  | x50 :: _ => Some (4%nat, 3%nat, "PNG")
  | _ => None
  end.

(** A preview encoder that accepts payloads of two bytes or more. *)
Definition sample_preview (data : list byte) : option string :=
  match data with
  | _ :: _ :: _ => Some "cHJldmlldw=="
  | _ => None
  end.

Definition sample_str_shape_type (st : option Z) : string :=
  match st with
  | Some 6 => "GROUP (6)"
  | Some 13 => "PICTURE (13)"
  | Some 14 => "PLACEHOLDER (14)"
  | Some _ => "AUTO_SHAPE (1)"
  | None => "None"
  end.

Definition text_box (t : string) : shape :=
  Shape (ret (Some 17)) None None [] (Some t) None.

Definition picture (data : list byte) : shape :=
  Shape (ret (Some 13)) (Some (Bytes data)) None [] None None.

Definition group (children : list shape) : shape :=
  Shape (ret (Some 6)) None None children None None.

Definition table_shape (rows : list (list string)) : shape :=
  Shape (ret (Some 19)) None None [] None (Some rows).

(** A shape element that the parser does not recognise: reading its type
    raises. *)
Definition unrecognised (t : string) : shape :=
  Shape (raise NotImplementedError) None None [] (Some t) None.

(** Room for 300 nested calls of the walk. *)
Definition sample_stack_room : nat := 300.


(** A parser that rejects the empty payload and otherwise yields one
    slide per byte: a text box, or for a zero byte a text box followed by
    a shape it does not recognise. *)
Definition sample_parser (file_content : list byte) : M (list (list shape)) :=
  match file_content with
  | [] => raise {| exn_type := "PackageNotFoundError";
                   exn_msg := "Package not found";
                   exn_frames := "" |}
  | _ => ret (map (fun b => match b with
                            | x00 => [text_box "Hello"; unrecognised "?"]
                            | _ => [text_box "Hello"]
                            end)
                file_content)
  end.

Definition sample_image (h : string) : image_record :=
  {| img_hash := h;
     img_size := 1;
     img_width := 0;
     img_height := 0;
     img_format := "Unknown";
     img_thumbnail := None;
     img_debug_info := "" |}.

Definition sample_slide (n : nat) (t : string) (hashes : list string)
  : slide_content :=
  {| slide_number := n;
     text_content := t;
     images := map sample_image hashes;
     image_count := List.length hashes |}.

(* ================================================================== *)
(** * The program: functions *)
(* ================================================================== *)

Section Program.

(** [hashlib.md5(blob).hexdigest()] *)
Variable md5_hexdigest : list byte -> string.
(** [Image.open(io.BytesIO(blob))]: [size] and [format], [None] when
    it raises. *)
Variable Image_open : list byte -> option (nat * nat * string).
(** The base64 text of the PNG preview, [None] when a step of the
    second [try] block raises. *)
Variable thumbnail_base64 : list byte -> option string.
(** How an f-string prints [shape_type]. *)
Variable str_shape_type : option Z -> string.
(** The nested calls of the walk that the interpreter's stack has room
    for where [extract_content_from_pptx] calls it: the recursion limit
    less the frames in use, in units of one level of the walk. *)
Variable stack_room : nat.
(** [Presentation(BytesIO(file_content)).slides], each slide as its
    [shapes]; raises on a container it cannot parse. *)
Variable Presentation : list byte -> M (list (list shape)).

Definition process_image_blob (image_blob : blob) (debug_info : string)
  : option image_record :=
  match image_blob with
  | NotBytes => None
  | Bytes data =>
      let image_hash := md5_hexdigest data in
      let '(width, height, image_format) :=
        match Image_open data with
        | Some r => r
        | None => (0%nat, 0%nat, "Unknown")
        end in
      let thumbnail :=
        match thumbnail_base64 data with
        | Some img_str => Some ("data:image/png;base64," ++ img_str)%string
        | None => None
        end in
      Some {| img_hash := image_hash;
              img_size := List.length data;
              img_width := width;
              img_height := height;
              img_format := image_format;
              img_thumbnail := thumbnail;
              img_debug_info := debug_info |}
  end.

(** [img_data = process_image_blob(...)]; [if img_data: append], under
    a [try] that turns a failing blob access into nothing. *)
Definition blob_images (b : option blob) (debug_info : string)
  : list image_record :=
  match b with
  | Some image_blob =>
      match process_image_blob image_blob debug_info with
      | Some img_data => [img_data]
      | None => []
      end
  | None => []
  end.

Definition shape_type_is (st : option Z) (code : Z) : bool :=
  match st with
  | Some c => c =? code
  | None => false
  end.

(** The loop of method 4 with its [try]: the images of the children in
    order, up to the first child on which the recursive call raises;
    [except Exception: pass] ends the loop there and keeps what the
    earlier children gave. *)
Fixpoint group_images (walk : shape -> M (list image_record))
  (children : list shape) : list image_record :=
  match children with
  | [] => []
  | child_shape :: rest =>
      match walk child_shape with
      | inr child_images => child_images ++ group_images walk rest
      | inl _ => []
      end
  end.

(** [extract_images_from_shape(shape, parent_info)] where the stack has
    room for [frames] nested calls. A call that does not fit raises
    [RecursionError]. The read of [shape_type] stands before the outer
    [try], so what it raises leaves the function; everything after it is
    inside a [try] whose handler is [pass]. *)
Fixpoint extract_images_from_shape (frames : nat) (s : shape)
  (parent_info : string) : M (list image_record) :=
  match frames with
  | O => raise RecursionError
  | S frames' =>
      st <- shape_type s ;;
      let debug_info :=
        (parent_info ++ " -> Shape type: " ++ str_shape_type st)%string in
      ret
        ((* Method 1: picture shapes *)
         (if shape_type_is st 13 then blob_images (image_blob s) debug_info
          else [])
         (* Method 2: picture fill *)
         ++ match fill s with
            | Some f =>
                if shape_type_is (fill_type f) 2
                then blob_images (fill_picture_blob f)
                       (debug_info ++ " (from fill)")%string
                else []
            | None => []
            end
         (* Method 3: placeholders *)
         ++ (if shape_type_is st 14
             then blob_images (image_blob s)
                    (debug_info ++ " (from placeholder)")%string
             else [])
         (* Method 4: group shapes *)
         ++ (if shape_type_is st 6
             then group_images
                    (fun child_shape =>
                       extract_images_from_shape frames' child_shape
                         (debug_info ++ " (group child)")%string)
                    (shapes s)
             else []))
  end.

(** [if t.strip(): slide_text.append(t.strip())] *)
Definition append_stripped (slide_text : list string) (t : string)
  : list string :=
  if String.eqb (strip t) "" then slide_text
  else slide_text ++ [strip t].

(** The body of [for shape in slide.shapes]. The walk is called outside
    any [try]: what it raises leaves the extractor. *)
Definition extract_shape (slide_number : nat)
  (acc : list string * list image_record) (s : shape)
  : M (list string * list image_record) :=
  let '(slide_text, slide_images) := acc in
  let slide_text1 :=
    match text s with
    | Some t => append_stripped slide_text t
    | None => slide_text
    end in
  let slide_text2 :=
    match table s with
    | Some rows =>
        fold_left (fun acc row => fold_left append_stripped row acc)
          rows slide_text1
    | None => slide_text1
    end in
  images <- extract_images_from_shape stack_room s
              ("Slide " ++ str_of_nat slide_number) ;;
  ret (slide_text2, slide_images ++ images).

(** The body of [for slide_number, slide in enumerate(slides, 1)]. *)
Definition extract_slide (slide_number : nat) (slide : list shape)
  : M slide_content :=
  acc <- fold_left
           (fun acc s => acc <- acc ;; extract_shape slide_number acc s)
           slide (ret ([], [])) ;;
  let '(slide_text, slide_images) := acc in
  ret {| slide_number := slide_number;
         text_content := join Difflib.newline slide_text;
         images := slide_images;
         image_count := List.length slide_images |}.

(** The loop over the slides, with [all_slides_content.append]. *)
Definition extract_slides (slides : list (list shape))
  : M (list slide_content) :=
  fold_left
    (fun acc '(slide_number, slide) =>
       acc <- acc ;;
       record <- extract_slide slide_number slide ;;
       ret (acc ++ [record]))
    (combine (seq 1 (List.length slides)) slides)
    (ret []).

Definition extract_content_from_pptx (file_content : list byte)
  : M (list slide_content) :=
  slides <- Presentation file_content ;;
  extract_slides slides.

Definition dquote : string := String "034"%char EmptyString.

Definition startswith (pre s : string) : bool :=
  String.eqb (substring 0 (String.length pre) s) pre.

Definition format_diff_line (line : string) : string :=
  if startswith "+ " line
  then ("<span class=" ++ dquote ++ "diff-added" ++ dquote ++ ">"
        ++ line ++ "</span>")%string
  else if startswith "- " line
  then ("<span class=" ++ dquote ++ "diff-removed" ++ dquote ++ ">"
        ++ line ++ "</span>")%string
  else line.


(** [{img["hash"]: img for img in images}] *)
Definition image_hashes (images : list image_record)
  : list (string * image_record) :=
  fold_left (fun d img => dict_set String.eqb d (img_hash img) img)
    images [].

(** [for h, img in d1.items(): if h not in d2: missing.append(img)] *)
Definition missing_from (d1 d2 : list (string * image_record))
  : list image_record :=
  flat_map
    (fun '(h, img) => if dict_mem String.eqb d2 h then [] else [img])
    d1.

Definition nonempty {A : Type} (l : list A) : bool :=
  match l with
  | [] => false
  | _ :: _ => true
  end.

(** The dict [slide_differences] at the end of one pass of the loop
    body of [compare_presentations]. *)
Definition compare_slide (slide1 slide2 : slide_content)
  : slide_differences :=
  let slide_num := slide_number slide1 in
  let content1 := text_content slide1 in
  let content2 := text_content slide2 in
  let images1 := images slide1 in
  let images2 := images slide2 in
  let text_differs := negb (String.eqb content1 content2) in
  let image_hashes1 := image_hashes images1 in
  let image_hashes2 := image_hashes images2 in
  let missing_in_ppt2 := missing_from image_hashes1 image_hashes2 in
  let missing_in_ppt1 := missing_from image_hashes2 image_hashes1 in
  let count_differs :=
    negb (List.length images1 =? List.length images2)%nat in
  let image_differs :=
    nonempty missing_in_ppt1 || nonempty missing_in_ppt2 || count_differs in
  {| sd_slide_number := slide_num;
     has_text_diff := text_differs;
     has_image_diff := image_differs;
     image_count1 := List.length images1;
     image_count2 := List.length images2;
     text_diff :=
       if text_differs
       then Some (Difflib.ndiff (splitlines content1) (splitlines content2))
       else None;
     ppt1_content := if text_differs then Some content1 else None;
     ppt2_content := if text_differs then Some content2 else None;
     image_count_different := if count_differs then Some true else None;
     images_missing_in_ppt1 :=
       if image_differs then Some missing_in_ppt1 else None;
     images_missing_in_ppt2 :=
       if image_differs then Some missing_in_ppt2 else None |}.

(** The end of the loop body: the counters, and [differences.append]
    or [identical_count += 1]. *)
Definition record_slide (st : loop_state)
  (slide_differences : slide_differences) : loop_state :=
  let text_diff_count' :=
    if has_text_diff slide_differences
    then S (text_diff_count st) else text_diff_count st in
  let image_diff_count' :=
    if has_image_diff slide_differences
    then S (image_diff_count st) else image_diff_count st in
  if has_text_diff slide_differences || has_image_diff slide_differences
  then {| ls_differences := ls_differences st ++ [slide_differences];
          identical_count := identical_count st;
          text_diff_count := text_diff_count';
          image_diff_count := image_diff_count' |}
  else {| ls_differences := ls_differences st;
          identical_count := S (identical_count st);
          text_diff_count := text_diff_count';
          image_diff_count := image_diff_count' |}.

(** One pass of [for i in range(min_slides)]. *)
Definition compare_step (slides1 slides2 : list slide_content)
  (st : M loop_state) (i : nat) : M loop_state :=
  st <- st ;;
  slide1 <- list_index slides1 i ;;
  slide2 <- list_index slides2 i ;;
  ret (record_slide st (compare_slide slide1 slide2)).

Definition initial_state : loop_state :=
  {| ls_differences := [];
     identical_count := 0;
     text_diff_count := 0;
     image_diff_count := 0 |}.

(** The loop over the common slides, from its initial state. *)
Definition compare_loop (slides1 slides2 : list slide_content)
  : M loop_state :=
  let min_slides := Nat.min (List.length slides1) (List.length slides2) in
  fold_left (compare_step slides1 slides2) (seq 0 min_slides)
    (ret initial_state).

(** The dict appended to [extra_slides] for slide [s]. *)
Definition as_extra (presentation : nat) (s : slide_content)
  : extra_slide :=
  {| ex_slide_number := slide_number s;
     in_presentation := presentation;
     ex_text_content := text_content s;
     ex_image_count := List.length (images s) |}.

(** [for i in range(min_slides, len(slides)): extra_slides.append(...)] *)
Definition extra_from (slides : list slide_content) (min_slides : nat)
  (presentation : nat) : M (list extra_slide) :=
  fold_left
    (fun acc i =>
       acc <- acc ;;
       s <- list_index slides i ;;
       ret (acc ++ [as_extra presentation s]))
    (seq min_slides (List.length slides - min_slides))
    (ret []).

(** The body of the [try] of [compare_presentations] once both decks
    are extracted. *)
Definition compare_decks (slides1 slides2 : list slide_content)
  : M comparison_result :=
  let len1 := List.length slides1 in
  let len2 := List.length slides2 in
  let slide_count_diff := negb (len1 =? len2)%nat in
  let min_slides := Nat.min len1 len2 in
  let slide_count_message :=
    if slide_count_diff
    then ("Presentations have different number of slides: "
          ++ str_of_nat len1 ++ " vs " ++ str_of_nat len2
          ++ ". Comparing the first " ++ str_of_nat min_slides
          ++ " slides.")%string
    else "" in
  st <- compare_loop slides1 slides2 ;;
  extra <- (if (len2 <? len1)%nat then extra_from slides1 min_slides 1
            else if (len1 <? len2)%nat then extra_from slides2 min_slides 2
            else ret []) ;;
  if negb (nonempty (ls_differences st)) && negb slide_count_diff
  then ret {| identical := true;
              summary :=
                ("All " ++ str_of_nat len1
                 ++ " slides have identical text and image content")%string;
              differences := [];
              detailed_summary := None;
              extra_slides := None;
              slide_count_different := None;
              slide_count_message := None;
              error_details := None;
              error := None |}
  else ret {| identical := false;
              summary :=
                ("Found differences in "
                 ++ str_of_nat (List.length (ls_differences st))
                 ++ " out of " ++ str_of_nat min_slides
                 ++ " compared slides ("
                 ++ str_of_nat (identical_count st)
                 ++ " slides identical)")%string;
              differences := ls_differences st;
              detailed_summary :=
                Some ("Text differences: "
                      ++ str_of_nat (text_diff_count st)
                      ++ " slides, Image differences: "
                      ++ str_of_nat (image_diff_count st)
                      ++ " slides")%string;
              extra_slides := Some extra;
              slide_count_different := Some slide_count_diff;
              slide_count_message :=
                Some (if slide_count_diff then slide_count_message else "");
              error_details := None;
              error := None |}.

(** The [except Exception as e] clause. *)
Definition error_result (e : pyexn) : comparison_result :=
  {| identical := false;
     summary := ("Error comparing presentations: " ++ exn_msg e)%string;
     differences := [];
     detailed_summary := None;
     extra_slides := None;
     slide_count_different := None;
     slide_count_message := None;
     error_details := Some (format_exc e);
     error := Some true |}.

(** The [try] block of [compare_presentations]. *)
Definition compare_body (file1_content file2_content : list byte)
  : M comparison_result :=
  slides1 <- extract_content_from_pptx file1_content ;;
  slides2 <- extract_content_from_pptx file2_content ;;
  compare_decks slides1 slides2.

Definition compare_presentations (file1_content file2_content : list byte)
  : comparison_result :=
  match compare_body file1_content file2_content with
  | inr result => result
  | inl e => error_result e
  end.


(** ** The report page *)

(** The expressions of the display code that compute text from a diff
    entry; the rest of the page is calls into the web framework. *)

Definition KeyError (key : string) : pyexn :=
  {| exn_type := "KeyError";
     exn_msg := ("'" ++ key ++ "'")%string;
     exn_frames := "" |}.

(** [diff_data[key]] for a key that may be absent. *)
Definition dict_item {A : Type} (key : string) (v : option A) : M A :=
  match v with
  | Some x => ret x
  | None => raise (KeyError key)
  end.

(** [diff_types], filled by the two [if diff_data.get(...)] tests. *)
Definition diff_types (diff_data : slide_differences) : list string :=
  (if has_text_diff diff_data then ["Text"] else [])
  ++ (if has_image_diff diff_data then ["Images"] else []).

(** [diff_type_str = " & ".join(diff_types)] *)
Definition diff_type_str (diff_data : slide_differences) : string :=
  join " & " (diff_types diff_data).

(** ["<br>".join([format_diff_line(line) for line in
    diff_data["text_diff"]])] *)
Definition formatted_diff (diff_data : slide_differences) : M string :=
  delta <- dict_item "text_diff" (text_diff diff_data) ;;
  ret (join "<br>" (map format_diff_line delta)).

(** The texts shown in the two columns under [if has_text_diff]:
    [diff_data["ppt1_content"]], [diff_data["ppt2_content"]] and
    [formatted_diff]. *)
Definition text_panel (diff_data : slide_differences)
  : M (string * string * string) :=
  content1 <- dict_item "ppt1_content" (ppt1_content diff_data) ;;
  content2 <- dict_item "ppt2_content" (ppt2_content diff_data) ;;
  formatted <- formatted_diff diff_data ;;
  ret (content1, content2, formatted).

(* ================================================================== *)
(** * Notions used in the statements *)
(* ================================================================== *)

(** The loop over the common slides as a fold over the paired slides. *)
Definition loop_from (st : loop_state)
  (pairs : list (slide_content * slide_content)) : loop_state :=
  fold_left (fun st p => record_slide st (compare_slide (fst p) (snd p)))
    pairs st.

(** A pair of slides for which the loop appends a diff entry. *)
Definition slide_differs (d : slide_differences) : bool :=
  has_text_diff d || has_image_diff d.

(** The extra slides of the comparison: the tail of the longer deck. *)
Definition extra_of (A B : list slide_content) : list extra_slide :=
  let m := Nat.min (List.length A) (List.length B) in
  if (List.length B <? List.length A)%nat
  then map (as_extra 1) (skipn m A)
  else if (List.length A <? List.length B)%nat
  then map (as_extra 2) (skipn m B)
  else [].

(** The walk with a depth cap, as the specification words it: the
    children of a shape [cap] groups deep are not visited. *)
Fixpoint truncate_depth (cap : nat) (s : shape) {struct s} : shape :=
  match s with
  | Shape st image_blob fill children t tb =>
      Shape st image_blob fill
        (match cap with
         | O => []
         | S c => map (truncate_depth c) children
         end)
        t tb
  end.

(** A string of whitespace only. *)
Definition blank (s : string) : bool :=
  forallb isspace (list_ascii_of_string s).

(** Two strings that differ by leading and trailing whitespace only. *)
Inductive padded : string -> string -> Prop :=
| padded_intro (l1 r1 l2 r2 core : string) :
    blank l1 = true -> blank r1 = true ->
    blank l2 = true -> blank r2 = true ->
    padded (l1 ++ core ++ r1)%string (l2 ++ core ++ r2)%string.

(** The texts a shape carries, in the order the extractor reads them:
    its own text, then the cells of its table row by row. *)
Definition shape_texts (s : shape) : list string :=
  match text s with
  | Some t => [t]
  | None => []
  end
  ++ match table s with
     | Some rows => List.concat rows
     | None => []
     end.

(** Two sequences of texts that differ only by padding and by texts of
    whitespace only, present on either side. *)
Inductive same_visible_text : list string -> list string -> Prop :=
| svt_nil : same_visible_text [] []
| svt_blank_l (t : string) (l1 l2 : list string) :
    blank t = true -> same_visible_text l1 l2 ->
    same_visible_text (t :: l1) l2
| svt_blank_r (t : string) (l1 l2 : list string) :
    blank t = true -> same_visible_text l1 l2 ->
    same_visible_text l1 (t :: l2)
| svt_padded (t1 t2 : string) (l1 l2 : list string) :
    padded t1 t2 -> same_visible_text l1 l2 ->
    same_visible_text (t1 :: l1) (t2 :: l2).

(** The lines a sequence of texts contributes: each text trimmed, the
    empty ones dropped. *)
Definition visible_lines (texts : list string) : list string :=
  filter (fun t => negb (String.eqb t "")) (map strip texts).

(** A delta entry that starts with the two-character [mark]. *)
Definition marked (mark line : string) : bool :=
  String.eqb (substring 0 2 line) mark.

(** The delta without its entries marked [mark]. *)
Definition without_marked (mark : string) (delta : list string)
  : list string :=
  filter (fun line => negb (marked mark line)) delta.

(** A delta entry without its mark. *)
Definition unmark (line : string) : string :=
  substring 2 (String.length line - 2) line.

(** Two slides with the same text, as many images, and the same set of
    image hashes. *)
Definition same_slide (X Y : slide_content) : Prop :=
  text_content X = text_content Y
  /\ List.length (images X) = List.length (images Y)
  /\ (forall h, In h (map img_hash (images X))
                <-> In h (map img_hash (images Y))).

(** Entry [d'] reads as entry [d] with the two presentations swapped. *)
Definition mirrored (d d' : slide_differences) : Prop :=
  has_text_diff d = has_text_diff d'
  /\ has_image_diff d = has_image_diff d'
  /\ image_count1 d = image_count2 d'
  /\ image_count2 d = image_count1 d'
  /\ ppt1_content d = ppt2_content d'
  /\ ppt2_content d = ppt1_content d'
  /\ image_count_different d = image_count_different d'
  /\ images_missing_in_ppt1 d = images_missing_in_ppt2 d'
  /\ images_missing_in_ppt2 d = images_missing_in_ppt1 d'.

(** The keys of a diff entry are present exactly when its flags say so,
    and its counts are the two image counts. *)
Definition entry_ok (d : slide_differences) : Prop :=
  (has_text_diff d = true \/ has_image_diff d = true)
  /\ (if has_text_diff d
      then text_diff d <> None /\ ppt1_content d <> None
           /\ ppt2_content d <> None
      else text_diff d = None /\ ppt1_content d = None
           /\ ppt2_content d = None)
  /\ (if has_image_diff d
      then images_missing_in_ppt1 d <> None
           /\ images_missing_in_ppt2 d <> None
      else images_missing_in_ppt1 d = None
           /\ images_missing_in_ppt2 d = None)
  /\ image_count_different d
     = (if (image_count1 d =? image_count2 d)%nat then None else Some true).

(** Shape [s] is [root], or lies below it through shapes of type group
    only. *)
Inductive under : shape -> shape -> Prop :=
| under_self (s : shape) : under s s
| under_child (root child s : shape) :
    shape_type root = ret (Some 6) -> In child (shapes root) ->
    under child s ->
    under root s.

(** An image payload that shape [s] holds where the walk reads one: its
    own image when its type is 13 (picture) or 14 (placeholder), or what
    is read from its fill when the fill's type is 2. *)
Definition own_blob (s : shape) (b : blob) : Prop :=
  ((shape_type s = ret (Some 13) \/ shape_type s = ret (Some 14))
   /\ image_blob s = Some b)
  \/ (exists f, fill s = Some f /\ fill_type f = Some 2
                /\ fill_picture_blob f = Some b).

(** A shape whose type can be read. *)
Definition readable (s : shape) : Prop :=
  exists st, shape_type s = ret st.

(** The walk from [root] with room for [frames] nested calls gets to
    [s]: the type of [s] can be read, every shape above it is a group
    within the stack's room, and in each of these groups the children
    before the one that leads to [s] can be read. *)
Inductive reached : nat -> shape -> shape -> Prop :=
| reached_self (frames : nat) (s : shape) :
    readable s -> reached (S frames) s s
| reached_child (frames : nat) (root child s : shape)
    (before after : list shape) :
    shape_type root = ret (Some 6) ->
    shapes root = before ++ child :: after ->
    Forall readable before ->
    reached frames child s ->
    reached (S frames) root s.

(** The longest chain of shapes from [s] down to a leaf. *)
Fixpoint depth (s : shape) : nat :=
  match s with
  | Shape _ _ _ children _ _ => S (list_max (map depth children))
  end.

(** The results of [f] on the elements of [l] in order, or the first
    exception. *)
Fixpoint mapM {X Y : Type} (f : X -> M Y) (l : list X) : M (list Y) :=
  match l with
  | [] => ret []
  | x :: l' => y <- f x ;; ys <- mapM f l' ;; ret (y :: ys)
  end.

(** The hashes of the images that a walk returns. *)
Definition hashes_of (m : M (list image_record)) : M (list string) :=
  match m with
  | inl e => inl e
  | inr l => inr (map img_hash l)
  end.

(** The exception of the first shape of [l] whose type cannot be
    read. *)
Fixpoint first_unreadable (l : list shape) : option pyexn :=
  match l with
  | [] => None
  | s :: l' =>
      match shape_type s with
      | inl e => Some e
      | inr _ => first_unreadable l'
      end
  end.

(** Why the extraction of a payload fails, if it does while the stack
    has room: the parser's exception, or that of the first top-level
    shape, in document order, whose type cannot be read. *)
Definition extraction_failure (file_content : list byte) : option pyexn :=
  match Presentation file_content with
  | inl e => Some e
  | inr slides => first_unreadable (List.concat slides)
  end.

(** A string that neither starts nor ends with whitespace. *)
Definition trimmed (s : string) : Prop := strip s = s.

(** What the dict [image_hashes] holds once the images [done] are in:
    one entry per distinct hash, each under the hash of its record, the
    record being the last of [done] with that hash. *)
Definition hashes_inv (done : list image_record)
  (d : list (string * image_record)) : Prop :=
  NoDup (map fst d)
  /\ (forall h, In h (map fst d) <-> In h (map img_hash done))
  /\ (forall h r, In (h, r) d ->
        h = img_hash r
        /\ exists l1 l2, done = l1 ++ r :: l2
                         /\ ~ In h (map img_hash l2)).

(** The four marks of a delta entry. *)
Definition delta_marks : list string := ["  "; "- "; "+ "; "? "].

(* ================================================================== *)
(** * Properties of the comparator *)
(* ================================================================== *)

(** ** The loops never index out of range *)

Lemma compare_step_shift (a b : slide_content) (A B : list slide_content)
  (l : list nat) (st : M loop_state) :
  fold_left (compare_step (a :: A) (b :: B)) (map S l) st
  = fold_left (compare_step A B) l st.
Proof.
  revert st. induction l as [|i l IH]; intros st; simpl; [reflexivity|].
  rewrite IH. reflexivity.
Qed.

Lemma compare_loop_from (A B : list slide_content) (st : loop_state) :
  fold_left (compare_step A B)
    (seq 0 (Nat.min (List.length A) (List.length B))) (ret st)
  = ret (loop_from st (combine A B)).
Proof.
  revert B st. induction A as [|a A IH]; intros [|b B] st;
    try reflexivity.
  simpl List.length. rewrite <- Nat.succ_min_distr.
  rewrite <- cons_seq, <- seq_shift. simpl fold_left at 1.
  rewrite compare_step_shift.
  change (compare_step (a :: A) (b :: B) (ret st) 0%nat)
    with (ret (A := loop_state) (record_slide st (compare_slide a b))).
  rewrite IH. reflexivity.
Qed.

Lemma compare_loop_ret (A B : list slide_content) :
  compare_loop A B = ret (loop_from initial_state (combine A B)).
Proof. apply compare_loop_from. Qed.

Lemma nth_error_skipn_cons {T : Type} (l : list T) (k : nat) (x : T) :
  nth_error l k = Some x -> skipn k l = x :: skipn (S k) l.
Proof.
  revert k. induction l as [|y l IH]; intros [|k] H; simpl in *;
    try discriminate.
  - now inversion H.
  - now apply IH.
Qed.

Lemma extra_from_acc (slides : list slide_content) (presentation n k : nat)
  (acc : list extra_slide) :
  (k + n = List.length slides)%nat ->
  fold_left
    (fun acc i =>
       acc <- acc ;;
       s <- list_index slides i ;;
       ret (acc ++ [as_extra presentation s]))
    (seq k n) (ret acc)
  = ret (acc ++ map (as_extra presentation) (skipn k slides)).
Proof.
  revert k acc. induction n as [|n IH]; intros k acc H.
  - simpl. rewrite skipn_all2 by lia. now rewrite app_nil_r.
  - destruct (nth_error slides k) as [x|] eqn:E.
    2:{ apply nth_error_None in E. lia. }
    cbn [seq fold_left].
    replace (acc0 <- ret acc ;; s <- list_index slides k ;;
             ret (acc0 ++ [as_extra presentation s]))
      with (ret (A := list extra_slide) (acc ++ [as_extra presentation x]))
      by (unfold list_index; rewrite E; reflexivity).
    rewrite IH by lia. rewrite (nth_error_skipn_cons _ _ _ E).
    simpl. now rewrite <- app_assoc.
Qed.

Lemma extra_from_ret (slides : list slide_content)
  (min_slides presentation : nat) :
  (min_slides <= List.length slides)%nat ->
  extra_from slides min_slides presentation
  = ret (map (as_extra presentation) (skipn min_slides slides)).
Proof.
  intros H. unfold extra_from. rewrite extra_from_acc by lia. reflexivity.
Qed.

Lemma compare_decks_extra (A B : list slide_content) :
  (if (List.length B <? List.length A)%nat
   then extra_from A (Nat.min (List.length A) (List.length B)) 1
   else if (List.length A <? List.length B)%nat
   then extra_from B (Nat.min (List.length A) (List.length B)) 2
   else ret [])
  = ret (extra_of A B).
Proof.
  unfold extra_of.
  destruct (List.length B <? List.length A)%nat.
  - apply extra_from_ret. lia.
  - destruct (List.length A <? List.length B)%nat; [|reflexivity].
    apply extra_from_ret. lia.
Qed.

(** ** What the loop computes *)

Lemma loop_from_differences (pairs : list (slide_content * slide_content))
  (st : loop_state) :
  ls_differences (loop_from st pairs)
  = ls_differences st
    ++ filter slide_differs
         (map (fun p => compare_slide (fst p) (snd p)) pairs).
Proof.
  revert st. induction pairs as [|p pairs IH]; intros st; simpl.
  - now rewrite app_nil_r.
  - unfold loop_from in *. rewrite IH. unfold record_slide, slide_differs.
    destruct (has_text_diff _ || has_image_diff _); simpl.
    + now rewrite <- app_assoc.
    + reflexivity.
Qed.

Lemma loop_from_identical_count
  (pairs : list (slide_content * slide_content)) (st : loop_state) :
  (identical_count (loop_from st pairs)
   + List.length (ls_differences (loop_from st pairs))
   = identical_count st + List.length (ls_differences st)
     + List.length pairs)%nat.
Proof.
  revert st. induction pairs as [|p pairs IH]; intros st; simpl.
  - lia.
  - unfold loop_from in *. rewrite IH. unfold record_slide.
    destruct (has_text_diff _ || has_image_diff _); simpl;
      rewrite ?length_app; simpl; lia.
Qed.

(** ** A slide compared with itself *)

Lemma dict_get_in {V : Type} (d : list (string * V)) (k : string) (v : V) :
  In (k, v) d -> dict_mem String.eqb d k = true.
Proof.
  unfold dict_mem. induction d as [|[k' v'] d IH]; simpl; intros H.
  - contradiction.
  - destruct (String.eqb k' k) eqn:E; [reflexivity|].
    destruct H as [H|H].
    + inversion H; subst. now rewrite String.eqb_refl in E.
    + now apply IH.
Qed.

Lemma missing_from_self (d : list (string * image_record)) :
  missing_from d d = [].
Proof.
  unfold missing_from.
  assert (G : forall l, incl l d ->
    flat_map (fun '(h, img) =>
                if dict_mem String.eqb d h then [] else [img]) l = []).
  { induction l as [|[h img] l IH]; intros Hl; simpl; [reflexivity|].
    rewrite (dict_get_in d h img) by (apply Hl; now left).
    apply IH. intros x Hx. apply Hl. now right. }
  apply G, incl_refl.
Qed.

Lemma compare_slide_self (s : slide_content) :
  slide_differs (compare_slide s s) = false.
Proof.
  unfold slide_differs, compare_slide; simpl.
  rewrite String.eqb_refl, missing_from_self, Nat.eqb_refl. reflexivity.
Qed.

Lemma loop_from_self (A : list slide_content) (st : loop_state) :
  loop_from st (combine A A)
  = {| ls_differences := ls_differences st;
       identical_count := identical_count st + List.length A;
       text_diff_count := text_diff_count st;
       image_diff_count := image_diff_count st |}.
Proof.
  revert st. induction A as [|s A IH]; intros st; simpl.
  - rewrite Nat.add_0_r. now destruct st.
  - unfold loop_from in *. simpl. rewrite IH.
    pose proof (compare_slide_self s) as H. unfold slide_differs in H.
    unfold record_slide. rewrite H.
    apply orb_false_elim in H. destruct H as [-> ->]. simpl.
    f_equal. lia.
Qed.

(** C1. Comparing a deck with itself: the loop ends with no diff entry
    and [identical_count = len(A)], and the result is the identical one,
    with [identical = True], no differences, and [len(A)] in its summary. *)
Theorem compare_reflexive (A : list slide_content) :
  compare_loop A A
  = ret {| ls_differences := [];
           identical_count := List.length A;
           text_diff_count := 0;
           image_diff_count := 0 |}
  /\ compare_decks A A
     = ret {| identical := true;
              summary :=
                ("All " ++ str_of_nat (List.length A)
                 ++ " slides have identical text and image content")%string;
              differences := [];
              detailed_summary := None;
              extra_slides := None;
              slide_count_different := None;
              slide_count_message := None;
              error_details := None;
              error := None |}.
Proof.
  assert (L : compare_loop A A
              = ret {| ls_differences := [];
                       identical_count := List.length A;
                       text_diff_count := 0;
                       image_diff_count := 0 |}).
  { rewrite compare_loop_ret, loop_from_self. reflexivity. }
  split; [exact L|].
  unfold compare_decks. rewrite L. simpl bind.
  rewrite Nat.ltb_irrefl, Nat.eqb_refl. reflexivity.
Qed.

(** C2. The result is the identical one exactly when the loop produced
    no diff entry and the decks have the same length; the entries are
    those of the paired slides that differ; two empty decks are
    identical. *)
Theorem identical_iff_no_diff_and_same_length :
  (forall A B : list slide_content,
      exists st r,
        compare_loop A B = ret st
        /\ compare_decks A B = ret r
        /\ ls_differences st
           = filter slide_differs
               (map (fun p => compare_slide (fst p) (snd p)) (combine A B))
        /\ (identical r = true
            <-> ls_differences st = [] /\ List.length A = List.length B))
  /\ (exists r, compare_decks [] [] = ret r /\ identical r = true).
Proof.
  split.
  - intros A B.
    exists (loop_from initial_state (combine A B)).
    unfold compare_decks. rewrite compare_loop_ret. simpl bind at 1.
    rewrite compare_decks_extra. simpl bind.
    rewrite loop_from_differences. simpl app.
    set (ds := filter slide_differs _).
    destruct ds as [|d ds'] eqn:Eds; simpl nonempty; simpl negb;
      destruct (Nat.eqb_spec (List.length A) (List.length B)) as [E|E];
      simpl; eexists; (split; [reflexivity|]);
      (split; [reflexivity|]); (split; [reflexivity|]); simpl;
      split; intros H; try discriminate; try tauto;
      destruct H as [H1 H2]; congruence.
  - eexists. split; [reflexivity|reflexivity].
Qed.

(** ** Extra slides *)

Lemma fold_raise {S X : Type} (step : S -> X -> M S) (l : list X)
  (e : pyexn) :
  fold_left (fun acc x => acc <- acc ;; step acc x) l (raise e) = raise e.
Proof. induction l as [|x l IH]; simpl; [reflexivity|exact IH]. Qed.

Lemma bind_ret {A B : Type} (x : A) (k : A -> M B) : bind (ret x) k = k x.
Proof. reflexivity. Qed.

Lemma mapM_Forall2 {X Y : Type} (f : X -> M Y) (l : list X) (ys : list Y) :
  mapM f l = ret ys <-> Forall2 (fun x y => f x = ret y) l ys.
Proof.
  revert ys. induction l as [|x l IH]; intros ys; cbn [mapM].
  - split.
    + intros H. injection H as <-. constructor.
    + intros H. inversion H. reflexivity.
  - split.
    + destruct (f x) as [e|y] eqn:E; [discriminate|]. cbn [bind].
      destruct (mapM f l) as [e|ys'] eqn:E'; [discriminate|]. cbn [bind].
      intros H. injection H as <-. constructor; [exact E|].
      now apply IH.
    + intros H. inversion H as [|x' y l' ys' Hy Hl]; subst.
      rewrite Hy. cbn [bind]. apply IH in Hl. rewrite Hl. reflexivity.
Qed.

Lemma mapM_length {X Y : Type} (f : X -> M Y) (l : list X) (ys : list Y) :
  mapM f l = ret ys -> List.length ys = List.length l.
Proof.
  intros H. apply mapM_Forall2 in H. symmetry.
  eapply Forall2_length. exact H.
Qed.

Lemma mapM_raise {X Y : Type} (f : X -> M Y) (l : list X) (e : pyexn) :
  mapM f l = raise e <->
  exists before x after,
    l = before ++ x :: after
    /\ (exists ys, mapM f before = ret ys)
    /\ f x = raise e.
Proof.
  induction l as [|x l IH]; cbn [mapM].
  - split; [discriminate|]. intros (before & x & after & H & _).
    destruct before; discriminate.
  - split.
    + destruct (f x) as [e'|y] eqn:E; cbn [bind].
      * intros H. injection H as ->.
        exists [], x, l. split; [reflexivity|].
        split; [now exists []|exact E].
      * destruct (mapM f l) as [e'|ys] eqn:E'; [|discriminate].
        cbn [bind]. intros H. injection H as ->.
        destruct (proj1 IH eq_refl)
          as (before & x' & after & -> & [ys Hb] & Hx).
        exists (x :: before), x', after. split; [reflexivity|].
        split; [|exact Hx]. exists (y :: ys). cbn [mapM].
        now rewrite E, Hb.
    + intros (before & x' & after & Hl & [ys Hb] & Hx).
      destruct before as [|b before]; cbn [app] in Hl;
        injection Hl as Hh Ht; subst.
      * now rewrite Hx.
      * cbn [mapM] in Hb. destruct (f b) as [e'|y]; [discriminate|].
        cbn [bind] in *.
        destruct (mapM f before) as [e'|ys'] eqn:E'; [discriminate|].
        assert (H : mapM f (before ++ x' :: after) = raise e).
        { apply IH. exists before, x', after. split; [reflexivity|].
          split; [now exists ys'|exact Hx]. }
        now rewrite H.
Qed.

Lemma mapM_app {X Y : Type} (f : X -> M Y) (l1 l2 : list X) :
  mapM f (l1 ++ l2)
  = (ys1 <- mapM f l1 ;; ys2 <- mapM f l2 ;; ret (ys1 ++ ys2)).
Proof.
  induction l1 as [|x l1 IH]; cbn [app mapM].
  - cbn [bind]. destruct (mapM f l2); reflexivity.
  - destruct (f x) as [e|y]; cbn [bind]; [reflexivity|].
    rewrite IH. destruct (mapM f l1) as [e|ys1]; cbn [bind]; [reflexivity|].
    destruct (mapM f l2); reflexivity.
Qed.

Lemma extract_slides_from (pairs : list (nat * list shape))
  (acc : list slide_content) :
  fold_left
    (fun acc '(slide_number, slide) =>
       acc <- acc ;;
       record <- extract_slide slide_number slide ;;
       ret (acc ++ [record]))
    pairs (ret acc)
  = (records <- mapM (fun '(slide_number, slide) =>
                        extract_slide slide_number slide) pairs ;;
     ret (acc ++ records)).
Proof.
  revert acc. induction pairs as [|[n slide] pairs IH]; intros acc.
  - simpl. now rewrite app_nil_r.
  - cbn [fold_left mapM].
    destruct (extract_slide n slide) as [e|record] eqn:E; simpl.
    + clear IH. induction pairs as [|[n' slide'] pairs IHp];
        [reflexivity|exact IHp].
    + rewrite (IH (acc ++ [record])).
      destruct (mapM _ pairs) as [e|records]; simpl; [reflexivity|].
      now rewrite <- app_assoc.
Qed.

Lemma extract_slides_mapM (slides : list (list shape)) :
  extract_slides slides
  = mapM (fun '(slide_number, slide) => extract_slide slide_number slide)
      (combine (seq 1 (List.length slides)) slides).
Proof.
  unfold extract_slides. rewrite extract_slides_from.
  destruct (mapM _ _); reflexivity.
Qed.

Lemma extract_slide_number (n : nat) (slide : list shape)
  (record : slide_content) :
  extract_slide n slide = ret record -> slide_number record = n.
Proof.
  unfold extract_slide.
  destruct (fold_left _ slide _) as [e|[txt imgs]]; cbn [bind];
    [discriminate|].
  intros H. injection H as <-. reflexivity.
Qed.

Lemma slide_numbers_from (k : nat) (slides : list (list shape))
  (deck : list slide_content) :
  mapM (fun '(slide_number, slide) => extract_slide slide_number slide)
    (combine (seq k (List.length slides)) slides) = ret deck ->
  map slide_number deck = seq k (List.length slides).
Proof.
  revert k deck. induction slides as [|x slides IH]; intros k deck;
    cbn [List.length seq combine mapM].
  - intros H. injection H as <-. reflexivity.
  - destruct (extract_slide k x) as [e|record] eqn:E; [discriminate|].
    cbn [bind]. destruct (mapM _ _) as [e|records] eqn:E'; [discriminate|].
    cbn [bind]. intros H. injection H as <-. cbn [map].
    now rewrite (extract_slide_number _ _ _ E), (IH _ _ E').
Qed.

Lemma extract_slides_numbers (slides : list (list shape))
  (deck : list slide_content) :
  extract_slides slides = ret deck ->
  map slide_number deck = seq 1 (List.length slides).
Proof. rewrite extract_slides_mapM. apply slide_numbers_from. Qed.

Lemma extract_slides_length (slides : list (list shape))
  (deck : list slide_content) :
  extract_slides slides = ret deck ->
  List.length deck = List.length slides.
Proof.
  intros H. rewrite <- (length_map slide_number).
  rewrite (extract_slides_numbers _ _ H). apply length_seq.
Qed.

Lemma as_extra_numbers (owner : nat) (l : list slide_content) :
  map ex_slide_number (map (as_extra owner) l) = map slide_number l.
Proof. rewrite map_map. reflexivity. Qed.

(** C3. Decks of different lengths, as the extractor returns them: the
    result records the mismatch, and its extra slides are the tail of the
    longer deck, one entry per slide beyond the common prefix, tagged
    with that deck and numbered [min + 1 .. max]. The tail is a function
    of the longer deck alone. *)
Theorem extra_slides_of_longer_deck (p1 p2 : list (list shape))
  (A B : list slide_content) :
  extract_slides p1 = ret A ->
  extract_slides p2 = ret B ->
  List.length p1 <> List.length p2 ->
  let lo := Nat.min (List.length A) (List.length B) in
  let hi := Nat.max (List.length A) (List.length B) in
  let owner := if (List.length B <? List.length A)%nat then 1%nat else 2%nat in
  exists r extra,
    compare_decks A B = ret r
    /\ identical r = false
    /\ slide_count_different r = Some true
    /\ extra_slides r = Some extra
    /\ Z.of_nat (List.length extra)
       = Z.abs (Z.of_nat (List.length A) - Z.of_nat (List.length B))
    /\ map ex_slide_number extra = seq (lo + 1) (hi - lo)
    /\ Forall (fun e => in_presentation e = owner) extra
    /\ extra = map (as_extra owner)
                 (skipn lo (if (List.length B <? List.length A)%nat
                            then A else B)).
Proof.
  intros EA EB Hne lo hi owner.
  assert (HA : List.length A = List.length p1)
    by now apply extract_slides_length.
  assert (HB : List.length B = List.length p2)
    by now apply extract_slides_length.
  assert (Hn : (List.length A =? List.length B)%nat = false)
    by (apply Nat.eqb_neq; lia).
  assert (Hextra : extra_of A B
                   = map (as_extra owner)
                       (skipn lo (if (List.length B <? List.length A)%nat
                                  then A else B))).
  { unfold extra_of, owner, lo.
    destruct (Nat.ltb_spec (List.length B) (List.length A)); [reflexivity|].
    destruct (Nat.ltb_spec (List.length A) (List.length B)); [reflexivity|].
    lia. }
  unfold compare_decks. rewrite compare_loop_ret. simpl bind at 1.
  rewrite compare_decks_extra. simpl bind. rewrite Hn.
  rewrite andb_false_r.
  eexists. exists (extra_of A B).
  split; [reflexivity|]. simpl.
  repeat split; try reflexivity.
  - rewrite Hextra, length_map, length_skipn. unfold lo.
    destruct (Nat.ltb_spec (List.length B) (List.length A)); lia.
  - rewrite Hextra, as_extra_numbers, <- skipn_map. unfold lo, hi.
    destruct (Nat.ltb_spec (List.length B) (List.length A)) as [H|H].
    + replace (map slide_number A) with (seq 1 (List.length p1))
        by (symmetry; now apply extract_slides_numbers).
      rewrite skipn_seq. f_equal; lia.
    + replace (map slide_number B) with (seq 1 (List.length p2))
        by (symmetry; now apply extract_slides_numbers).
      rewrite skipn_seq. f_equal; lia.
  - rewrite Hextra. apply Forall_forall. intros e He.
    apply in_map_iff in He. destruct He as [x [<- _]]. reflexivity.
  - exact Hextra.
Qed.

(** ** Image differences *)

Lemma in_combine_nth_error {T U : Type} (A : list T) (B : list U) (i : nat)
  (x : T) (y : U) :
  nth_error A i = Some x -> nth_error B i = Some y -> In (x, y) (combine A B).
Proof.
  revert B i. induction A as [|a A IH]; intros [|b B] [|i] HA HB;
    simpl in *; try discriminate.
  - inversion HA; inversion HB; subst. now left.
  - right. eapply IH; eassumption.
Qed.

(** C5. A slide pair whose image counts differ sets
    [image_count_different], has an image diff and produces a diff entry,
    whatever the two lists of unmatched images are. *)
Theorem image_count_mismatch_reported (A B : list slide_content) (i : nat)
  (slide1 slide2 : slide_content) :
  nth_error A i = Some slide1 ->
  nth_error B i = Some slide2 ->
  List.length (images slide1) <> List.length (images slide2) ->
  exists r,
    compare_decks A B = ret r
    /\ identical r = false
    /\ In (compare_slide slide1 slide2) (differences r)
    /\ image_count_different (compare_slide slide1 slide2) = Some true
    /\ has_image_diff (compare_slide slide1 slide2) = true
    /\ images_missing_in_ppt1 (compare_slide slide1 slide2)
       = Some (missing_from (image_hashes (images slide2))
                 (image_hashes (images slide1)))
    /\ images_missing_in_ppt2 (compare_slide slide1 slide2)
       = Some (missing_from (image_hashes (images slide1))
                 (image_hashes (images slide2))).
Proof.
  intros H1 H2 Hne.
  assert (Hc : (List.length (images slide1) =? List.length (images slide2))%nat
               = false) by now apply Nat.eqb_neq.
  assert (Hd : has_image_diff (compare_slide slide1 slide2) = true).
  { unfold compare_slide; simpl. rewrite Hc. simpl. apply orb_true_r. }
  assert (Hin : In (compare_slide slide1 slide2)
                  (ls_differences (loop_from initial_state (combine A B)))).
  { rewrite loop_from_differences. simpl. apply filter_In. split.
    - apply in_map_iff. exists (slide1, slide2). split; [reflexivity|].
      eapply in_combine_nth_error; eassumption.
    - unfold slide_differs. rewrite Hd. apply orb_true_r. }
  unfold compare_decks. rewrite compare_loop_ret. simpl bind at 1.
  rewrite compare_decks_extra. simpl bind.
  destruct (ls_differences (loop_from initial_state (combine A B)))
    as [|d ds] eqn:E; [contradiction|].
  simpl. eexists. split; [reflexivity|]. simpl.
  repeat split; try assumption.
  - unfold compare_slide; simpl. now rewrite Hc.
  - unfold compare_slide in *; simpl in *. now rewrite Hd.
  - unfold compare_slide in *; simpl in *. now rewrite Hd.
Qed.

(** C6. The images reported as only in the first slide when comparing
    [(X, Y)] are those reported as only in the second slide when
    comparing [(Y, X)], as sequences, and the other way round. *)
Theorem image_difference_swaps (X Y : slide_content) :
  images_missing_in_ppt2 (compare_slide X Y)
  = images_missing_in_ppt1 (compare_slide Y X)
  /\ images_missing_in_ppt1 (compare_slide X Y)
     = images_missing_in_ppt2 (compare_slide Y X).
Proof.
  unfold compare_slide; simpl.
  rewrite (Nat.eqb_sym (List.length (images Y))).
  rewrite (orb_comm (nonempty (missing_from (image_hashes (images X))
                                 (image_hashes (images Y))))).
  split; reflexivity.
Qed.

(** ** The error boundary *)

Lemma compare_decks_returns (A B : list slide_content) :
  exists r, compare_decks A B = ret r.
Proof.
  unfold compare_decks. rewrite compare_loop_ret. simpl bind at 1.
  rewrite compare_decks_extra. simpl bind.
  destruct (_ && _); eexists; reflexivity.
Qed.

Lemma compare_body_raises (file1_content file2_content : list byte)
  (e : pyexn) :
  compare_body file1_content file2_content = raise e
  <-> Presentation file1_content = raise e
      \/ (exists slides,
             Presentation file1_content = ret slides
             /\ extract_slides slides = raise e)
      \/ (exists slides A,
             Presentation file1_content = ret slides
             /\ extract_slides slides = ret A
             /\ Presentation file2_content = raise e)
      \/ (exists slides A slides',
             Presentation file1_content = ret slides
             /\ extract_slides slides = ret A
             /\ Presentation file2_content = ret slides'
             /\ extract_slides slides' = raise e).
Proof.
  unfold compare_body, extract_content_from_pptx, raise, ret.
  destruct (Presentation file1_content) as [e1|s1]; cbn [bind].
  { split.
    - intros H. left. congruence.
    - intros [H|[(s & H & _)|[(s & A & H & _)|(s & A & s' & H & _)]]];
        congruence. }
  destruct (extract_slides s1) as [e1|A] eqn:E1; cbn [bind].
  { split.
    - intros H. right. left. exists s1. split; congruence.
    - intros [H|[(s & H & H')|[(s & A & H & H' & _)
                                |(s & A & s' & H & H' & _)]]];
        congruence. }
  destruct (Presentation file2_content) as [e2|s2]; cbn [bind].
  { split.
    - intros H. right. right. left. exists s1, A.
      repeat split; congruence.
    - intros [H|[(s & H & H')|[(s & A' & H & H' & H'')
                                |(s & A' & s' & H & H' & H'' & _)]]];
        congruence. }
  destruct (extract_slides s2) as [e2|B] eqn:E2; cbn [bind].
  { split.
    - intros H. right. right. right. exists s1, A, s2.
      repeat split; congruence.
    - intros [H|[(s & H & H')|[(s & A' & H & H' & H'')
                                |(s & A' & s' & H & H' & H'' & H3)]]];
        congruence. }
  destruct (compare_decks_returns A B) as [r Hr]. rewrite Hr.
  split; [discriminate|].
  intros [H|[(s & H & H')|[(s & A' & H & H' & H'')
                              |(s & A' & s' & H & H' & H'' & H3)]]];
    congruence.
Qed.

(** C7. [compare_presentations] always returns a result. When the body
    of its [try] raises [e], in particular when either payload cannot be
    parsed or the extraction of a parsed one raises, the result has
    [identical = False], [error = True], a summary that ends with
    [str(e)] and is not empty, and a trace that is not empty. *)
Theorem errors_become_results (file1_content file2_content : list byte)
  (e : pyexn) :
  compare_body file1_content file2_content = raise e
  \/ Presentation file1_content = raise e
  \/ (exists slides,
         Presentation file1_content = ret slides
         /\ extract_slides slides = raise e)
  \/ (exists slides A,
         Presentation file1_content = ret slides
         /\ extract_slides slides = ret A
         /\ Presentation file2_content = raise e)
  \/ (exists slides A slides',
         Presentation file1_content = ret slides
         /\ extract_slides slides = ret A
         /\ Presentation file2_content = ret slides'
         /\ extract_slides slides' = raise e) ->
  let r := compare_presentations file1_content file2_content in
  identical r = false
  /\ error r = Some true
  /\ differences r = []
  /\ summary r = ("Error comparing presentations: " ++ exn_msg e)%string
  /\ summary r <> ""
  /\ exists trace, error_details r = Some trace /\ trace <> "".
Proof.
  intros H r.
  assert (Hb : compare_body file1_content file2_content = raise e).
  { destruct H as [H|H]; [exact H|]. now apply compare_body_raises. }
  unfold r, compare_presentations. rewrite Hb. unfold raise. simpl.
  repeat split; try discriminate.
  exists (format_exc e). split; [reflexivity|discriminate].
Qed.

(** ** The image fingerprinter *)

(** C8. On a byte string [process_image_blob] returns a record: its hash
    is the digest of the bytes and its size their length; width, height
    and format are the decoded ones, or [0], [0] and ["Unknown"] when
    decoding fails; the thumbnail is the encoded preview, or [None] when
    encoding fails, and the other fields do not depend on it. It returns
    [None] only for an argument that cannot be hashed. *)
Theorem process_image_blob_record :
  (forall (data : list byte) (debug_info : string),
      exists r,
        process_image_blob (Bytes data) debug_info = Some r
        /\ img_hash r = md5_hexdigest data
        /\ img_size r = List.length data
        /\ (img_width r, img_height r, img_format r)
           = match Image_open data with
             | Some decoded => decoded
             | None => (0%nat, 0%nat, "Unknown")
             end
        /\ img_thumbnail r
           = match thumbnail_base64 data with
             | Some img_str =>
                 Some ("data:image/png;base64," ++ img_str)%string
             | None => None
             end
        /\ img_debug_info r = debug_info)
  /\ (forall (image_blob : blob) (debug_info : string),
         process_image_blob image_blob debug_info = None
         <-> image_blob = NotBytes).
Proof.
  split.
  - intros data debug_info. unfold process_image_blob.
    destruct (Image_open data) as [[[w h] f]|]; eexists;
      (split; [reflexivity|]); simpl; repeat split.
  - intros [data|] debug_info; unfold process_image_blob.
    + destruct (Image_open data) as [[[w h] f]|];
        split; intros H; discriminate.
    + split; reflexivity.
Qed.

(** ** The shape walk *)

Lemma string_app_assoc (a b c : string) :
  ((a ++ b) ++ c)%string = (a ++ b ++ c)%string.
Proof. induction a as [|x a IH]; simpl; [reflexivity|now rewrite IH]. Qed.

Lemma group_images_ext (w1 w2 : shape -> M (list image_record))
  (children : list shape) :
  (forall c, In c children -> w1 c = w2 c) ->
  group_images w1 children = group_images w2 children.
Proof.
  induction children as [|c children IH]; intros H; cbn [group_images];
    [reflexivity|].
  rewrite (H c) by now left.
  destruct (w2 c); [reflexivity|].
  f_equal. apply IH. intros c' Hc'. apply H. now right.
Qed.

Lemma group_images_map (w : shape -> M (list image_record))
  (t : shape -> shape) (children : list shape) :
  group_images w (map t children)
  = group_images (fun c => w (t c)) children.
Proof.
  induction children as [|c children IH]; cbn [map group_images];
    [reflexivity|].
  destruct (w (t c)); [reflexivity|]. now rewrite IH.
Qed.


Lemma group_images_all (w : shape -> M (list image_record))
  (children : list shape) (per : list (list image_record)) :
  mapM w children = ret per ->
  group_images w children = List.concat per.
Proof.
  revert per. induction children as [|c children IH]; intros per;
    cbn [mapM group_images].
  - intros H. injection H as <-. reflexivity.
  - destruct (w c) as [e'|l]; [discriminate|]. cbn [bind].
    destruct (mapM w children) as [e'|per'] eqn:E; [discriminate|].
    cbn [bind]. intros H. injection H as <-. cbn [List.concat].
    f_equal. now apply IH.
Qed.


Lemma walk_truncate (frames : nat) :
  forall (k : nat) (s : shape) (parent_info : string),
    extract_images_from_shape (S frames) s parent_info
    = extract_images_from_shape (S (frames + k)) (truncate_depth frames s)
        parent_info.
Proof.
  induction frames as [|frames IH]; intros k [st ib f ch t tb] parent_info;
    cbn [extract_images_from_shape truncate_depth shape_type image_blob
           fill shapes Nat.add];
    (destruct st as [e|st]; cbn [bind]; [reflexivity|]);
    unfold ret; do 4 f_equal;
    (destruct (shape_type_is st 6); [|reflexivity]).
  - destruct ch; reflexivity.
  - rewrite group_images_map. apply group_images_ext.
    intros c _. apply IH.
Qed.




(** ** Text extraction *)

Lemma lstrip_blank (s : string) : blank s = true -> lstrip s = "".
Proof.
  unfold blank. induction s as [|c s IH]; simpl; [reflexivity|].
  intros H. apply andb_prop in H. destruct H as [Hc Hs].
  rewrite Hc. now apply IH.
Qed.

Lemma rstrip_blank (s : string) : blank s = true -> rstrip s = "".
Proof.
  unfold blank. induction s as [|c s IH]; simpl; [reflexivity|].
  intros H. apply andb_prop in H. destruct H as [Hc Hs].
  rewrite (IH Hs), Hc. reflexivity.
Qed.

Lemma strip_blank (s : string) : blank s = true -> strip s = "".
Proof. intros H. unfold strip. now rewrite lstrip_blank. Qed.

Lemma lstrip_app (s r : string) :
  lstrip (s ++ r) = if blank s then lstrip r else (lstrip s ++ r)%string.
Proof.
  unfold blank. induction s as [|c s IH]; simpl; [reflexivity|].
  destruct (isspace c); simpl; [exact IH|reflexivity].
Qed.

Lemma rstrip_app_blank (s r : string) :
  blank r = true -> rstrip (s ++ r) = rstrip s.
Proof.
  intros H. induction s as [|c s IH]; simpl.
  - now apply rstrip_blank.
  - now rewrite IH.
Qed.

Lemma strip_pad (l core r : string) :
  blank l = true -> blank r = true ->
  strip (l ++ core ++ r) = strip core.
Proof.
  intros Hl Hr. unfold strip. rewrite lstrip_app, Hl, lstrip_app.
  destruct (blank core) eqn:Hc.
  - now rewrite (lstrip_blank r Hr), (lstrip_blank core Hc).
  - now apply rstrip_app_blank.
Qed.

Lemma strip_padded (t1 t2 : string) : padded t1 t2 -> strip t1 = strip t2.
Proof.
  intros H. destruct H. rewrite !strip_pad by assumption. reflexivity.
Qed.

Lemma visible_lines_same (l1 l2 : list string) :
  same_visible_text l1 l2 -> visible_lines l1 = visible_lines l2.
Proof.
  unfold visible_lines.
  induction 1 as [|t l1 l2 Ht _ IH|t l1 l2 Ht _ IH|t1 t2 l1 l2 Ht _ IH];
    simpl.
  - reflexivity.
  - now rewrite (strip_blank t Ht).
  - now rewrite (strip_blank t Ht).
  - now rewrite (strip_padded t1 t2 Ht), IH.
Qed.

Lemma visible_lines_app (l1 l2 : list string) :
  visible_lines (l1 ++ l2) = visible_lines l1 ++ visible_lines l2.
Proof. unfold visible_lines. now rewrite map_app, filter_app. Qed.

Lemma append_stripped_fold (cells acc : list string) :
  fold_left append_stripped cells acc = acc ++ visible_lines cells.
Proof.
  revert acc. induction cells as [|t cells IH]; intros acc; simpl.
  - now rewrite app_nil_r.
  - rewrite IH. unfold append_stripped, visible_lines. simpl.
    destruct (String.eqb (strip t) ""); simpl.
    + reflexivity.
    + now rewrite <- app_assoc.
Qed.

Lemma rows_fold (rows : list (list string)) (acc : list string) :
  fold_left (fun acc row => fold_left append_stripped row acc) rows acc
  = acc ++ visible_lines (List.concat rows).
Proof.
  revert acc. induction rows as [|row rows IH]; intros acc; simpl.
  - now rewrite app_nil_r.
  - rewrite IH, append_stripped_fold, visible_lines_app.
    now rewrite <- app_assoc.
Qed.

Lemma shape_text_appended (s : shape) (slide_text : list string) :
  match table s with
  | Some rows =>
      fold_left (fun acc row => fold_left append_stripped row acc) rows
        match text s with
        | Some t => append_stripped slide_text t
        | None => slide_text
        end
  | None =>
      match text s with
      | Some t => append_stripped slide_text t
      | None => slide_text
      end
  end
  = slide_text ++ visible_lines (shape_texts s).
Proof.
  unfold shape_texts.
  destruct (text s) as [t|]; destruct (table s) as [rows|]; simpl.
  - rewrite rows_fold.
    change (t :: List.concat rows) with ([t] ++ List.concat rows).
    rewrite visible_lines_app, app_assoc. f_equal.
    unfold append_stripped, visible_lines. simpl.
    destruct (String.eqb (strip t) ""); simpl;
      [now rewrite app_nil_r|reflexivity].
  - unfold append_stripped, visible_lines. simpl.
    destruct (String.eqb (strip t) ""); simpl;
      [now rewrite app_nil_r|reflexivity].
  - now rewrite rows_fold.
  - now rewrite app_nil_r.
Qed.

Lemma extract_shape_eq (n : nat) (s : shape) (slide_text : list string)
  (slide_images : list image_record) :
  extract_shape n (slide_text, slide_images) s
  = (images <- extract_images_from_shape stack_room s
                 ("Slide " ++ str_of_nat n) ;;
     ret (slide_text ++ visible_lines (shape_texts s),
          slide_images ++ images)).
Proof.
  unfold extract_shape. now rewrite shape_text_appended.
Qed.

Lemma extract_fold (n : nat) (slide : list shape) :
  forall (slide_text : list string) (slide_images : list image_record),
    fold_left (fun acc s => acc <- acc ;; extract_shape n acc s) slide
      (ret (slide_text, slide_images))
    = (per <- mapM (fun s =>
                      extract_images_from_shape stack_room s
                        ("Slide " ++ str_of_nat n)) slide ;;
       ret (slide_text ++ visible_lines (flat_map shape_texts slide),
            slide_images ++ List.concat per)).
Proof.
  induction slide as [|s slide IH]; intros txt imgs.
  - simpl. now rewrite !app_nil_r.
  - cbn [fold_left mapM flat_map]. rewrite bind_ret, extract_shape_eq.
    destruct (extract_images_from_shape stack_room s _) as [e|l];
      cbn [bind].
    + apply (fold_raise (extract_shape n)).
    + rewrite IH.
      destruct (mapM _ slide) as [e|per]; cbn [bind]; [reflexivity|].
      rewrite bind_ret. cbn [List.concat].
      now rewrite visible_lines_app, !app_assoc.
Qed.

Lemma extract_slide_eq (n : nat) (slide : list shape) :
  extract_slide n slide
  = (per <- mapM (fun s =>
                    extract_images_from_shape stack_room s
                      ("Slide " ++ str_of_nat n)) slide ;;
     ret {| slide_number := n;
            text_content :=
              join Difflib.newline
                (visible_lines (flat_map shape_texts slide));
            images := List.concat per;
            image_count := List.length (List.concat per) |}).
Proof.
  unfold extract_slide. rewrite extract_fold.
  destruct (mapM _ slide); reflexivity.
Qed.

Lemma extract_slide_text (n : nat) (slide : list shape)
  (record : slide_content) :
  extract_slide n slide = ret record ->
  text_content record
  = join Difflib.newline (visible_lines (flat_map shape_texts slide)).
Proof.
  rewrite extract_slide_eq.
  destruct (mapM _ slide); cbn [bind]; [discriminate|].
  intros H. injection H as <-. reflexivity.
Qed.

(** C10. The text of an extracted slide is the join of its shapes' and
    cells' texts, each trimmed, those empty after trimming left out.
    Hence two slides whose texts differ only by padding or by texts of
    whitespace only have the same [text_content], and comparing them
    reports no text diff. *)
Theorem whitespace_only_changes_not_reported (n1 n2 : nat)
  (slide1 slide2 : list shape) (s1 s2 : slide_content) :
  same_visible_text (flat_map shape_texts slide1)
    (flat_map shape_texts slide2) ->
  extract_slide n1 slide1 = ret s1 ->
  extract_slide n2 slide2 = ret s2 ->
  text_content s1
  = join Difflib.newline
      (filter (fun t => negb (String.eqb t ""))
         (map strip (flat_map shape_texts slide1)))
  /\ text_content s1 = text_content s2
  /\ has_text_diff (compare_slide s1 s2) = false
  /\ text_diff (compare_slide s1 s2) = None.
Proof.
  intros H E1 E2.
  assert (E : text_content s1 = text_content s2).
  { rewrite (extract_slide_text _ _ _ E1), (extract_slide_text _ _ _ E2).
    now rewrite (visible_lines_same _ _ H). }
  split; [now apply (extract_slide_text n1)|].
  split; [exact E|].
  unfold compare_slide; simpl. rewrite E, String.eqb_refl.
  split; reflexivity.
Qed.

(* ================================================================== *)
(** * Properties of [difflib] *)
(* ================================================================== *)

Import Difflib.


(** ** Indexing, ranges and slices *)

Lemma getitem_nonneg {A : Type} (l : list A) (i : Z) :
  0 <= i -> getitem l i = nth_error l (Z.to_nat i).
Proof.
  intros H. unfold getitem.
  destruct (Z.ltb_spec i 0); [lia|reflexivity].
Qed.

Lemma getitem_some_lt {A : Type} (l : list A) (i : Z) (x : A) :
  0 <= i -> getitem l i = Some x -> i < Z.of_nat (List.length l).
Proof.
  intros H E. rewrite getitem_nonneg in E by assumption.
  assert (Z.to_nat i < List.length l)%nat
    by (apply nth_error_Some; congruence).
  lia.
Qed.

Lemma getitem_in_range {A : Type} (l : list A) (i : Z) :
  0 <= i < Z.of_nat (List.length l) -> exists x, getitem l i = Some x.
Proof.
  intros H. rewrite getitem_nonneg by lia.
  destruct (nth_error l (Z.to_nat i)) as [x|] eqn:E; [now exists x|].
  apply nth_error_None in E. lia.
Qed.

Lemma range_nil (lo hi : Z) : hi <= lo -> range lo hi = [].
Proof.
  intros H. unfold range. replace (Z.to_nat (hi - lo)) with 0%nat by lia.
  reflexivity.
Qed.

Lemma range_cons (lo hi : Z) :
  lo < hi -> range lo hi = lo :: range (lo + 1) hi.
Proof.
  intros H. unfold range.
  replace (Z.to_nat (hi - lo)) with (S (Z.to_nat (hi - (lo + 1)))) by lia.
  cbn [seq map]. f_equal; [lia|].
  rewrite <- seq_shift, map_map. apply map_ext. intros n. lia.
Qed.

Lemma in_range (lo hi x : Z) : In x (range lo hi) <-> lo <= x < hi.
Proof.
  unfold range. rewrite in_map_iff. split.
  - intros [n [<- Hn]]. apply in_seq in Hn. lia.
  - intros H. exists (Z.to_nat (x - lo)). split; [lia|].
    apply in_seq. lia.
Qed.

(** An invariant indexed by the loop variable holds after a [for] loop
    over a range. *)
Lemma range_fold_inv {S : Type} (I : Z -> S -> Prop) (f : S -> Z -> S)
  (hi : Z) :
  (forall i s, i < hi -> I i s -> I (i + 1) (f s i)) ->
  forall (n : nat) (lo : Z) (s : S),
    n = Z.to_nat (hi - lo) -> lo <= hi -> I lo s ->
    I hi (fold_left f (range lo hi) s).
Proof.
  intros Hstep. induction n as [|n IH]; intros lo s Hn Hle Hs.
  - rewrite range_nil by lia. simpl. now replace hi with lo by lia.
  - rewrite range_cons by lia. simpl.
    apply IH; [lia|lia|]. apply Hstep; [lia|exact Hs].
Qed.

(** An invariant holds after a loop over a list. *)
Lemma fold_left_inv {S T : Type} (I : S -> Prop) (f : S -> T -> S)
  (l : list T) :
  (forall s x, In x l -> I s -> I (f s x)) ->
  forall s, I s -> I (fold_left f l s).
Proof.
  induction l as [|x l IH]; intros Hstep s Hs; simpl; [exact Hs|].
  apply IH.
  - intros s' y Hy. apply Hstep. now right.
  - apply Hstep; [now left|exact Hs].
Qed.

Lemma while_inv {S : Type} (I : S -> Prop) (cond : S -> bool)
  (body : S -> S) :
  (forall s, I s -> cond s = true -> I (body s)) ->
  forall (fuel : nat) (s : S), I s -> I (while fuel cond body s).
Proof.
  intros Hstep. induction fuel as [|fuel IH]; intros s Hs; simpl.
  - exact Hs.
  - destruct (cond s) eqn:E; [|exact Hs]. apply IH. now apply Hstep.
Qed.

Lemma slice_nil {A : Type} (l : list A) (lo hi : Z) :
  hi <= lo -> slice l lo hi = [].
Proof.
  intros H. unfold slice.
  replace (Z.to_nat hi - Z.to_nat lo)%nat with 0%nat by lia. reflexivity.
Qed.

Lemma slice_cons {A : Type} (l : list A) (lo hi : Z) (x : A) :
  0 <= lo < hi -> getitem l lo = Some x ->
  slice l lo hi = x :: slice l (lo + 1) hi.
Proof.
  intros H E. rewrite getitem_nonneg in E by lia. unfold slice.
  rewrite (nth_error_skipn_cons _ _ _ E).
  replace (Z.to_nat hi - Z.to_nat lo)%nat
    with (S (Z.to_nat hi - Z.to_nat (lo + 1)))%nat by lia.
  replace (Z.to_nat (lo + 1)) with (S (Z.to_nat lo)) by lia.
  reflexivity.
Qed.

Lemma firstn_plus {A : Type} (n1 n2 : nat) (l : list A) :
  firstn (n1 + n2) l = firstn n1 l ++ firstn n2 (skipn n1 l).
Proof.
  revert l. induction n1 as [|n1 IH]; intros [|x l]; simpl;
    rewrite ?firstn_nil; try reflexivity.
  now rewrite IH.
Qed.

Lemma slice_app {A : Type} (l : list A) (lo mid hi : Z) :
  0 <= lo <= mid -> mid <= hi ->
  slice l lo mid ++ slice l mid hi = slice l lo hi.
Proof.
  intros H1 H2. unfold slice.
  replace (Z.to_nat hi - Z.to_nat lo)%nat
    with ((Z.to_nat mid - Z.to_nat lo)
          + (Z.to_nat hi - Z.to_nat mid))%nat by lia.
  rewrite firstn_plus, skipn_skipn.
  do 3 f_equal. lia.
Qed.

Lemma slice_all {A : Type} (l : list A) :
  slice l 0 (Z.of_nat (List.length l)) = l.
Proof.
  unfold slice. simpl. rewrite Nat.sub_0_r, Nat2Z.id. apply firstn_all.
Qed.

(** ** Dictionaries *)

Lemma dict_get_some {K V : Type} (keq : K -> K -> bool) (d : list (K * V))
  (k : K) (v : V) :
  dict_get keq d k = Some v -> exists k', In (k', v) d /\ keq k' k = true.
Proof.
  induction d as [|[k0 v0] d IH]; simpl; [discriminate|].
  destruct (keq k0 k) eqn:E.
  - intros H. injection H as ->. exists k0. split; [now left|exact E].
  - intros H. destruct (IH H) as [k' [Hin Hk]]. exists k'.
    split; [now right|exact Hk].
Qed.

Lemma dict_set_forall {K V : Type} (keq : K -> K -> bool)
  (P : K * V -> Prop) (d : list (K * V)) (k : K) (v : V) :
  Forall P d -> (forall k', keq k' k = true -> P (k', v)) -> P (k, v) ->
  Forall P (dict_set keq d k v).
Proof.
  intros Hd Hk Hn. induction d as [|[k0 v0] d IH]; simpl.
  - constructor; [exact Hn|constructor].
  - inversion Hd; subst. destruct (keq k0 k) eqn:E.
    + constructor; [now apply Hk|assumption].
    + constructor; [assumption|now apply IH].
Qed.

Lemma dict_del_forall {K V : Type} (keq : K -> K -> bool)
  (P : K * V -> Prop) (keys : list K) (d : list (K * V)) :
  Forall P d -> Forall P (fold_left (dict_del keq) keys d).
Proof.
  revert d. induction keys as [|k keys IH]; intros d Hd; simpl.
  - exact Hd.
  - apply IH. unfold dict_del. apply Forall_forall. intros x Hx.
    apply filter_In in Hx. destruct Hx as [Hx _].
    revert x Hx. now apply Forall_forall.
Qed.

Lemma in_enumerate {A : Type} (l : list A) (i : Z) (x : A) :
  In (i, x) (enumerate l) -> 0 <= i /\ getitem l i = Some x.
Proof.
  unfold enumerate, range. rewrite Z.sub_0_r, Nat2Z.id.
  assert (G : forall (l : list A) (k : nat),
             In (i, x)
               (combine (map (fun n => 0 + Z.of_nat n)
                           (seq k (List.length l))) l) ->
             exists n, i = Z.of_nat (k + n) /\ nth_error l n = Some x).
  { clear l. induction l as [|y l IH]; intros k H; simpl in H.
    - contradiction.
    - destruct H as [H|H].
      + injection H as <- <-. exists 0%nat. split; [lia|reflexivity].
      + destruct (IH (S k) H) as [n [Hi Hn]]. exists (S n).
        split; [lia|exact Hn]. }
  intros H. destruct (G l 0%nat H) as [n [Hi Hn]]. simpl in Hi. subst i.
  split; [lia|]. rewrite getitem_nonneg by lia. now rewrite Nat2Z.id.
Qed.

(** ** The sequence matcher *)

Section MatcherFacts.
Context {A : Type} (eqb : A -> A -> bool).
Hypothesis eqb_ok : forall x y : A, eqb x y = true -> x = y.

Lemma chain_b_ok (isjunk : option (A -> bool)) (b : list A) :
  entries_ok b (fst (chain_b eqb isjunk b)).
Proof.
  unfold chain_b. cbn [fst]. unfold entries_ok.
  do 2 apply dict_del_forall.
  apply (fold_left_inv (entries_ok b)); [|constructor].
  intros d [i elt] Hin Hd. apply in_enumerate in Hin.
  destruct Hin as [Hi Hx].
  destruct (dict_get eqb d elt) as [indices|] eqn:E.
  - apply dict_get_some in E. destruct E as [k' [Hk' Hkey]].
    apply eqb_ok in Hkey. subst k'.
    assert (Hold : Forall (fun j => 0 <= j /\ getitem b j = Some elt)
                     indices).
    { unfold entries_ok in Hd. rewrite Forall_forall in Hd.
      exact (Hd _ Hk'). }
    apply dict_set_forall; [exact Hd| |].
    + intros k' Hk. apply eqb_ok in Hk. subst k'. cbn [fst snd].
      apply Forall_app. split; [exact Hold|]. now repeat constructor.
    + cbn [fst snd]. apply Forall_app. split; [exact Hold|].
      now repeat constructor.
  - apply dict_set_forall; [exact Hd| |].
    + intros k' Hk. apply eqb_ok in Hk. subst k'. cbn [fst snd].
      now repeat constructor.
    + cbn [fst snd]. now repeat constructor.
Qed.

Lemma set_seqs_ok (isjunk : option (A -> bool)) (a b : list A) :
  let m := set_seqs eqb isjunk a b in
  seq_a m = a /\ seq_b m = b /\ entries_ok b (b2j m).
Proof.
  unfold set_seqs. pose proof (chain_b_ok isjunk b) as H.
  destruct (chain_b eqb isjunk b) as [d junk]. simpl in *. auto.
Qed.

Lemma match_ok_extend (a b : list A) (i j k : Z) (x : A) :
  0 <= k -> match_ok a b i j k ->
  getitem a (i + k) = Some x -> getitem b (j + k) = Some x ->
  match_ok a b i j (k + 1).
Proof.
  intros Hk H Ha Hb t Ht.
  destruct (Z.eq_dec t k) as [->|Hne]; [now exists x|].
  apply H. lia.
Qed.

Lemma match_ok_extend_left (a b : list A) (i j k : Z) (x : A) :
  match_ok a b i j k ->
  getitem a (i - 1) = Some x -> getitem b (j - 1) = Some x ->
  match_ok a b (i - 1) (j - 1) (k + 1).
Proof.
  intros H Ha Hb t Ht.
  destruct (Z.eq_dec t 0) as [->|Hne].
  - exists x. now rewrite !Z.add_0_r.
  - destruct (H (t - 1)) as [y [Hy1 Hy2]]; [lia|]. exists y.
    replace (i - 1 + t) with (i + (t - 1)) by lia.
    replace (j - 1 + t) with (j + (t - 1)) by lia. auto.
Qed.

Lemma match_ok_nil (a b : list A) (i j : Z) : match_ok a b i j 0.
Proof. intros t Ht. lia. Qed.

Section OneMatcher.
Variable m : matcher (A := A).
Hypothesis b2j_ok : entries_ok (seq_b m) (b2j m).

Lemma b2j_get (x : A) (j : Z) :
  In j (dict_get_default eqb (b2j m) x []) ->
  0 <= j /\ getitem (seq_b m) j = Some x.
Proof.
  unfold dict_get_default.
  destruct (dict_get eqb (b2j m) x) as [js|] eqn:E; [|contradiction].
  apply dict_get_some in E. destruct E as [k' [Hin Hk]].
  apply eqb_ok in Hk. subst k'. intros Hj.
  unfold entries_ok in b2j_ok. rewrite Forall_forall in b2j_ok.
  specialize (b2j_ok _ Hin). cbn [fst snd] in b2j_ok.
  rewrite Forall_forall in b2j_ok. now apply b2j_ok.
Qed.

Lemma eq_at_true (i j : Z) :
  eq_at eqb m i j = true ->
  exists x, getitem (seq_a m) i = Some x /\ getitem (seq_b m) j = Some x.
Proof.
  unfold eq_at.
  destruct (getitem (seq_a m) i) as [x|]; [|discriminate].
  destruct (getitem (seq_b m) j) as [y|]; [|discriminate].
  intros H. apply eqb_ok in H. subst y. now exists x.
Qed.

Lemma block_in_weaken (alo ahi ahi' blo bhi : Z) (blk : block) :
  ahi <= ahi' ->
  block_in (seq_a m) (seq_b m) alo ahi blo bhi blk ->
  block_in (seq_a m) (seq_b m) alo ahi' blo bhi blk.
Proof.
  destruct blk as [[i j] k]. unfold block_in. intros H. intuition lia.
Qed.

Lemma flm_inner_ok (alo blo bhi i : Z) (x : A) (j2len : list (Z * Z)) :
  alo <= i ->
  getitem (seq_a m) i = Some x ->
  j2len_ok (seq_a m) (seq_b m) alo blo bhi i j2len ->
  forall (js : list Z) (newj2len : list (Z * Z)) (best : block),
    Forall (fun j => 0 <= j /\ getitem (seq_b m) j = Some x) js ->
    j2len_ok (seq_a m) (seq_b m) alo blo bhi (i + 1) newj2len ->
    block_in (seq_a m) (seq_b m) alo (i + 1) blo bhi best ->
    j2len_ok (seq_a m) (seq_b m) alo blo bhi (i + 1)
      (fst (flm_inner js i blo bhi j2len newj2len best))
    /\ block_in (seq_a m) (seq_b m) alo (i + 1) blo bhi
         (snd (flm_inner js i blo bhi j2len newj2len best)).
Proof.
  intros Hi Hx Hold.
  induction js as [|j js IH]; intros newj2len best Hjs Hnew Hbest.
  - simpl. auto.
  - inversion Hjs as [|? ? [Hj0 Hbj] Hjs']; subst. cbn [flm_inner].
    destruct (Z.ltb_spec j blo) as [Hlo|Hlo]; [now apply IH|].
    destruct (Z.leb_spec bhi j) as [Hhi|Hhi]; [simpl; auto|].
    destruct best as [[bi bj] bs].
    set (k := dict_get_default Z.eqb j2len (j - 1) 0 + 1).
    assert (Hk : 1 <= k /\ alo <= i + 1 - k /\ blo <= j - k + 1
                 /\ match_ok (seq_a m) (seq_b m) (i + 1 - k) (j - k + 1) k).
    { unfold k, dict_get_default.
      destruct (dict_get Z.eqb j2len (j - 1)) as [k0|] eqn:E.
      - apply dict_get_some in E. destruct E as [j' [Hin Hj']].
        apply Z.eqb_eq in Hj'. subst j'.
        unfold j2len_ok in Hold. rewrite Forall_forall in Hold.
        specialize (Hold _ Hin). cbn beta iota in Hold.
        destruct Hold as (H1 & H2 & H3 & H4 & H5).
        repeat split; try lia.
        replace (i + 1 - (k0 + 1)) with (i - k0) by lia.
        replace (j - (k0 + 1) + 1) with (j - 1 - k0 + 1) by lia.
        apply (match_ok_extend _ _ _ _ _ x); [lia|exact H5| |].
        + now replace (i - k0 + k0) with i by lia.
        + now replace (j - 1 - k0 + 1 + k0) with j by lia.
      - repeat split; try lia.
        replace (i + 1 - (0 + 1)) with i by lia.
        replace (j - (0 + 1) + 1) with j by lia.
        intros t Ht. replace t with 0 by lia. exists x.
        now rewrite !Z.add_0_r. }
    destruct Hk as (Hk1 & Hk2 & Hk3 & Hk4).
    apply IH; [exact Hjs'| |].
    + apply dict_set_forall; [exact Hnew| |].
      * intros j' Hj'. apply Z.eqb_eq in Hj'. subst j'.
        repeat split; try lia. exact Hk4.
      * repeat split; try lia. exact Hk4.
    + destruct (Z.ltb_spec bs k); [|exact Hbest].
      unfold block_in. repeat split; try lia.
      now replace (i - k + 1) with (i + 1 - k) by lia.
Qed.

Lemma flm_outer_ok (alo ahi blo bhi : Z) :
  alo <= ahi -> blo <= bhi ->
  block_in (seq_a m) (seq_b m) alo ahi blo bhi
    (snd (flm_outer eqb m alo ahi blo bhi)).
Proof.
  intros Ha Hb. unfold flm_outer.
  set (I := fun (i : Z) (st : list (Z * Z) * block) =>
              j2len_ok (seq_a m) (seq_b m) alo blo bhi i (fst st)
              /\ block_in (seq_a m) (seq_b m) alo i blo bhi (snd st)).
  cut (I ahi
         (fold_left
            (fun '(j2len, best) i =>
               let js :=
                 match getitem (seq_a m) i with
                 | Some x => dict_get_default eqb (b2j m) x []
                 | None => []
                 end in
               flm_inner js i blo bhi j2len [] best)
            (range alo ahi) ([], (alo, blo, 0)))).
  { intros [_ H]. exact H. }
  apply (range_fold_inv I _ ahi) with (n := Z.to_nat (ahi - alo));
    [|reflexivity|exact Ha|].
  - intros i [j2len best] Hi [H1 H2]. cbn [fst snd] in *.
    assert (Hlo : alo <= i).
    { destruct best as [[bi bj] bs]. unfold block_in in H2. lia. }
    destruct (getitem (seq_a m) i) as [x|] eqn:E.
    + apply (flm_inner_ok alo blo bhi i x j2len Hlo E H1).
      * apply Forall_forall. intros j Hj. now apply b2j_get.
      * constructor.
      * apply block_in_weaken with (ahi := i); [lia|exact H2].
    + simpl. split; [constructor|].
      apply block_in_weaken with (ahi := i); [lia|exact H2].
  - split; [constructor|]. cbn [snd]. unfold block_in.
    repeat split; try lia. apply match_ok_nil.
Qed.

Lemma extend_left_ok (alo ahi blo bhi : Z) (junk : bool) (best : block) :
  block_in (seq_a m) (seq_b m) alo ahi blo bhi best ->
  block_in (seq_a m) (seq_b m) alo ahi blo bhi
    (extend_left eqb m alo blo junk best).
Proof.
  intros H. unfold extend_left. destruct best as [[bi0 bj0] bs0].
  apply while_inv; [|exact H].
  intros [[bi bj] bs] Hs Hc.
  apply andb_prop in Hc. destruct Hc as [Hc He].
  apply andb_prop in Hc. destruct Hc as [Hc _].
  apply andb_prop in Hc. destruct Hc as [Hc1 Hc2].
  apply Z.ltb_lt in Hc1, Hc2. apply eq_at_true in He.
  destruct He as [x [Hx1 Hx2]].
  unfold block_in in *. destruct Hs as (H1 & H2 & H3 & H4 & H5 & H6).
  repeat split; try lia.
  now apply (match_ok_extend_left _ _ _ _ _ x).
Qed.

Lemma extend_right_ok (alo ahi blo bhi : Z) (junk : bool) (best : block) :
  block_in (seq_a m) (seq_b m) alo ahi blo bhi best ->
  block_in (seq_a m) (seq_b m) alo ahi blo bhi
    (extend_right eqb m ahi bhi junk best).
Proof.
  intros H. unfold extend_right. destruct best as [[bi0 bj0] bs0].
  apply while_inv; [|exact H].
  intros [[bi bj] bs] Hs Hc.
  apply andb_prop in Hc. destruct Hc as [Hc He].
  apply andb_prop in Hc. destruct Hc as [Hc _].
  apply andb_prop in Hc. destruct Hc as [Hc1 Hc2].
  apply Z.ltb_lt in Hc1, Hc2. apply eq_at_true in He.
  destruct He as [x [Hx1 Hx2]].
  unfold block_in in *. destruct Hs as (H1 & H2 & H3 & H4 & H5 & H6).
  repeat split; try lia.
  now apply (match_ok_extend _ _ _ _ _ x).
Qed.

(** [find_longest_match] returns a block of equal elements inside the
    region it is given. *)
Lemma find_longest_match_ok (alo ahi blo bhi : Z) :
  alo <= ahi -> blo <= bhi ->
  block_in (seq_a m) (seq_b m) alo ahi blo bhi
    (find_longest_match eqb m alo ahi blo bhi).
Proof.
  intros Ha Hb. unfold find_longest_match.
  apply extend_right_ok, extend_left_ok, extend_right_ok, extend_left_ok.
  now apply flm_outer_ok.
Qed.

End OneMatcher.

(** ** The queue loop *)

Lemma comparable_sym (r1 r2 : region) : comparable r1 r2 -> comparable r2 r1.
Proof. unfold comparable. tauto. Qed.

Lemma comparable_inside (q r x : region) :
  inside q r -> comparable q x -> comparable r x.
Proof.
  destruct q as [[[qa qb] qc] qd], r as [[[ra rb] rc] rd],
    x as [[[xa xb] xc] xd].
  unfold inside, comparable, before. lia.
Qed.

(** Replacing one element of a pairwise comparable list by parts of it. *)
Lemma pairs_replace (l1 l2 parts : list region) (q : region) :
  ForallOrdPairs comparable (l1 ++ q :: l2) ->
  Forall (inside q) parts ->
  ForallOrdPairs comparable parts ->
  ForallOrdPairs comparable (l1 ++ parts ++ l2).
Proof.
  intros H Hin Hparts. induction l1 as [|y l1 IH]; simpl in *.
  - inversion H as [|? ? Hq Hl2]; subst. clear H.
    induction Hparts as [|p parts Hp Hps IHp]; simpl; [exact Hl2|].
    inversion Hin as [|? ? Hpq Hin']; subst.
    constructor; [|now apply IHp].
    apply Forall_app. split; [exact Hp|].
    apply Forall_forall. intros x Hx.
    apply (comparable_inside q); [exact Hpq|].
    rewrite Forall_forall in Hq. now apply Hq.
  - inversion H as [|? ? Hy Hrest]; subst.
    constructor; [|now apply IH].
    apply Forall_app in Hy. destruct Hy as [Hy1 Hy2].
    inversion Hy2 as [|? ? Hyq Hy3]; subst.
    apply Forall_app. split; [exact Hy1|].
    apply Forall_app. split; [|exact Hy3].
    apply Forall_forall. intros x Hx. apply comparable_sym.
    apply (comparable_inside q).
    + rewrite Forall_forall in Hin. now apply Hin.
    + now apply comparable_sym.
Qed.

Lemma app_regroup {T : Type} (l0 l2 l1 rest : list T) (x : T) :
  (l0 ++ [x]) ++ l2 ++ l1 ++ rest = l0 ++ ([x] ++ l2 ++ l1) ++ rest.
Proof. now rewrite <- !app_assoc. Qed.

Lemma queue_measure_cons (alo ahi blo bhi : Z) (rest : list region) :
  queue_measure ((alo, ahi, blo, bhi) :: rest)
  = (S (2 * Z.to_nat (ahi - alo)) + queue_measure rest)%nat.
Proof. reflexivity. Qed.

Lemma gmb_loop_ok (m : matcher (A := A)) :
  entries_ok (seq_b m) (b2j m) ->
  forall (fuel : nat) (queue : list region) (blocks : list block),
    gmb_inv (seq_a m) (seq_b m) queue blocks ->
    (queue_measure queue <= fuel)%nat ->
    exists r,
      gmb_loop eqb m fuel queue blocks = Some r
      /\ gmb_inv (seq_a m) (seq_b m) [] r.
Proof.
  intros Hm. induction fuel as [|fuel IH]; intros queue blocks Hinv Hfuel.
  - destruct queue as [|[[[alo ahi] blo] bhi] rest].
    + exists blocks. split; [reflexivity|exact Hinv].
    + rewrite queue_measure_cons in Hfuel. lia.
  - destruct queue as [|[[[alo ahi] blo] bhi] rest].
    + exists blocks. split; [reflexivity|exact Hinv].
    + destruct Hinv as (Hq & Hb & Hp).
      inversion Hq as [|? ? Hwf Hrest]; subst.
      unfold region_wf in Hwf.
      destruct Hwf as (W1 & W2 & W3 & W4 & W5 & W6).
      pose proof (find_longest_match_ok m Hm alo ahi blo bhi W2 W5) as Hflm.
      cbn [gmb_loop].
      destruct (find_longest_match eqb m alo ahi blo bhi) as [[i j] k].
      unfold block_in in Hflm.
      destruct Hflm as (F1 & F2 & F3 & F4 & F5 & F6).
      rewrite queue_measure_cons in Hfuel.
      destruct (Z.eqb_spec k 0) as [Hk|Hk].
      * apply IH; [|lia].
        split; [exact Hrest|]. split; [exact Hb|].
        apply (pairs_replace _ _ [] _ Hp); constructor.
      * set (q1 := if (alo <? i) && (blo <? j)
                   then [(alo, i, blo, j)] else []).
        set (q2 := if (i + k <? ahi) && (j + k <? bhi)
                   then [(i + k, ahi, j + k, bhi)] else []).
        assert (Hq1 : Forall (fun r => region_wf (seq_a m) (seq_b m) r
                                       /\ inside (alo, ahi, blo, bhi) r
                                       /\ before r (i, i + k, j, j + k)) q1).
        { unfold q1. destruct ((alo <? i) && (blo <? j)); constructor;
            [|constructor]. unfold region_wf, inside, before. lia. }
        assert (Hq2 : Forall (fun r => region_wf (seq_a m) (seq_b m) r
                                       /\ inside (alo, ahi, blo, bhi) r
                                       /\ before (i, i + k, j, j + k) r) q2).
        { unfold q2. destruct ((i + k <? ahi) && (j + k <? bhi)); constructor;
            [|constructor]. unfold region_wf, inside, before. lia. }
        assert (Hmeasure :
                  (queue_measure (q2 ++ q1 ++ rest) <= fuel)%nat).
        { unfold q1, q2.
          destruct ((alo <? i) && (blo <? j));
            destruct ((i + k <? ahi) && (j + k <? bhi));
            cbn [app]; rewrite ?queue_measure_cons; lia. }
        apply IH; [|exact Hmeasure].
        split; [|split].
        -- apply Forall_app. split.
           { eapply Forall_impl; [|exact Hq2]. now intros r [H _]. }
           apply Forall_app. split; [|exact Hrest].
           eapply Forall_impl; [|exact Hq1]. now intros r [H _].
        -- apply Forall_app. split; [exact Hb|].
           constructor; [|constructor].
           split; [simpl; lia|]. unfold block_in. repeat split; try lia.
           exact F6.
        -- rewrite map_app. cbn [map rect_of_block].
           rewrite app_regroup.
           apply (pairs_replace _ _ _ _ Hp).
           ++ constructor; [unfold inside; lia|].
              apply Forall_app. split.
              ** eapply Forall_impl; [|exact Hq2]. now intros r [_ [H _]].
              ** eapply Forall_impl; [|exact Hq1]. now intros r [_ [H _]].
           ++ cbn [app]. constructor.
              ** apply Forall_app. split.
                 { eapply Forall_impl; [|exact Hq2].
                   intros r [_ [_ H]]. now left. }
                 { eapply Forall_impl; [|exact Hq1].
                   intros r [_ [_ H]]. now right. }
              ** unfold q1, q2.
                 destruct ((alo <? i) && (blo <? j));
                   destruct ((i + k <? ahi) && (j + k <? bhi)); cbn [app].
                 { constructor; [|constructor; constructor].
                   constructor; [|constructor].
                   right. unfold before. lia. }
                 { constructor; constructor. }
                 { constructor; constructor. }
                 { constructor. }
Qed.

(** ** Sorting and merging the blocks *)

Lemma block_before_trans (x y z : block) :
  0 <= snd y -> block_before x y -> block_before y z -> block_before x z.
Proof.
  destruct x as [[xi xj] xk], y as [[yi yj] yk], z as [[zi zj] zk].
  unfold block_before, before; simpl. lia.
Qed.

Lemma block_leb_true (x y : block) :
  0 < snd y -> comparable (rect_of_block x) (rect_of_block y) ->
  block_leb x y = true -> block_before x y.
Proof.
  destruct x as [[xi xj] xk], y as [[yi yj] yk].
  unfold comparable, block_before, before, block_leb; simpl.
  intros Hk [H|H] E; [exact H|].
  destruct (Z.ltb_spec xi yi); [lia|].
  destruct (Z.eqb_spec xi yi); [lia|discriminate].
Qed.

Lemma block_leb_false (x y : block) :
  0 < snd x -> comparable (rect_of_block x) (rect_of_block y) ->
  block_leb x y = false -> block_before y x.
Proof.
  destruct x as [[xi xj] xk], y as [[yi yj] yk].
  unfold comparable, block_before, before, block_leb; simpl.
  intros Hk [H|H] E; [|exact H].
  destruct (Z.ltb_spec xi yi); [discriminate|lia].
Qed.

Lemma sort_insert_in (x y : block) (l : list block) :
  In y (sort_insert x l) -> y = x \/ In y l.
Proof.
  induction l as [|z l IH]; simpl.
  - intros [H|[]]. now left.
  - destruct (block_leb x z); simpl.
    + intros [H|H]; [now left|now right].
    + intros [H|H]; [right; now left|].
      destruct (IH H) as [H'|H']; [now left|right; now right].
Qed.

Lemma sort_forall (P : block -> Prop) (l : list block) :
  Forall P l -> Forall P (sort l).
Proof.
  induction 1 as [|x l Hx Hl IH]; simpl; [constructor|].
  apply Forall_forall. intros y Hy. apply sort_insert_in in Hy.
  destruct Hy as [->|Hy]; [exact Hx|].
  rewrite Forall_forall in IH. now apply IH.
Qed.

Lemma sort_insert_chain (x : block) (l : list block) :
  0 < snd x -> Forall (fun y => 0 < snd y) l ->
  Forall (fun y => comparable (rect_of_block x) (rect_of_block y)) l ->
  StronglySorted block_before l ->
  StronglySorted block_before (sort_insert x l).
Proof.
  intros Hx Hpos Hcmp Hs.
  induction Hs as [|y l Hs IH Hy]; simpl.
  - constructor; constructor.
  - inversion Hpos as [|? ? Hypos Hpos']; subst.
    inversion Hcmp as [|? ? Hxy Hcmp']; subst.
    destruct (block_leb x y) eqn:E.
    + apply block_leb_true in E; [|assumption|assumption].
      constructor; [now constructor|].
      constructor; [exact E|].
      apply Forall_forall. intros z Hz.
      apply (block_before_trans x y z); [lia|exact E|].
      rewrite Forall_forall in Hy. now apply Hy.
    + apply block_leb_false in E; [|assumption|assumption].
      constructor; [now apply IH|].
      apply Forall_forall. intros z Hz. apply sort_insert_in in Hz.
      destruct Hz as [->|Hz]; [exact E|].
      rewrite Forall_forall in Hy. now apply Hy.
Qed.

Lemma sort_chain (l : list block) :
  Forall (fun y => 0 < snd y) l ->
  ForallOrdPairs comparable (map rect_of_block l) ->
  StronglySorted block_before (sort l).
Proof.
  induction l as [|x l IH]; intros Hpos Hp; simpl.
  - constructor.
  - inversion Hpos as [|? ? Hx Hpos']; subst.
    inversion Hp as [|? ? Hxl Hp']; subst.
    apply sort_insert_chain.
    + exact Hx.
    + now apply sort_forall.
    + apply sort_forall. apply Forall_forall. intros y Hy.
      rewrite Forall_forall in Hxl. apply Hxl. now apply in_map.
    + now apply IH.
Qed.

Lemma strongly_sorted_snoc {T : Type} (R : T -> T -> Prop) (l : list T)
  (x : T) :
  StronglySorted R l -> Forall (fun y => R y x) l ->
  StronglySorted R (l ++ [x]).
Proof.
  induction 1 as [|y l Hs IH Hy]; intros Hx; simpl.
  - constructor; constructor.
  - inversion Hx; subst. constructor; [now apply IH|].
    apply Forall_app. split; [exact Hy|]. now repeat constructor.
Qed.

Lemma match_ok_app (a b : list A) (i j k1 k2 : Z) :
  0 <= k1 -> match_ok a b i j k1 -> match_ok a b (i + k1) (j + k1) k2 ->
  match_ok a b i j (k1 + k2).
Proof.
  intros Hk H1 H2 t Ht.
  destruct (Z.lt_ge_cases t k1) as [Hlt|Hge].
  - apply H1. lia.
  - destruct (H2 (t - k1)) as [x [Hx1 Hx2]]; [lia|]. exists x.
    replace (i + t) with (i + k1 + (t - k1)) by lia.
    replace (j + t) with (j + k1 + (t - k1)) by lia. auto.
Qed.

Lemma collapse_fold_ok (a b : list A) (l : list block) :
  forall (i1 j1 k1 : Z) (na : list block),
    StronglySorted block_before l -> Forall (blk_ok a b) l ->
    StronglySorted block_before na -> Forall (blk_ok a b) na ->
    (k1 = 0 /\ na = [] /\ i1 = 0 /\ j1 = 0)
    \/ (blk_ok a b (i1, j1, k1)
        /\ Forall (fun x => block_before x (i1, j1, k1)) na
        /\ Forall (block_before (i1, j1, k1)) l) ->
    StronglySorted block_before
      (collapse_end (fold_left collapse_step l (i1, j1, k1, na)))
    /\ Forall (blk_ok a b)
         (collapse_end (fold_left collapse_step l (i1, j1, k1, na))).
Proof.
  induction l as [|[[i2 j2] k2] l IH];
    intros i1 j1 k1 na Hl Hlok Hna Hnaok Hcur.
  - simpl. destruct Hcur as [(-> & -> & _)|(Hc & Hb & _)].
    + simpl. split; constructor.
    + destruct Hc as [Hk Hc]. simpl in Hk.
      destruct (Z.eqb_spec k1 0); [lia|]. split.
      * now apply strongly_sorted_snoc.
      * apply Forall_app. split; [exact Hnaok|].
        constructor; [now split|constructor].
  - inversion Hl as [|? ? Hl' Hx]; subst.
    inversion Hlok as [|? ? Hxok Hlok']; subst.
    cbn [fold_left collapse_step].
    destruct Hcur as [(-> & -> & -> & ->)|(Hc & Hb & Ha)].
    + destruct ((0 + 0 =? i2) && (0 + 0 =? j2)) eqn:E.
      * apply andb_prop in E. destruct E as [E1 E2].
        apply Z.eqb_eq in E1, E2. simpl in E1, E2. subst i2 j2.
        apply IH; try assumption. right. change (0 + k2) with k2.
        split; [exact Hxok|]. split; [constructor|exact Hx].
      * cbn [Z.eqb]. apply IH; try assumption. right.
        split; [exact Hxok|]. split; [constructor|exact Hx].
    + destruct Hc as [Hk1 Hc]. cbn [snd] in Hk1.
      inversion Ha as [|? ? Hcx Ha']; subst.
      destruct ((i1 + k1 =? i2) && (j1 + k1 =? j2)) eqn:E.
      * apply andb_prop in E. destruct E as [E1 E2].
        apply Z.eqb_eq in E1, E2. subst i2 j2.
        destruct Hxok as [Hk2 Hxin]. cbn [snd] in Hk2.
        unfold block_in in Hc, Hxin.
        apply IH; try assumption. right. split; [|split].
        -- split; [simpl; lia|]. unfold block_in.
           repeat split; try lia. apply match_ok_app; [lia|tauto|tauto].
        -- eapply Forall_impl; [|exact Hb]. intros [[xi xj] xk].
           unfold block_before, before; simpl. tauto.
        -- eapply Forall_impl; [|exact Hx]. intros [[xi xj] xk].
           unfold block_before, before; simpl. lia.
      * destruct (Z.eqb_spec k1 0); [lia|].
        apply IH; try assumption.
        -- now apply strongly_sorted_snoc.
        -- apply Forall_app. split; [exact Hnaok|].
           constructor; [now split|constructor].
        -- right. split; [exact Hxok|]. split; [|exact Hx].
           apply Forall_app. split; [|constructor; [exact Hcx|constructor]].
           apply Forall_forall. intros z Hz.
           apply (block_before_trans z (i1, j1, k1) (i2, j2, k2));
             [simpl; lia| |exact Hcx].
           rewrite Forall_forall in Hb. now apply Hb.
Qed.

Lemma collapse_ok (a b : list A) (l : list block) :
  StronglySorted block_before l -> Forall (blk_ok a b) l ->
  StronglySorted block_before (collapse l) /\ Forall (blk_ok a b) (collapse l).
Proof.
  intros Hs Hok.
  change (collapse l)
    with (collapse_end (fold_left collapse_step l (0, 0, 0, []))).
  apply collapse_fold_ok; try assumption; try constructor. auto.
Qed.

Lemma good_blocks_of_chain (a b : list A) (l : list block) :
  forall i j : Z,
    0 <= i -> 0 <= j ->
    StronglySorted block_before l -> Forall (blk_ok a b) l ->
    Forall (fun x => i <= fst (fst x) /\ j <= snd (fst x)) l ->
    i <= Z.of_nat (List.length a) -> j <= Z.of_nat (List.length b) ->
    good_blocks a b i j
      (l ++ [(Z.of_nat (List.length a), Z.of_nat (List.length b), 0)]).
Proof.
  induction l as [|[[ai bj] size] l IH]; intros i j Hi Hj Hs Hok Hge Hla Hlb.
  - simpl. constructor; lia.
  - inversion Hs as [|? ? Hs' Hx]; subst.
    inversion Hok as [|? ? [Hk Hin] Hok']; subst.
    inversion Hge as [|? ? [G1 G2] Hge']; subst.
    cbn [fst snd] in *. unfold block_in in Hin.
    destruct Hin as (B1 & B2 & B3 & B4 & B5 & B6).
    simpl. constructor; try lia; [exact B6|].
    apply IH; try assumption; try lia.
    eapply Forall_impl; [|exact Hx]. intros [[xi xj] xk].
    unfold block_before, before; simpl. lia.
Qed.

(** [get_matching_blocks] empties its queue, and returns blocks of equal
    elements in increasing order, ending with the sentinel. *)
Lemma get_matching_blocks_ok (m : matcher (A := A)) :
  entries_ok (seq_b m) (b2j m) ->
  (exists r,
      gmb_loop eqb m (gmb_fuel m)
        [(0, Z.of_nat (List.length (seq_a m)), 0,
          Z.of_nat (List.length (seq_b m)))] [] = Some r)
  /\ good_blocks (seq_a m) (seq_b m) 0 0 (get_matching_blocks eqb m).
Proof.
  intros Hm.
  destruct (gmb_loop_ok m Hm (gmb_fuel m)
              [(0, Z.of_nat (List.length (seq_a m)), 0,
                Z.of_nat (List.length (seq_b m)))] [])
    as [r [Hr Hinv]].
  - split; [|split].
    + constructor; [|constructor]. unfold region_wf. lia.
    + constructor.
    + simpl. constructor; constructor.
  - unfold gmb_fuel. rewrite queue_measure_cons, Z.sub_0_r, Nat2Z.id.
    change (queue_measure []) with 0%nat. lia.
  - split; [now exists r|].
    unfold get_matching_blocks. rewrite Hr.
    destruct Hinv as (_ & Hok & Hp). rewrite app_nil_r in Hp.
    assert (Hpos : Forall (fun y => 0 < snd y) r).
    { eapply Forall_impl; [|exact Hok]. now intros x [H _]. }
    pose proof (sort_chain r Hpos Hp) as Hs.
    pose proof (sort_forall _ _ Hok) as Hok'.
    destruct (collapse_ok _ _ _ Hs Hok') as [Hc Hcok].
    apply good_blocks_of_chain; try assumption; try lia.
    eapply Forall_impl; [|exact Hcok].
    intros [[xi xj] xk] [_ Hin]. unfold block_in in Hin. simpl. lia.
Qed.

End MatcherFacts.

(** ** Deltas and what [restore] recovers from them *)

Lemma substring_0_0 (s : string) : substring 0 0 s = "".
Proof. now destruct s. Qed.

Lemma substring_all (s : string) : substring 0 (String.length s) s = s.
Proof. induction s as [|c s IH]; simpl; [reflexivity|now rewrite IH]. Qed.

Lemma restore_app (x y : list string) (which : Z) :
  restore (x ++ y) which = restore x which ++ restore y which.
Proof. unfold restore. apply flat_map_app. Qed.

Lemma restore_cons (c1 c2 : ascii) (line : string) (delta : list string)
  (which : Z) :
  restore (String c1 (String c2 line) :: delta) which
  = (if String.eqb (String c1 (String c2 "")) "  "
        || String.eqb (String c1 (String c2 ""))
             (if which =? 1 then "- " else "+ ")
     then [line] else [])
    ++ restore delta which.
Proof.
  unfold restore. cbn [flat_map substring String.length Nat.sub].
  now rewrite substring_0_0, Nat.sub_0_r, substring_all.
Qed.

Lemma restore_removed (lines : list string) :
  restore (map (fun line => String "-" (String " " line)) lines) 1 = lines
  /\ restore (map (fun line => String "-" (String " " line)) lines) 2 = [].
Proof.
  induction lines as [|l lines [IH1 IH2]]; [split; reflexivity|].
  cbn [map]. rewrite !restore_cons, IH1, IH2. split; reflexivity.
Qed.

Lemma restore_added (lines : list string) :
  restore (map (fun line => String "+" (String " " line)) lines) 1 = []
  /\ restore (map (fun line => String "+" (String " " line)) lines) 2 = lines.
Proof.
  induction lines as [|l lines [IH1 IH2]]; [split; reflexivity|].
  cbn [map]. rewrite !restore_cons, IH1, IH2. split; reflexivity.
Qed.

Lemma restore_unchanged (lines : list string) :
  restore (map (fun line => String " " (String " " line)) lines) 1 = lines
  /\ restore (map (fun line => String " " (String " " line)) lines) 2 = lines.
Proof.
  induction lines as [|l lines [IH1 IH2]]; [split; reflexivity|].
  cbn [map]. rewrite !restore_cons, IH1, IH2. split; reflexivity.
Qed.

Lemma dump_lines (tg : string) (x : list string) (hi : Z) :
  hi <= Z.of_nat (List.length x) ->
  forall (n : nat) (lo : Z),
    n = Z.to_nat (hi - lo) -> 0 <= lo ->
    dump tg x lo hi
    = map (fun line => (tg ++ " " ++ line)%string) (slice x lo hi).
Proof.
  intros Hhi. unfold dump.
  induction n as [|n IH]; intros lo Hn Hlo.
  - rewrite range_nil, slice_nil by lia. reflexivity.
  - rewrite range_cons by lia. cbn [flat_map].
    destruct (getitem_in_range x lo) as [line Hline]; [lia|].
    rewrite Hline, (slice_cons x lo hi line) by (assumption || lia).
    cbn [map app]. f_equal. apply IH; lia.
Qed.

Lemma dump_removed (x : list string) (lo hi : Z) :
  0 <= lo -> hi <= Z.of_nat (List.length x) ->
  restore (dump "-" x lo hi) 1 = slice x lo hi
  /\ restore (dump "-" x lo hi) 2 = [].
Proof.
  intros H1 H2. rewrite (dump_lines "-" x hi H2 _ lo eq_refl H1).
  apply restore_removed.
Qed.

Lemma dump_added (x : list string) (lo hi : Z) :
  0 <= lo -> hi <= Z.of_nat (List.length x) ->
  restore (dump "+" x lo hi) 1 = []
  /\ restore (dump "+" x lo hi) 2 = slice x lo hi.
Proof.
  intros H1 H2. rewrite (dump_lines "+" x hi H2 _ lo eq_refl H1).
  apply restore_added.
Qed.

Lemma dump_unchanged (x : list string) (lo hi : Z) :
  0 <= lo -> hi <= Z.of_nat (List.length x) ->
  restore (dump " " x lo hi) 1 = slice x lo hi
  /\ restore (dump " " x lo hi) 2 = slice x lo hi.
Proof.
  intros H1 H2. rewrite (dump_lines " " x hi H2 _ lo eq_refl H1).
  apply restore_unchanged.
Qed.

Lemma match_ok_slices {A : Type} (a b : list A) (n : nat) :
  forall i j : Z,
    0 <= i -> 0 <= j -> match_ok a b i j (Z.of_nat n) ->
    slice a i (i + Z.of_nat n) = slice b j (j + Z.of_nat n).
Proof.
  induction n as [|n IH]; intros i j Hi Hj H.
  - rewrite !slice_nil by lia. reflexivity.
  - destruct (H 0) as [x [Hx1 Hx2]]; [lia|].
    rewrite Z.add_0_r in Hx1, Hx2.
    rewrite (slice_cons a i _ x), (slice_cons b j _ x)
      by (assumption || lia).
    f_equal.
    replace (i + Z.of_nat (S n)) with (i + 1 + Z.of_nat n) by lia.
    replace (j + Z.of_nat (S n)) with (j + 1 + Z.of_nat n) by lia.
    apply IH; [lia|lia|]. intros t Ht.
    destruct (H (t + 1)) as [y [Hy1 Hy2]]; [lia|]. exists y.
    replace (i + 1 + t) with (i + (t + 1)) by lia.
    replace (j + 1 + t) with (j + (t + 1)) by lia. auto.
Qed.

Lemma qformat_restore (aline bline atags btags : string) :
  restore (qformat aline bline atags btags) 1 = [aline]
  /\ restore (qformat aline bline atags btags) 2 = [bline].
Proof.
  unfold qformat.
  destruct (String.eqb (rstrip (keep_original_ws aline atags)) "");
    destruct (String.eqb (rstrip (keep_original_ws bline btags)) "");
    cbn [app append]; rewrite !restore_cons; split; reflexivity.
Qed.

(** ** [_fancy_replace] *)

Lemma search_step_inv (a b : list string) (alo ahi blo bhi i j : Z)
  (st : search_state) :
  alo <= i < ahi -> blo <= j < bhi ->
  search_inv a b alo ahi blo bhi st ->
  search_inv a b alo ahi blo bhi (search_step a b j st i).
Proof.
  intros Hi Hj. destruct st as [[best_ratio best] eqij].
  unfold search_inv, search_step. intros (H1 & H2 & H3).
  destruct (getitem a i) as [ai|] eqn:Ea; [|auto].
  destruct (getitem b j) as [bj|] eqn:Eb; [|auto].
  destruct (String.eqb ai bj) eqn:E.
  - apply String.eqb_eq in E. subst bj.
    split; [exact H1|]. split; [exact H2|].
    destruct eqij as [[ei ej]|]; [exact H3|].
    intros ei ej H. injection H as <- <-.
    split; [lia|]. split; [lia|]. now exists ai.
  - destruct (Qgtb (real_quick_ratio (char_cruncher ai bj)) best_ratio);
      [|auto].
    destruct (Qgtb (quick_ratio Ascii.eqb (char_cruncher ai bj)) best_ratio);
      [|auto].
    destruct (Qgtb (ratio Ascii.eqb (char_cruncher ai bj)) best_ratio);
      [|auto].
    split; [discriminate|]. split; [|exact H3].
    intros bi bj' H. injection H as <- <-. lia.
Qed.

Lemma search_ok (a b : list string) (alo ahi blo bhi : Z) :
  search_inv a b alo ahi blo bhi (search a alo ahi b blo bhi).
Proof.
  unfold search.
  apply (fold_left_inv (search_inv a b alo ahi blo bhi)).
  - intros st j Hj Hst. apply in_range in Hj.
    apply (fold_left_inv (search_inv a b alo ahi blo bhi)); [|exact Hst].
    intros st' i Hi Hst'. apply in_range in Hi.
    now apply search_step_inv.
  - unfold search_inv. split; [reflexivity|]. split; discriminate.
Qed.

Lemma plain_replace_restore (a b : list string) (alo ahi blo bhi : Z) :
  0 <= alo -> ahi <= Z.of_nat (List.length a) ->
  0 <= blo -> bhi <= Z.of_nat (List.length b) ->
  restore (plain_replace a alo ahi b blo bhi) 1 = slice a alo ahi
  /\ restore (plain_replace a alo ahi b blo bhi) 2 = slice b blo bhi.
Proof.
  intros H1 H2 H3 H4. unfold plain_replace.
  destruct (dump_removed a alo ahi H1 H2) as [R1 R2].
  destruct (dump_added b blo bhi H3 H4) as [A1 A2].
  destruct (bhi - blo <? ahi - alo); rewrite !restore_app, R1, R2, A1, A2;
    rewrite ?app_nil_r; split; reflexivity.
Qed.

Lemma synch_lines_restore (a b : list string) (best_i best_j : Z)
  (identical : bool) (aelt belt : string) :
  getitem a best_i = Some aelt -> getitem b best_j = Some belt ->
  (identical = true -> aelt = belt) ->
  restore (synch_lines a b best_i best_j identical) 1 = [aelt]
  /\ restore (synch_lines a b best_i best_j identical) 2 = [belt].
Proof.
  intros Ha Hb Hid. unfold synch_lines. rewrite Ha, Hb.
  destruct identical.
  - rewrite <- (Hid eq_refl). cbn [append]. rewrite !restore_cons.
    split; reflexivity.
  - destruct (intraline_tags aelt belt) as [atags btags].
    apply qformat_restore.
Qed.

(** [_fancy_replace] returns, and its lines restore to the two blocks of
    lines it is given. *)
Lemma fancy_replace_ok (a b : list string) :
  forall (fuel : nat) (alo ahi blo bhi : Z),
    0 <= alo -> alo < ahi -> ahi <= Z.of_nat (List.length a) ->
    0 <= blo -> blo < bhi -> bhi <= Z.of_nat (List.length b) ->
    (Z.to_nat (ahi - alo) <= fuel)%nat ->
    exists out,
      fancy_replace fuel a alo ahi b blo bhi = Some out
      /\ restore out 1 = slice a alo ahi
      /\ restore out 2 = slice b blo bhi.
Proof.
  induction fuel as [|fuel IH]; intros alo ahi blo bhi A1 A2 A3 B1 B2 B3 Hf;
    [lia|].
  assert (Hhelper : forall lo hi lo' hi',
             0 <= lo -> lo <= hi -> hi <= Z.of_nat (List.length a) ->
             0 <= lo' -> lo' <= hi' -> hi' <= Z.of_nat (List.length b) ->
             (Z.to_nat (hi - lo) <= fuel)%nat ->
             exists out,
               (if lo <? hi
                then if lo' <? hi' then fancy_replace fuel a lo hi b lo' hi'
                     else Some (dump "-" a lo hi)
                else if lo' <? hi' then Some (dump "+" b lo' hi')
                     else Some []) = Some out
               /\ restore out 1 = slice a lo hi
               /\ restore out 2 = slice b lo' hi').
  { intros lo hi lo' hi' L1 L2 L3 L4 L5 L6 L7.
    destruct (Z.ltb_spec lo hi); destruct (Z.ltb_spec lo' hi').
    - now apply IH.
    - exists (dump "-" a lo hi). split; [reflexivity|].
      rewrite (slice_nil b lo' hi') by lia. now apply dump_removed.
    - exists (dump "+" b lo' hi'). split; [reflexivity|].
      rewrite (slice_nil a lo hi) by lia. now apply dump_added.
    - exists []. rewrite !slice_nil by lia. repeat split. }
  cbn [fancy_replace].
  pose proof (search_ok a b alo ahi blo bhi) as Hs.
  destruct (search a alo ahi b blo bhi) as [[best_ratio best] eqij].
  unfold search_inv in Hs. destruct Hs as (S1 & S2 & S3).
  set (close := negb (Qltb best_ratio (75 # 100)%Q)).
  assert (Hsync : forall best_i best_j,
             alo <= best_i < ahi -> blo <= best_j < bhi ->
             (negb close = true ->
              exists x, getitem a best_i = Some x
                        /\ getitem b best_j = Some x) ->
             exists out,
               match
                 (if alo <? best_i
                  then if blo <? best_j
                       then fancy_replace fuel a alo best_i b blo best_j
                       else Some (dump "-" a alo best_i)
                  else if blo <? best_j then Some (dump "+" b blo best_j)
                       else Some []),
                 (if best_i + 1 <? ahi
                  then if best_j + 1 <? bhi
                       then fancy_replace fuel a (best_i + 1) ahi b
                              (best_j + 1) bhi
                       else Some (dump "-" a (best_i + 1) ahi)
                  else if best_j + 1 <? bhi
                       then Some (dump "+" b (best_j + 1) bhi)
                       else Some [])
               with
               | Some before, Some after =>
                   Some (before
                         ++ synch_lines a b best_i best_j (negb close)
                         ++ after)
               | _, _ => None
               end = Some out
               /\ restore out 1 = slice a alo ahi
               /\ restore out 2 = slice b blo bhi).
  { intros best_i best_j Hi Hj Hid.
    destruct (Hhelper alo best_i blo best_j) as [o1 [E1 [P1 Q1]]];
      try lia.
    destruct (Hhelper (best_i + 1) ahi (best_j + 1) bhi)
      as [o2 [E2 [P2 Q2]]]; try lia.
    rewrite E1, E2. eexists. split; [reflexivity|].
    destruct (getitem_in_range a best_i) as [aelt Ha]; [lia|].
    destruct (getitem_in_range b best_j) as [belt Hb]; [lia|].
    destruct (synch_lines_restore a b best_i best_j (negb close) aelt belt
                Ha Hb) as [P3 Q3].
    { intros Hc. destruct (Hid Hc) as [x [Hx1 Hx2]]. congruence. }
    rewrite !restore_app, P1, P2, P3, Q1, Q2, Q3.
    rewrite <- (slice_app a alo best_i ahi) by lia.
    rewrite <- (slice_app b blo best_j bhi) by lia.
    rewrite (slice_cons a best_i ahi aelt) by (assumption || lia).
    rewrite (slice_cons b best_j bhi belt) by (assumption || lia).
    split; reflexivity. }
  destruct close eqn:Ec.
  - destruct best as [[best_i best_j]|].
    + destruct (S2 _ _ eq_refl) as [Hi Hj].
      apply Hsync; [exact Hi|exact Hj|discriminate].
    + exfalso. unfold close in Ec. rewrite (S1 eq_refl) in Ec.
      vm_compute in Ec. discriminate.
  - destruct eqij as [[eqi eqj]|].
    + destruct (S3 _ _ eq_refl) as (Hi & Hj & Hx).
      apply Hsync; [exact Hi|exact Hj|intros _; exact Hx].
    + eexists. split; [reflexivity|].
      apply plain_replace_restore; lia.
Qed.

(** ** [Differ.compare] and [ndiff] *)

Lemma good_blocks_bounds {A : Type} (a b : list A) (i j : Z)
  (blocks : list block) :
  good_blocks a b i j blocks ->
  0 <= i <= Z.of_nat (List.length a) /\ 0 <= j <= Z.of_nat (List.length b).
Proof. induction 1; lia. Qed.

(** The opcode that [get_opcodes] emits for the gap between the current
    position and the next matching block restores to that gap. *)
Lemma gap_restore (a b : list string) (i j ai bj : Z) (answer : list opcode) :
  0 <= i <= ai -> ai <= Z.of_nat (List.length a) ->
  0 <= j <= bj -> bj <= Z.of_nat (List.length b) ->
  let answer1 :=
    if (i <? ai) && (j <? bj) then answer ++ [(Replace, i, ai, j, bj)]
    else if i <? ai then answer ++ [(Delete, i, ai, j, bj)]
    else if j <? bj then answer ++ [(Insert, i, ai, j, bj)]
    else answer in
  restore (flat_map (compare_opcode a b) answer1) 1
  = restore (flat_map (compare_opcode a b) answer) 1 ++ slice a i ai
  /\ restore (flat_map (compare_opcode a b) answer1) 2
     = restore (flat_map (compare_opcode a b) answer) 2 ++ slice b j bj.
Proof.
  intros Hi Hai Hj Hbj answer1. unfold answer1.
  destruct (Z.ltb_spec i ai) as [Ha|Ha];
    destruct (Z.ltb_spec j bj) as [Hb|Hb]; cbn [andb].
  - rewrite flat_map_app, !restore_app. cbn [flat_map compare_opcode].
    destruct (fancy_replace_ok a b (Z.to_nat (ai - i)) i ai j bj)
      as [out [E [P Q]]]; try lia.
    rewrite E, app_nil_r, P, Q. split; reflexivity.
  - rewrite flat_map_app, !restore_app. cbn [flat_map compare_opcode].
    rewrite app_nil_r, (slice_nil b j bj) by lia.
    destruct (dump_removed a i ai) as [P Q]; [lia|lia|].
    rewrite P, Q. split; reflexivity.
  - rewrite flat_map_app, !restore_app. cbn [flat_map compare_opcode].
    rewrite app_nil_r, (slice_nil a i ai) by lia.
    destruct (dump_added b j bj) as [P Q]; [lia|lia|].
    rewrite P, Q. split; reflexivity.
  - rewrite !slice_nil, !app_nil_r by lia. split; reflexivity.
Qed.

Lemma opcodes_restore (a b : list string) (i j : Z) (blocks : list block) :
  good_blocks a b i j blocks ->
  forall answer : list opcode,
    restore
      (flat_map (compare_opcode a b)
         (snd (fold_left opcodes_step blocks (i, j, answer)))) 1
    = restore (flat_map (compare_opcode a b) answer) 1
      ++ slice a i (Z.of_nat (List.length a))
    /\ restore
         (flat_map (compare_opcode a b)
            (snd (fold_left opcodes_step blocks (i, j, answer)))) 2
       = restore (flat_map (compare_opcode a b) answer) 2
         ++ slice b j (Z.of_nat (List.length b)).
Proof.
  induction 1 as [i j Hi Hj|i j ai bj size rest Hi Hj Hsize Hm Hrest IH];
    intros answer.
  - cbn [fold_left opcodes_step snd Z.eqb]. apply gap_restore; lia.
  - cbn [fold_left opcodes_step].
    destruct (Z.eqb_spec size 0) as [E|_]; [lia|].
    pose proof (good_blocks_bounds _ _ _ _ _ Hrest) as [Ba Bb].
    match goal with
    | |- context [fold_left opcodes_step rest (_, _, ?x ++ _)] =>
        set (answer1 := x)
    end.
    destruct (IH (answer1 ++ [(Equal, ai, ai + size, bj, bj + size)]))
      as [P Q].
    rewrite P, Q. clear P Q.
    rewrite flat_map_app, !restore_app. cbn [flat_map compare_opcode].
    rewrite app_nil_r.
    destruct (dump_unchanged a ai (ai + size)) as [U1 U2]; [lia|lia|].
    rewrite U1, U2.
    destruct (gap_restore a b i j ai bj answer) as [G1 G2]; try lia.
    fold answer1 in G1, G2. rewrite G1, G2.
    assert (Es : slice a ai (ai + size) = slice b bj (bj + size)).
    { replace size with (Z.of_nat (Z.to_nat size)) by lia.
      apply match_ok_slices; [lia|lia|].
      now replace (Z.of_nat (Z.to_nat size)) with size by lia. }
    split.
    + rewrite <- !app_assoc. f_equal.
      rewrite (slice_app a ai) by lia. apply slice_app; lia.
    + rewrite Es, <- !app_assoc. f_equal.
      rewrite (slice_app b bj) by lia. apply slice_app; lia.
Qed.

(** The queue loops of the two matchers that [ndiff] builds empty their
    queues within [gmb_fuel] pops. *)
Lemma gmb_loop_total :
  (forall a b : list string,
      let m := line_cruncher a b in
      exists r,
        gmb_loop String.eqb m (gmb_fuel m)
          [(0, Z.of_nat (List.length (seq_a m)), 0,
            Z.of_nat (List.length (seq_b m)))] [] = Some r)
  /\ (forall ai bj : string,
         let m := char_cruncher ai bj in
         exists r,
           gmb_loop Ascii.eqb m (gmb_fuel m)
             [(0, Z.of_nat (List.length (seq_a m)), 0,
               Z.of_nat (List.length (seq_b m)))] [] = Some r).
Proof.
  split.
  - intros a b m.
    apply (get_matching_blocks_ok String.eqb
             (fun x y => proj1 (String.eqb_eq x y)) m).
    apply (set_seqs_ok String.eqb (fun x y => proj1 (String.eqb_eq x y))).
  - intros ai bj m.
    apply (get_matching_blocks_ok Ascii.eqb
             (fun x y => proj1 (Ascii.eqb_eq x y)) m).
    apply (set_seqs_ok Ascii.eqb (fun x y => proj1 (Ascii.eqb_eq x y))).
Qed.

(** Each replace opcode of [Differ.compare] gets its lines from
    [_fancy_replace]. *)
Lemma fancy_replace_total (a b : list string) (alo ahi blo bhi : Z) :
  0 <= alo -> alo < ahi -> ahi <= Z.of_nat (List.length a) ->
  0 <= blo -> blo < bhi -> bhi <= Z.of_nat (List.length b) ->
  exists out,
    fancy_replace (Z.to_nat (ahi - alo)) a alo ahi b blo bhi = Some out.
Proof.
  intros.
  destruct (fancy_replace_ok a b (Z.to_nat (ahi - alo)) alo ahi blo bhi)
    as [out [E _]]; try lia.
  now exists out.
Qed.

(** [restore] recovers both sequences from the delta of [ndiff]. *)
Lemma ndiff_restore (a b : list string) :
  restore (ndiff a b) 1 = a /\ restore (ndiff a b) 2 = b.
Proof.
  unfold ndiff, compare, get_opcodes, opcodes_of.
  pose proof (set_seqs_ok String.eqb
                (fun x y => proj1 (String.eqb_eq x y)) None a b)
    as (Ea & Eb & Hm).
  fold (line_cruncher a b) in Ea, Eb, Hm.
  pose proof (get_matching_blocks_ok String.eqb
                (fun x y => proj1 (String.eqb_eq x y)) (line_cruncher a b))
    as [_ Hg].
  { now rewrite Eb. }
  rewrite Ea, Eb in Hg.
  destruct (opcodes_restore a b 0 0 _ Hg []) as [P Q].
  rewrite P, Q. cbn [flat_map]. rewrite !slice_all. split; reflexivity.
Qed.

(** ** Text differences *)

(** C4, as the code has it. For slides whose texts differ, the diff
    entry holds the delta of [ndiff] over the lines of the two texts. Its
    entries marked ["  "] or ["- "], without their marks, are the lines of
    the first text in order, and those marked ["  "] or ["+ "] are the
    lines of the second; the entries marked ["? "] belong to neither. *)
Theorem text_diff_restores (slide1 slide2 : slide_content) :
  text_content slide1 <> text_content slide2 ->
  exists delta,
    text_diff (compare_slide slide1 slide2) = Some delta
    /\ has_text_diff (compare_slide slide1 slide2) = true
    /\ delta = ndiff (splitlines (text_content slide1))
                 (splitlines (text_content slide2))
    /\ restore delta 1 = splitlines (text_content slide1)
    /\ restore delta 2 = splitlines (text_content slide2).
Proof.
  intros Hne.
  assert (E : String.eqb (text_content slide1) (text_content slide2) = false)
    by now apply String.eqb_neq.
  exists (ndiff (splitlines (text_content slide1))
            (splitlines (text_content slide2))).
  unfold compare_slide; simpl. rewrite E. simpl.
  repeat split; try reflexivity; apply ndiff_restore.
Qed.

(* ================================================================== *)
(** * Further properties of the comparator *)
(* ================================================================== *)

(** ** Counters and entries of the loop *)

Lemma record_slide_counts (st : loop_state) (d : slide_differences) :
  text_diff_count (record_slide st d)
  = (text_diff_count st + if has_text_diff d then 1 else 0)%nat
  /\ image_diff_count (record_slide st d)
     = (image_diff_count st + if has_image_diff d then 1 else 0)%nat.
Proof.
  unfold record_slide.
  destruct (has_text_diff d); destruct (has_image_diff d); simpl; lia.
Qed.

Lemma filter_flags_cons (d : slide_differences) (l : list slide_differences) :
  List.length (filter has_text_diff (filter slide_differs (d :: l)))
  = ((if has_text_diff d then 1 else 0)
     + List.length (filter has_text_diff (filter slide_differs l)))%nat
  /\ List.length (filter has_image_diff (filter slide_differs (d :: l)))
     = ((if has_image_diff d then 1 else 0)
        + List.length (filter has_image_diff (filter slide_differs l)))%nat.
Proof.
  assert (Hs : slide_differs d = has_text_diff d || has_image_diff d)
    by reflexivity.
  cbn [filter]. rewrite Hs.
  destruct (has_text_diff d) eqn:Et; destruct (has_image_diff d) eqn:Ei;
    cbn [orb filter]; rewrite ?Et, ?Ei; split; reflexivity.
Qed.

Lemma loop_from_text_count (pairs : list (slide_content * slide_content))
  (st : loop_state) :
  text_diff_count (loop_from st pairs)
  = (text_diff_count st
     + List.length
         (filter has_text_diff
            (filter slide_differs
               (map (fun p => compare_slide (fst p) (snd p)) pairs))))%nat.
Proof.
  revert st. induction pairs as [|p pairs IH]; intros st.
  - simpl. lia.
  - unfold loop_from in *. cbn [fold_left map]. rewrite IH.
    rewrite (proj1 (record_slide_counts _ _)), (proj1 (filter_flags_cons _ _)).
    lia.
Qed.

Lemma loop_from_image_count (pairs : list (slide_content * slide_content))
  (st : loop_state) :
  image_diff_count (loop_from st pairs)
  = (image_diff_count st
     + List.length
         (filter has_image_diff
            (filter slide_differs
               (map (fun p => compare_slide (fst p) (snd p)) pairs))))%nat.
Proof.
  revert st. induction pairs as [|p pairs IH]; intros st.
  - simpl. lia.
  - unfold loop_from in *. cbn [fold_left map]. rewrite IH.
    rewrite (proj2 (record_slide_counts _ _)), (proj2 (filter_flags_cons _ _)).
    lia.
Qed.

Lemma extra_of_length (A B : list slide_content) :
  (Nat.min (List.length A) (List.length B) + List.length (extra_of A B)
   = Nat.max (List.length A) (List.length B))%nat.
Proof.
  unfold extra_of.
  destruct (Nat.ltb_spec (List.length B) (List.length A)).
  - rewrite length_map, length_skipn. lia.
  - destruct (Nat.ltb_spec (List.length A) (List.length B)).
    + rewrite length_map, length_skipn. lia.
    + simpl. lia.
Qed.

(** X1. The counters of the loop add up: every compared slide is either
    counted identical or has a diff entry, the two diff counters count the
    entries with a text diff and with an image diff, and with the extra
    slides every slide of the longer deck is accounted for. *)
Theorem counters_add_up (A B : list slide_content) :
  exists st,
    compare_loop A B = ret st
    /\ (identical_count st + List.length (ls_differences st)
        = Nat.min (List.length A) (List.length B))%nat
    /\ text_diff_count st
       = List.length (filter has_text_diff (ls_differences st))
    /\ image_diff_count st
       = List.length (filter has_image_diff (ls_differences st))
    /\ (List.length (ls_differences st)
        <= text_diff_count st + image_diff_count st)%nat
    /\ (identical_count st + List.length (ls_differences st)
        + List.length (extra_of A B)
        = Nat.max (List.length A) (List.length B))%nat.
Proof.
  exists (loop_from initial_state (combine A B)).
  split; [apply compare_loop_ret|].
  pose proof (loop_from_identical_count (combine A B) initial_state) as Hc.
  rewrite length_combine, loop_from_differences in Hc. simpl in Hc.
  pose proof (extra_of_length A B) as He.
  rewrite loop_from_text_count, loop_from_image_count, loop_from_differences.
  simpl ls_differences. simpl text_diff_count. simpl image_diff_count.
  simpl app. simpl Nat.add.
  repeat split; try lia.
  set (l := map (fun p => compare_slide (fst p) (snd p)) (combine A B)).
  clearbody l. clear. induction l as [|d l IH]; [simpl; lia|].
  destruct (filter_flags_cons d l) as [-> ->].
  assert (Hs : slide_differs d = has_text_diff d || has_image_diff d)
    by reflexivity.
  cbn [filter]. rewrite Hs.
  destruct (has_text_diff d); destruct (has_image_diff d);
    cbn [orb List.length]; lia.
Qed.

Lemma compare_slide_entry_ok (X Y : slide_content) :
  slide_differs (compare_slide X Y) = true -> entry_ok (compare_slide X Y).
Proof.
  unfold slide_differs, entry_ok, compare_slide; simpl. intros H.
  split; [now apply orb_prop|].
  destruct (negb (String.eqb (text_content X) (text_content Y)));
    (split; [repeat split; discriminate || reflexivity|]);
    (split;
     [destruct (nonempty _ || nonempty _ || _);
      repeat split; discriminate || reflexivity|]);
    destruct (List.length (images X) =? List.length (images Y))%nat;
    reflexivity.
Qed.

Lemma differences_entries (A B : list slide_content) (d : slide_differences) :
  In d (ls_differences (loop_from initial_state (combine A B))) <->
  exists i X Y,
    nth_error A i = Some X /\ nth_error B i = Some Y
    /\ d = compare_slide X Y /\ slide_differs d = true.
Proof.
  rewrite loop_from_differences. simpl. rewrite filter_In, in_map_iff. split.
  - intros [[[X Y] [<- Hin]] Hd]. simpl in *.
    apply (In_nth_error (combine A B)) in Hin. destruct Hin as [i Hi].
    exists i, X, Y.
    assert (G : forall (A B : list slide_content) i,
               nth_error (combine A B) i = Some (X, Y) ->
               nth_error A i = Some X /\ nth_error B i = Some Y).
    { clear. induction A as [|a A IH]; intros [|b B] [|i] H; simpl in *;
        try discriminate.
      - injection H as -> ->. auto.
      - now apply IH. }
    destruct (G A B i Hi). auto.
  - intros (i & X & Y & HA & HB & -> & Hd). split; [|exact Hd].
    exists (X, Y). split; [reflexivity|].
    eapply in_combine_nth_error; eassumption.
Qed.

(** X2. Every diff entry describes the two slides of one position: it is
    the comparison of slide [i] of the first deck with slide [i] of the
    second, it has a text diff or an image diff, and the keys the page
    reads under each flag are present exactly under that flag. Every
    position whose slides differ has its entry. *)
Theorem diff_entries_are_positional (A B : list slide_content) :
  exists st,
    compare_loop A B = ret st
    /\ (forall d,
           In d (ls_differences st) <->
           exists i X Y,
             nth_error A i = Some X /\ nth_error B i = Some Y
             /\ d = compare_slide X Y /\ slide_differs d = true)
    /\ Forall entry_ok (ls_differences st)
    /\ Forall (fun d => image_count1 d <> image_count2 d
                        -> has_image_diff d = true)
         (ls_differences st).
Proof.
  exists (loop_from initial_state (combine A B)).
  split; [apply compare_loop_ret|].
  split; [intros d; apply differences_entries|].
  split; apply Forall_forall; intros d Hd;
    apply differences_entries in Hd;
    destruct Hd as (i & X & Y & _ & _ & -> & Hd).
  - now apply compare_slide_entry_ok.
  - unfold compare_slide; simpl. intros Hne.
    apply Nat.eqb_neq in Hne. rewrite Hne. apply orb_true_r.
Qed.

(** ** The image dicts *)

Lemma dict_mem_keys {V : Type} (d : list (string * V)) (h : string) :
  dict_mem String.eqb d h = true <-> In h (map fst d).
Proof.
  unfold dict_mem. induction d as [|[k v] d IH]; simpl.
  - split; [discriminate|contradiction].
  - destruct (String.eqb_spec k h) as [->|Hne].
    + split; auto.
    + rewrite IH. split; [auto|]. intros [H|H]; [contradiction|exact H].
Qed.

Lemma dict_set_keys {V : Type} (d : list (string * V)) (k h : string)
  (v : V) :
  In h (map fst (dict_set String.eqb d k v)) <-> In h (map fst d) \/ h = k.
Proof.
  induction d as [|[k' v'] d IH]; simpl.
  - split; [intros [H|[]]; auto|intros [[]|H]; auto].
  - destruct (String.eqb_spec k' k) as [->|Hne]; simpl.
    + split; [tauto|]. intros [H|H]; [exact H|]. left. congruence.
    + rewrite IH. tauto.
Qed.

Lemma dict_set_nodup {V : Type} (d : list (string * V)) (k : string) (v : V) :
  NoDup (map fst d) -> NoDup (map fst (dict_set String.eqb d k v)).
Proof.
  induction d as [|[k' v'] d IH]; simpl; intros H.
  - constructor; [intros []|constructor].
  - inversion H as [|? ? Hnot Hd]; subst.
    destruct (String.eqb_spec k' k) as [->|Hne]; simpl.
    + now constructor.
    + constructor; [|now apply IH].
      rewrite dict_set_keys. intros [Hin|Heq]; [contradiction|congruence].
Qed.

Lemma dict_set_in {V : Type} (d : list (string * V)) (k h : string)
  (v r : V) :
  NoDup (map fst d) ->
  In (h, r) (dict_set String.eqb d k v) ->
  (h = k /\ r = v) \/ (In (h, r) d /\ h <> k).
Proof.
  induction d as [|[k' v'] d IH]; simpl; intros Hnd.
  - intros [H|[]]. injection H as <- <-. now left.
  - inversion Hnd as [|? ? Hnot Hd]; subst.
    destruct (String.eqb_spec k' k) as [->|Hne]; simpl.
    + intros [H|H].
      * injection H as <- <-. now left.
      * right. split; [now right|]. intros ->. apply Hnot.
        now apply (in_map fst) in H.
    + intros [H|H].
      * injection H as <- <-. right. split; [now left|exact Hne].
      * destruct (IH Hd H) as [Hl|[Hr1 Hr2]]; [now left|].
        right. split; [now right|exact Hr2].
Qed.

Lemma hashes_inv_step (done : list image_record)
  (d : list (string * image_record)) (x : image_record) :
  hashes_inv done d ->
  hashes_inv (done ++ [x]) (dict_set String.eqb d (img_hash x) x).
Proof.
  intros (Hnd & Hkeys & Hent). split; [|split].
  - now apply dict_set_nodup.
  - intros h. rewrite dict_set_keys, Hkeys, map_app, in_app_iff. simpl.
    intuition congruence.
  - intros h r Hin. apply dict_set_in in Hin; [|exact Hnd].
    destruct Hin as [[-> ->]|[Hin Hne]].
    + split; [reflexivity|]. exists done, []. split; [reflexivity|].
      intros [].
    + destruct (Hent h r Hin) as [Hh (l1 & l2 & -> & Hl2)].
      split; [exact Hh|]. exists l1, (l2 ++ [x]).
      split; [now rewrite <- app_assoc|].
      rewrite map_app, in_app_iff. simpl. intuition congruence.
Qed.

Lemma image_hashes_from (imgs done : list image_record)
  (d : list (string * image_record)) :
  hashes_inv done d ->
  hashes_inv (done ++ imgs)
    (fold_left (fun d img => dict_set String.eqb d (img_hash img) img)
       imgs d).
Proof.
  revert done d. induction imgs as [|x imgs IH]; intros done d H; simpl.
  - now rewrite app_nil_r.
  - replace (done ++ x :: imgs) with ((done ++ [x]) ++ imgs)
      by now rewrite <- app_assoc.
    apply IH. now apply hashes_inv_step.
Qed.

Lemma image_hashes_inv (imgs : list image_record) :
  hashes_inv imgs (image_hashes imgs).
Proof.
  apply (image_hashes_from imgs [] []).
  split; [constructor|]. split; [tauto|intros h r []].
Qed.

Lemma missing_from_in (d1 d2 : list (string * image_record))
  (r : image_record) :
  In r (missing_from d1 d2) <->
  exists h, In (h, r) d1 /\ dict_mem String.eqb d2 h = false.
Proof.
  unfold missing_from. rewrite in_flat_map. split.
  - intros [[h r'] [Hin Hr]]. destruct (dict_mem String.eqb d2 h) eqn:E.
    + contradiction.
    + destruct Hr as [->|[]]. now exists h.
  - intros [h [Hin E]]. exists (h, r). split; [exact Hin|].
    rewrite E. now left.
Qed.

Lemma missing_from_hashes (d1 d2 : list (string * image_record)) :
  (forall h r, In (h, r) d1 -> h = img_hash r) ->
  map img_hash (missing_from d1 d2)
  = filter (fun h => negb (dict_mem String.eqb d2 h)) (map fst d1).
Proof.
  unfold missing_from. induction d1 as [|[h r] d1 IH]; intros H; simpl.
  - reflexivity.
  - rewrite map_app, IH by (intros h' r' Hin; apply H; now right).
    destruct (dict_mem String.eqb d2 h); simpl; [reflexivity|].
    f_equal. symmetry. apply H. now left.
Qed.

Lemma missing_from_nil (imgs1 imgs2 : list image_record) :
  missing_from (image_hashes imgs1) (image_hashes imgs2) = [] <->
  (forall h, In h (map img_hash imgs1) -> In h (map img_hash imgs2)).
Proof.
  destruct (image_hashes_inv imgs1) as (_ & K1 & E1).
  destruct (image_hashes_inv imgs2) as (_ & K2 & _).
  split.
  - intros Hnil h Hh. apply K1 in Hh. apply in_map_iff in Hh.
    destruct Hh as [[h' r] [Hfst Hin]]. simpl in Hfst. subst h'.
    apply K2, dict_mem_keys.
    destruct (dict_mem String.eqb (image_hashes imgs2) h) eqn:E;
      [reflexivity|].
    assert (Hr : In r (missing_from (image_hashes imgs1)
                         (image_hashes imgs2)))
      by (apply missing_from_in; now exists h).
    rewrite Hnil in Hr. contradiction.
  - intros Hsub.
    destruct (missing_from (image_hashes imgs1) (image_hashes imgs2))
      as [|r m] eqn:E; [reflexivity|].
    assert (Hr : In r (missing_from (image_hashes imgs1)
                         (image_hashes imgs2)))
      by (rewrite E; now left).
    apply missing_from_in in Hr. destruct Hr as [h [Hin Hmem]].
    assert (Hk : In h (map fst (image_hashes imgs2))).
    { apply K2, Hsub, K1. now apply (in_map fst) in Hin. }
    apply dict_mem_keys in Hk. congruence.
Qed.

Lemma nonempty_false {T : Type} (l : list T) : nonempty l = false <-> l = [].
Proof. destruct l; simpl; split; congruence. Qed.

(** X3. A slide pair has no image diff exactly when both slides have as
    many images and the same set of image hashes. *)
Theorem no_image_diff_iff (X Y : slide_content) :
  has_image_diff (compare_slide X Y) = false
  <-> List.length (images X) = List.length (images Y)
      /\ (forall h, In h (map img_hash (images X))
                    <-> In h (map img_hash (images Y))).
Proof.
  unfold compare_slide; simpl.
  rewrite !orb_false_iff, !nonempty_false, !missing_from_nil.
  rewrite negb_false_iff, Nat.eqb_eq.
  split.
  - intros [[H1 H2] H3]. split; [exact H3|]. intros h. split; auto.
  - intros [H3 H]. repeat split; try assumption; intros h; apply H.
Qed.

(** X4. The images reported as only in one slide: one record per
    distinct hash of that slide that the other slide lacks, and no other;
    each record is an image of that slide, and of several images with one
    hash it is the last. *)
Theorem unmatched_images (X Y : slide_content) :
  let only_in_X :=
    missing_from (image_hashes (images X)) (image_hashes (images Y)) in
  NoDup (map img_hash only_in_X)
  /\ (forall h, In h (map img_hash only_in_X)
                <-> In h (map img_hash (images X))
                    /\ ~ In h (map img_hash (images Y)))
  /\ (forall r, In r only_in_X ->
        exists l1 l2, images X = l1 ++ r :: l2
                      /\ ~ In (img_hash r) (map img_hash l2))
  /\ (has_image_diff (compare_slide X Y) = true ->
      images_missing_in_ppt2 (compare_slide X Y) = Some only_in_X).
Proof.
  intros only_in_X. unfold only_in_X.
  destruct (image_hashes_inv (images X)) as (N1 & K1 & E1).
  destruct (image_hashes_inv (images Y)) as (_ & K2 & _).
  assert (Hh : map img_hash
                 (missing_from (image_hashes (images X))
                    (image_hashes (images Y)))
               = filter
                   (fun h => negb (dict_mem String.eqb
                                     (image_hashes (images Y)) h))
                   (map fst (image_hashes (images X)))).
  { apply missing_from_hashes. intros h r Hin. now destruct (E1 h r Hin). }
  split; [|split; [|split]].
  - rewrite Hh. now apply NoDup_filter.
  - intros h. rewrite Hh, filter_In, K1, negb_true_iff, <- K2.
    rewrite <- dict_mem_keys.
    destruct (dict_mem String.eqb (image_hashes (images Y)) h);
      intuition congruence.
  - intros r Hr. apply missing_from_in in Hr. destruct Hr as [h [Hin _]].
    destruct (E1 h r Hin) as [-> Hlast]. exact Hlast.
  - intros Hd. unfold compare_slide in *; simpl in *. now rewrite Hd.
Qed.

(** ** Which decks compare as identical *)

Lemma slide_same_iff (X Y : slide_content) :
  slide_differs (compare_slide X Y) = false <-> same_slide X Y.
Proof.
  unfold slide_differs, same_slide, compare_slide; simpl.
  rewrite !orb_false_iff, !nonempty_false, !missing_from_nil.
  rewrite !negb_false_iff, Nat.eqb_eq, String.eqb_eq.
  split.
  - intros [Ht [[H1 H2] H3]]. split; [exact Ht|]. split; [exact H3|].
    intros h. split; auto.
  - intros [Ht [H3 H]]. repeat split; try assumption; intros h; apply H.
Qed.

Lemma filter_nil_iff {T : Type} (f : T -> bool) (l : list T) :
  filter f l = [] <-> Forall (fun x => f x = false) l.
Proof.
  induction l as [|x l IH]; simpl.
  - split; constructor.
  - destruct (f x) eqn:E.
    + split; [discriminate|]. intros H. inversion H; congruence.
    + rewrite IH. split; [now constructor|]. intros H. now inversion H.
Qed.

Lemma Forall_combine_Forall2 {T U : Type} (R : T -> U -> Prop)
  (A : list T) (B : list U) :
  List.length A = List.length B ->
  Forall (fun p => R (fst p) (snd p)) (combine A B) -> Forall2 R A B.
Proof.
  revert B. induction A as [|a A IH]; intros [|b B] Hl H; simpl in *;
    try discriminate; constructor; inversion H; subst; auto.
Qed.

Lemma Forall2_Forall_combine {T U : Type} (R : T -> U -> Prop)
  (A : list T) (B : list U) :
  Forall2 R A B -> Forall (fun p => R (fst p) (snd p)) (combine A B).
Proof. induction 1; simpl; constructor; auto. Qed.

(** X5. Two decks compare as identical exactly when they have as many
    slides and, position by position, the same text, as many images and
    the same set of image hashes. *)
Theorem identical_iff_same_slides (A B : list slide_content) :
  exists r,
    compare_decks A B = ret r
    /\ (identical r = true <-> Forall2 same_slide A B).
Proof.
  unfold compare_decks. rewrite compare_loop_ret. simpl bind at 1.
  rewrite compare_decks_extra. simpl bind.
  rewrite loop_from_differences. simpl app.
  set (ds := filter slide_differs _).
  assert (Hds : ds = [] <->
                Forall (fun p => same_slide (fst p) (snd p)) (combine A B)).
  { unfold ds. rewrite filter_nil_iff, Forall_map.
    split; intros H; eapply Forall_impl; try exact H;
      intros [X Y]; simpl; apply slide_same_iff. }
  destruct (nonempty ds) eqn:En;
    destruct (Nat.eqb_spec (List.length A) (List.length B)) as [El|El];
    simpl; eexists; (split; [reflexivity|]); simpl.
  - split; [discriminate|]. intros H.
    apply Forall2_Forall_combine, Hds in H. rewrite H in En. discriminate.
  - split; [discriminate|]. intros H. apply Forall2_length in H.
    contradiction.
  - split; [|reflexivity]. intros _.
    apply Forall_combine_Forall2; [exact El|].
    apply Hds. now apply nonempty_false.
  - split; [discriminate|]. intros H. apply Forall2_length in H.
    contradiction.
Qed.

(** ** Swapping the two decks *)

Lemma compare_slide_mirrored (X Y : slide_content) :
  mirrored (compare_slide X Y) (compare_slide Y X).
Proof.
  unfold mirrored, compare_slide; simpl.
  rewrite (String.eqb_sym (text_content X)).
  rewrite (Nat.eqb_sym (List.length (images X))).
  rewrite (orb_comm (nonempty (missing_from (image_hashes (images Y))
                                 (image_hashes (images X))))).
  repeat split; reflexivity.
Qed.

Lemma mirrored_differs (d d' : slide_differences) :
  mirrored d d' -> slide_differs d = slide_differs d'.
Proof.
  unfold mirrored, slide_differs. intros (-> & -> & _). reflexivity.
Qed.

Lemma differences_mirrored (A B : list slide_content) :
  Forall2 mirrored
    (filter slide_differs
       (map (fun p => compare_slide (fst p) (snd p)) (combine A B)))
    (filter slide_differs
       (map (fun p => compare_slide (fst p) (snd p)) (combine B A))).
Proof.
  revert B. induction A as [|a A IH]; intros [|b B]; simpl;
    try constructor.
  pose proof (compare_slide_mirrored a b) as Hm.
  rewrite <- (mirrored_differs _ _ Hm).
  destruct (slide_differs (compare_slide a b)); [constructor|]; auto.
Qed.

Lemma mirrored_flag_counts (l l' : list slide_differences) :
  Forall2 mirrored l l' ->
  List.length l = List.length l'
  /\ List.length (filter has_text_diff l)
     = List.length (filter has_text_diff l')
  /\ List.length (filter has_image_diff l)
     = List.length (filter has_image_diff l').
Proof.
  induction 1 as [|d d' l l' Hd _ (IH1 & IH2 & IH3)]; simpl; [auto|].
  destruct Hd as (<- & <- & _).
  destruct (has_text_diff d); destruct (has_image_diff d); simpl; lia.
Qed.

Lemma extra_of_swap (A B : list slide_content) :
  extra_of B A
  = map (fun e => {| ex_slide_number := ex_slide_number e;
                     in_presentation := 3 - in_presentation e;
                     ex_text_content := ex_text_content e;
                     ex_image_count := ex_image_count e |})
      (extra_of A B).
Proof.
  unfold extra_of. rewrite (Nat.min_comm (List.length B)).
  destruct (Nat.ltb_spec (List.length A) (List.length B));
    destruct (Nat.ltb_spec (List.length B) (List.length A));
    try lia; rewrite ?map_map; reflexivity.
Qed.

Lemma differences_numbers (pairs : list (slide_content * slide_content)) :
  map sd_slide_number
    (filter slide_differs
       (map (fun p => compare_slide (fst p) (snd p)) pairs))
  = map slide_number
      (map fst
         (filter (fun p => slide_differs (compare_slide (fst p) (snd p)))
            pairs)).
Proof.
  induction pairs as [|p l IH]; [reflexivity|]. cbn [map filter].
  destruct (slide_differs (compare_slide (fst p) (snd p))); cbn [map];
    now rewrite IH.
Qed.

(** X6. Comparing the decks the other way round gives the same verdict,
    the same summary and counts, diff entries for the same positions with
    the two sides exchanged, and the same extra slides with the other
    owner. *)
Theorem swapping_the_decks (A B : list slide_content) :
  exists r r',
    compare_decks A B = ret r
    /\ compare_decks B A = ret r'
    /\ identical r = identical r'
    /\ summary r = summary r'
    /\ detailed_summary r = detailed_summary r'
    /\ Forall2 mirrored (differences r) (differences r')
    /\ map sd_slide_number (differences r)
       = map slide_number
           (map fst
              (filter (fun p => slide_differs (compare_slide (fst p) (snd p)))
                 (combine A B)))
    /\ extra_slides r'
       = option_map
           (map (fun e => {| ex_slide_number := ex_slide_number e;
                             in_presentation := 3 - in_presentation e;
                             ex_text_content := ex_text_content e;
                             ex_image_count := ex_image_count e |}))
           (extra_slides r).
Proof.
  pose proof (differences_mirrored A B) as Hm.
  pose proof (mirrored_flag_counts _ _ Hm) as (Hl & Ht & Hi).
  pose proof (loop_from_identical_count (combine A B) initial_state) as Hc.
  pose proof (loop_from_identical_count (combine B A) initial_state) as Hc'.
  rewrite length_combine, loop_from_differences in Hc, Hc'.
  simpl in Hc, Hc'.
  assert (Hic : identical_count (loop_from initial_state (combine A B))
                = identical_count (loop_from initial_state (combine B A)))
    by lia.
  pose proof (extra_of_swap A B) as Hex.
  pose proof (differences_numbers (combine A B)) as Hnum.
  unfold compare_decks. rewrite !compare_loop_ret. simpl bind at 1.
  rewrite !compare_decks_extra. simpl bind.
  rewrite !loop_from_text_count, !loop_from_image_count,
    !loop_from_differences.
  simpl app. simpl Nat.add. rewrite <- Hic, <- Ht, <- Hi, <- Hl.
  rewrite (Nat.eqb_sym (List.length B)), (Nat.min_comm (List.length B)).
  destruct (filter slide_differs
              (map (fun p => compare_slide (fst p) (snd p)) (combine A B)))
    as [|d ds] eqn:Ed;
    inversion Hm as [|d1 d1' ds1 ds1' Hd1 Hds1 Eq1 Eq2]; subst;
    simpl nonempty; simpl negb;
    destruct (Nat.eqb_spec (List.length A) (List.length B)) as [El|El];
    simpl; eexists; eexists;
    (split; [reflexivity|]); (split; [reflexivity|]); simpl;
    rewrite ?El, ?Hex; repeat split; auto.
Qed.

(** ** Slide numbers in the result *)

Lemma differences_sorted (k : nat) (A : list slide_content) :
  forall B : list slide_content,
    map slide_number A = seq k (List.length A) ->
    let numbers :=
      map sd_slide_number
        (filter slide_differs
           (map (fun p => compare_slide (fst p) (snd p)) (combine A B))) in
    StronglySorted lt numbers
    /\ Forall
         (fun n =>
            (k <= n < k + Nat.min (List.length A) (List.length B))%nat)
         numbers.
Proof.
  revert k. induction A as [|a A IH]; intros k [|b B] Hn; simpl;
    try (split; constructor).
  simpl in Hn. injection Hn as Ha Hn.
  destruct (IH (S k) B Hn) as [Hs Hb]. simpl in Hs, Hb.
  destruct (slide_differs (compare_slide a b)); simpl.
  - split.
    + constructor; [exact Hs|]. eapply Forall_impl; [|exact Hb].
      simpl. intros n. lia.
    + constructor; [simpl; lia|]. eapply Forall_impl; [|exact Hb].
      simpl. intros n. lia.
  - split; [exact Hs|]. eapply Forall_impl; [|exact Hb].
    simpl. intros n. lia.
Qed.

(** X7. For two extracted decks the diff entries come in slide order,
    each numbered within the slides both decks have, and every extra
    slide is numbered after them. *)
Theorem slide_numbers_in_order (p1 p2 : list (list shape))
  (A B : list slide_content) :
  extract_slides p1 = ret A ->
  extract_slides p2 = ret B ->
  let lo := Nat.min (List.length p1) (List.length p2) in
  exists st,
    compare_loop A B = ret st
    /\ StronglySorted lt (map sd_slide_number (ls_differences st))
    /\ Forall (fun n => (1 <= n <= lo)%nat)
         (map sd_slide_number (ls_differences st))
    /\ Forall (fun n => (lo < n)%nat) (map ex_slide_number (extra_of A B))
    /\ StronglySorted lt (map ex_slide_number (extra_of A B)).
Proof.
  intros EA EB lo.
  exists (loop_from initial_state (combine A B)).
  split; [apply compare_loop_ret|].
  rewrite loop_from_differences. simpl app.
  assert (HA : List.length A = List.length p1)
    by now apply extract_slides_length.
  assert (HB : List.length B = List.length p2)
    by now apply extract_slides_length.
  destruct (differences_sorted 1 A B) as [Hs Hb].
  { rewrite (extract_slides_numbers _ _ EA), HA. reflexivity. }
  split; [exact Hs|]. split.
  { eapply Forall_impl; [|exact Hb]. simpl. intros n. unfold lo. lia. }
  assert (Hseq : forall a n, StronglySorted lt (seq a n)
                             /\ Forall (fun x => (a <= x)%nat) (seq a n)).
  { intros a n. revert a. induction n as [|n IH]; intros a; simpl.
    - split; constructor.
    - destruct (IH (S a)) as [I1 I2]. split.
      + constructor; [exact I1|]. eapply Forall_impl; [|exact I2].
        simpl. intros x. lia.
      + constructor; [lia|]. eapply Forall_impl; [|exact I2].
        simpl. intros x. lia. }
  assert (Hex : map ex_slide_number (extra_of A B)
                = seq (1 + lo)
                    (Nat.max (List.length p1) (List.length p2) - lo)).
  { unfold extra_of, lo. rewrite HA, HB.
    destruct (Nat.ltb_spec (List.length p2) (List.length p1)).
    - rewrite as_extra_numbers, <- skipn_map.
      replace (map slide_number A) with (seq 1 (List.length p1))
        by (symmetry; now apply extract_slides_numbers).
      rewrite skipn_seq. f_equal; lia.
    - destruct (Nat.ltb_spec (List.length p1) (List.length p2)).
      + rewrite as_extra_numbers, <- skipn_map.
        replace (map slide_number B) with (seq 1 (List.length p2))
          by (symmetry; now apply extract_slides_numbers).
        rewrite skipn_seq. f_equal; lia.
      + replace (Nat.max (List.length p1) (List.length p2)
                 - Nat.min (List.length p1) (List.length p2))%nat
          with 0%nat by lia.
        reflexivity. }
  rewrite Hex. destruct (Hseq (1 + lo)%nat
                           (Nat.max (List.length p1) (List.length p2) - lo)%nat)
    as [I1 I2].
  split; [|exact I1]. eapply Forall_impl; [|exact I2]. simpl. intros n. lia.
Qed.

(** ** Which extractions fail *)

Lemma first_unreadable_app (l1 l2 : list shape) :
  first_unreadable (l1 ++ l2)
  = match first_unreadable l1 with
    | Some e => Some e
    | None => first_unreadable l2
    end.
Proof.
  induction l1 as [|s l1 IH]; cbn [app first_unreadable]; [reflexivity|].
  destruct (shape_type s); [reflexivity|exact IH].
Qed.

Lemma walk_returns (frames : nat) (s : shape) (parent_info : string)
  (st : option Z) :
  shape_type s = ret st ->
  exists images,
    extract_images_from_shape (S frames) s parent_info = ret images.
Proof.
  intros H. cbn [extract_images_from_shape]. rewrite H.
  eexists. reflexivity.
Qed.

Lemma walks_first_unreadable (parent_info : string) (slide : list shape) :
  (0 < stack_room)%nat ->
  match first_unreadable slide with
  | Some e =>
      mapM (fun s => extract_images_from_shape stack_room s parent_info)
        slide = raise e
  | None =>
      exists per,
        mapM (fun s => extract_images_from_shape stack_room s parent_info)
          slide = ret per
  end.
Proof.
  intros Hroom. destruct stack_room as [|frames]; [lia|]. clear Hroom.
  induction slide as [|s slide IH]; cbn [first_unreadable mapM].
  - now exists [].
  - destruct (shape_type s) as [e|st] eqn:E.
    + cbn [extract_images_from_shape]. rewrite E. reflexivity.
    + destruct (walk_returns frames s parent_info st E) as [l ->].
      rewrite bind_ret.
      destruct (first_unreadable slide) as [e|].
      * now rewrite IH.
      * destruct IH as [per ->]. now exists (l :: per).
Qed.

Lemma extract_slide_first_unreadable (n : nat) (slide : list shape) :
  (0 < stack_room)%nat ->
  match first_unreadable slide with
  | Some e => extract_slide n slide = raise e
  | None => exists record, extract_slide n slide = ret record
  end.
Proof.
  intros Hroom. rewrite extract_slide_eq.
  pose proof (walks_first_unreadable ("Slide " ++ str_of_nat n) slide Hroom)
    as H.
  destruct (first_unreadable slide) as [e|].
  - now rewrite H.
  - destruct H as [per ->]. eexists. reflexivity.
Qed.

Lemma extract_slides_first_unreadable (slides : list (list shape)) :
  (0 < stack_room)%nat ->
  match first_unreadable (List.concat slides) with
  | Some e => extract_slides slides = raise e
  | None => exists deck, extract_slides slides = ret deck
  end.
Proof.
  intros Hroom. rewrite extract_slides_mapM. generalize 1%nat.
  induction slides as [|slide slides IH]; intros k;
    cbn [List.concat List.length seq combine mapM].
  - now exists [].
  - rewrite first_unreadable_app.
    pose proof (extract_slide_first_unreadable k slide Hroom) as H.
    destruct (first_unreadable slide) as [e|].
    + now rewrite H.
    + destruct H as [record ->]. rewrite bind_ret.
      specialize (IH (S k)).
      destruct (first_unreadable (List.concat slides)) as [e|].
      * now rewrite IH.
      * destruct IH as [deck ->]. now exists (record :: deck).
Qed.

(** X8. While the stack has room, the extraction of a payload fails
    exactly when the parser raises or the type of a top-level shape
    cannot be read, and it raises the parser's exception or that of the
    first such shape in document order; shapes inside groups never make
    it fail. [compare_presentations] turns a failure on the first payload
    into the error result, whatever the second payload is, and otherwise
    a failure on the second; when neither fails, its [try] block is the
    comparison of the two extracted decks. *)
Theorem extraction_failures_are_reported
  (file1_content file2_content : list byte) :
  (0 < stack_room)%nat ->
  let r := compare_presentations file1_content file2_content in
  (forall file_content,
      match extraction_failure file_content with
      | Some e => extract_content_from_pptx file_content = raise e
      | None =>
          exists deck, extract_content_from_pptx file_content = ret deck
      end)
  /\ (forall e,
         extraction_failure file1_content = Some e -> r = error_result e)
  /\ (forall e,
         extraction_failure file1_content = None ->
         extraction_failure file2_content = Some e -> r = error_result e)
  /\ (extraction_failure file1_content = None ->
      extraction_failure file2_content = None ->
      exists A B,
        extract_content_from_pptx file1_content = ret A
        /\ extract_content_from_pptx file2_content = ret B
        /\ compare_body file1_content file2_content = compare_decks A B).
Proof.
  intros Hroom r.
  assert (Hx : forall file_content,
             match extraction_failure file_content with
             | Some e => extract_content_from_pptx file_content = raise e
             | None =>
                 exists deck,
                   extract_content_from_pptx file_content = ret deck
             end).
  { intros file_content.
    unfold extraction_failure, extract_content_from_pptx.
    destruct (Presentation file_content) as [e|slides]; [reflexivity|].
    rewrite bind_ret. now apply extract_slides_first_unreadable. }
  split; [exact Hx|].
  pose proof (Hx file1_content) as H1. pose proof (Hx file2_content) as H2.
  unfold r, compare_presentations, compare_body.
  destruct (extraction_failure file1_content) as [e1|].
  { rewrite H1. cbn [bind raise]. split; [congruence|].
    split; discriminate. }
  destruct H1 as [A ->]. rewrite bind_ret.
  split; [discriminate|].
  destruct (extraction_failure file2_content) as [e2|].
  { rewrite H2. cbn [bind raise]. split; [congruence|discriminate]. }
  destruct H2 as [B ->]. rewrite bind_ret.
  split; [discriminate|].
  intros _ _. exists A, B. repeat split.
Qed.

(* ================================================================== *)
(** * Further properties of the extraction *)
(* ================================================================== *)

(** ** The text of a slide is trimmed *)

Lemma lstrip_idem (s : string) : lstrip (lstrip s) = lstrip s.
Proof.
  induction s as [|c s IH]; simpl; [reflexivity|].
  destruct (isspace c) eqn:E; [exact IH|]. simpl. now rewrite E.
Qed.

Lemma rstrip_idem (s : string) : rstrip (rstrip s) = rstrip s.
Proof.
  induction s as [|c s IH]; simpl; [reflexivity|].
  destruct (rstrip s) as [|c' r] eqn:E.
  - destruct (isspace c) eqn:Ec; simpl; [reflexivity|now rewrite Ec].
  - change (rstrip (String c (String c' r)))
      with (match rstrip (String c' r) with
            | "" => if isspace c then "" else String c ""
            | r' => String c r'
            end).
    now rewrite IH.
Qed.

Lemma lstrip_length (s : string) :
  (String.length (lstrip s) <= String.length s)%nat.
Proof.
  induction s as [|c s IH]; simpl; [lia|].
  destruct (isspace c); simpl; lia.
Qed.

Lemma lstrip_fixed_head (c : ascii) (s : string) :
  lstrip (String c s) = String c s -> isspace c = false.
Proof.
  simpl. destruct (isspace c); [|reflexivity]. intros H.
  pose proof (lstrip_length s) as Hl. rewrite H in Hl. simpl in Hl. lia.
Qed.

Lemma lstrip_rstrip (s : string) :
  lstrip s = s -> lstrip (rstrip s) = rstrip s.
Proof.
  destruct s as [|c s]; [reflexivity|]. intros H.
  apply lstrip_fixed_head in H. cbn [rstrip].
  destruct (rstrip s); rewrite ?H; simpl; now rewrite H.
Qed.

Lemma strip_fixed (t : string) :
  lstrip (strip t) = strip t /\ rstrip (strip t) = strip t.
Proof.
  unfold strip. split.
  - apply lstrip_rstrip, lstrip_idem.
  - apply rstrip_idem.
Qed.

Lemma rstrip_app_kept (a b : string) :
  rstrip b <> "" -> rstrip (a ++ b) = (a ++ rstrip b)%string.
Proof.
  intros Hb. induction a as [|c a IH]; simpl; [reflexivity|].
  rewrite IH. destruct (a ++ rstrip b)%string eqn:E; [|reflexivity].
  destruct a; simpl in E; [contradiction|discriminate].
Qed.

Lemma join_trimmed (sep : string) (lines : list string) :
  Forall (fun l => lstrip l = l /\ rstrip l = l /\ l <> "") lines ->
  lines <> [] ->
  lstrip (join sep lines) = join sep lines
  /\ rstrip (join sep lines) = join sep lines
  /\ join sep lines <> "".
Proof.
  induction 1 as [|l ls (Hl1 & Hl2 & Hl3) Hls IH]; intros Hne;
    [contradiction|].
  destruct ls as [|l2 ls]; [simpl; auto|].
  destruct IH as (I1 & I2 & I3); [discriminate|].
  change (join sep (l :: l2 :: ls))
    with (l ++ sep ++ join sep (l2 :: ls))%string.
  assert (Hb : blank l = false).
  { destruct (blank l) eqn:E; [|reflexivity].
    apply lstrip_blank in E. congruence. }
  split; [|split].
  - now rewrite lstrip_app, Hb, Hl1.
  - rewrite <- string_app_assoc, rstrip_app_kept by congruence.
    now rewrite I2.
  - destruct l; [contradiction|discriminate].
Qed.

Lemma rstrip_nil_blank (s : string) : rstrip s = "" -> blank s = true.
Proof.
  unfold blank. induction s as [|c s IH]; simpl; [reflexivity|].
  destruct (rstrip s) eqn:E; [|discriminate].
  destruct (isspace c); [|discriminate]. intros _. now apply IH.
Qed.

Lemma lstrip_blank_rev (s : string) : blank (lstrip s) = true -> blank s = true.
Proof.
  unfold blank. induction s as [|c s IH]; simpl; [reflexivity|].
  destruct (isspace c) eqn:E; simpl; [exact IH|].
  rewrite E. discriminate.
Qed.

Lemma strip_nil_iff (s : string) : strip s = "" <-> blank s = true.
Proof.
  split; [|apply strip_blank]. unfold strip. intros H.
  now apply lstrip_blank_rev, rstrip_nil_blank.
Qed.

Lemma visible_lines_nil_iff (texts : list string) :
  visible_lines texts = [] <-> Forall (fun t => blank t = true) texts.
Proof.
  unfold visible_lines. rewrite filter_nil_iff, Forall_map.
  split; intros H; eapply Forall_impl; try exact H; simpl; intros t;
    rewrite negb_false_iff, String.eqb_eq; apply strip_nil_iff.
Qed.

Lemma visible_lines_trimmed (texts : list string) :
  Forall (fun l => lstrip l = l /\ rstrip l = l /\ l <> "")
    (visible_lines texts).
Proof.
  unfold visible_lines. apply Forall_forall. intros l Hl.
  apply filter_In in Hl. destruct Hl as [Hin Hne].
  apply in_map_iff in Hin. destruct Hin as [t [<- _]].
  destruct (strip_fixed t) as [H1 H2]. repeat split; try assumption.
  apply negb_true_iff, String.eqb_neq in Hne. exact Hne.
Qed.

(** X9. The text of an extracted slide neither starts nor ends with
    whitespace, and it is empty exactly when every shape text and every
    table cell of the slide is whitespace only. *)
Theorem slide_text_is_trimmed (n : nat) (slide : list shape)
  (record : slide_content) :
  extract_slide n slide = ret record ->
  let t := text_content record in
  trimmed t
  /\ (t = "" <-> Forall (fun x => blank x = true)
                   (flat_map shape_texts slide)).
Proof.
  intros E t. unfold t, trimmed. rewrite (extract_slide_text _ _ _ E).
  pose proof (visible_lines_trimmed (flat_map shape_texts slide)) as Hl.
  rewrite <- visible_lines_nil_iff.
  destruct (visible_lines (flat_map shape_texts slide)) as [|l ls] eqn:E'.
  - split; [reflexivity|]. split; reflexivity.
  - destruct (join_trimmed Difflib.newline (l :: ls) Hl) as (H1 & H2 & H3);
      [discriminate|].
    split; [unfold strip; now rewrite H1, H2|].
    split; [intros H; contradiction|discriminate].
Qed.

(** ** The records of a deck *)

Lemma extract_slide_record (n : nat) (slide : list shape)
  (record : slide_content) :
  extract_slide n slide = ret record ->
  exists per,
    mapM (fun s =>
            extract_images_from_shape stack_room s
              ("Slide " ++ str_of_nat (slide_number record))) slide
    = ret per
    /\ images record = List.concat per
    /\ image_count record = List.length (images record)
    /\ text_content record
       = join Difflib.newline (visible_lines (flat_map shape_texts slide)).
Proof.
  rewrite extract_slide_eq.
  destruct (mapM _ slide) as [e|per] eqn:E; cbn [bind]; [discriminate|].
  intros H. injection H as <-. cbn [slide_number images image_count
                                      text_content].
  exists per. repeat split. exact E.
Qed.

Lemma extract_slides_records (k : nat) (slides : list (list shape))
  (deck : list slide_content) :
  mapM (fun '(slide_number, slide) => extract_slide slide_number slide)
    (combine (seq k (List.length slides)) slides) = ret deck ->
  Forall2
    (fun record slide =>
       exists per,
         mapM (fun s =>
                 extract_images_from_shape stack_room s
                   ("Slide " ++ str_of_nat (slide_number record))) slide
         = ret per
         /\ images record = List.concat per
         /\ image_count record = List.length (images record)
         /\ text_content record
            = join Difflib.newline
                (visible_lines (flat_map shape_texts slide)))
    deck slides.
Proof.
  revert k deck. induction slides as [|slide slides IH]; intros k deck;
    cbn [List.length seq combine mapM].
  - intros H. injection H as <-. constructor.
  - destruct (extract_slide k slide) as [e|record] eqn:E; [discriminate|].
    cbn [bind]. destruct (mapM _ _) as [e|records] eqn:E'; [discriminate|].
    cbn [bind]. intros H. injection H as <-.
    constructor; [now apply (extract_slide_record k)|].
    now apply (IH (S k)).
Qed.

Lemma readable_first_unreadable (l : list shape) :
  Forall readable l -> first_unreadable l = None.
Proof.
  induction 1 as [|s l [st Hs] _ IH]; cbn [first_unreadable];
    [reflexivity|].
  now rewrite Hs.
Qed.

(** X10. Extraction hands on the parser's exception unchanged, and on a
    parsed document the first exception of the loop over its slides.
    When it returns it returns one record per slide, numbered from 1 in
    document order; the images of a record are those the walk returns for
    the slide's shapes, in shape order, and [image_count] is their
    number. It does return when the stack has room and the type of every
    top-level shape can be read. *)
Theorem extraction_records (file_content : list byte) :
  match Presentation file_content with
  | inl e => extract_content_from_pptx file_content = raise e
  | inr slides =>
      match extract_slides slides with
      | inl e => extract_content_from_pptx file_content = raise e
      | inr deck =>
          extract_content_from_pptx file_content = ret deck
          /\ List.length deck = List.length slides
          /\ map slide_number deck = seq 1 (List.length slides)
          /\ Forall2
               (fun record slide =>
                  exists per,
                    mapM (fun s =>
                            extract_images_from_shape stack_room s
                              ("Slide "
                               ++ str_of_nat (slide_number record)))
                      slide
                    = ret per
                    /\ images record = List.concat per
                    /\ image_count record = List.length (images record)
                    /\ text_content record
                       = join Difflib.newline
                           (visible_lines (flat_map shape_texts slide)))
               deck slides
      end
      /\ ((0 < stack_room)%nat ->
          Forall (Forall readable) slides ->
          exists deck, extract_content_from_pptx file_content = ret deck)
  end.
Proof.
  unfold extract_content_from_pptx.
  destruct (Presentation file_content) as [e|slides]; [reflexivity|].
  rewrite bind_ret. split.
  - destruct (extract_slides slides) as [e|deck] eqn:E; [reflexivity|].
    split; [reflexivity|].
    split; [now apply extract_slides_length|].
    split; [now apply extract_slides_numbers|].
    rewrite extract_slides_mapM in E.
    now apply (extract_slides_records 1).
  - intros Hroom Hr.
    pose proof (extract_slides_first_unreadable slides Hroom) as H.
    rewrite readable_first_unreadable in H; [exact H|].
    clear H. induction Hr as [|slide slides Hs _ IH]; cbn [List.concat];
      [constructor|].
    apply Forall_app. now split.
Qed.

(** ** The walk over a shape tree *)

Lemma shape_nested_ind (P : shape -> Prop) :
  (forall st ib f ch t tb,
      Forall P ch -> P (Shape st ib f ch t tb)) ->
  forall s, P s.
Proof.
  intros H. fix IH 1. intros [st ib f ch t tb]. apply H.
  induction ch as [|c ch IHch]; constructor; [apply IH|exact IHch].
Qed.

Lemma shape_type_is_spec (st : option Z) (code : Z) :
  shape_type_is st code = true <-> st = Some code.
Proof.
  destruct st as [c|]; simpl.
  - rewrite Z.eqb_eq. split; congruence.
  - split; discriminate.
Qed.

Lemma blob_images_bytes (data : list byte) (debug_info : string) :
  exists r,
    blob_images (Some (Bytes data)) debug_info = [r]
    /\ process_image_blob (Bytes data) debug_info = Some r
    /\ img_hash r = md5_hexdigest data
    /\ img_size r = List.length data
    /\ img_debug_info r = debug_info.
Proof.
  unfold blob_images, process_image_blob.
  destruct (Image_open data) as [[[w h] fmt]|]; eexists; repeat split.
Qed.

Lemma blob_images_in (b : option blob) (debug_info : string)
  (r : image_record) :
  In r (blob_images b debug_info) ->
  exists data,
    b = Some (Bytes data)
    /\ process_image_blob (Bytes data) debug_info = Some r.
Proof.
  unfold blob_images. destruct b as [[data|]|];
    try (cbn [process_image_blob In]; contradiction).
  intros H. exists data. split; [reflexivity|].
  destruct (process_image_blob (Bytes data) debug_info) as [r'|];
    [|contradiction].
  destruct H as [->|[]]. reflexivity.
Qed.

Lemma group_images_in (w : shape -> M (list image_record))
  (before after : list shape) (child : shape) (l : list image_record)
  (r : image_record) :
  Forall (fun b => exists lb, w b = ret lb) before ->
  w child = ret l ->
  In r l ->
  In r (group_images w (before ++ child :: after)).
Proof.
  intros Hb Hc Hr. induction Hb as [|b before [lb Hlb] _ IH];
    cbn [app group_images].
  - rewrite Hc. apply in_or_app. now left.
  - rewrite Hlb. apply in_or_app. now right.
Qed.

Lemma group_images_from (w : shape -> M (list image_record))
  (children : list shape) (r : image_record) :
  In r (group_images w children) ->
  exists child l, In child children /\ w child = ret l /\ In r l.
Proof.
  induction children as [|c children IH]; cbn [group_images];
    [contradiction|].
  destruct (w c) as [e|l] eqn:E; [contradiction|].
  intros H. apply in_app_or in H. destruct H as [H|H].
  - exists c, l. split; [now left|]. now split.
  - destruct (IH H) as (child & l' & Hin & Hw & Hr).
    exists child, l'. split; [now right|]. now split.
Qed.

(** X11. The walk misses no picture that it gets to. For every shape of
    type 13 (picture) or 14 (placeholder) whose image bytes can be read
    and that the walk reaches, the result has a record with the MD5 digest
    and the size of those bytes. The walk reaches a shape when the type
    of the shape can be read, the shapes above it are groups within the
    stack's room, and in each of these groups the types of the children
    before the one leading to the shape can be read. *)
Theorem walk_finds_every_image (frames : nat) (root s : shape)
  (data : list byte) (parent_info : string) :
  reached frames root s ->
  shape_type s = ret (Some 13) \/ shape_type s = ret (Some 14) ->
  image_blob s = Some (Bytes data) ->
  exists images r,
    extract_images_from_shape frames root parent_info = ret images
    /\ In r images
    /\ img_hash r = md5_hexdigest data
    /\ img_size r = List.length data.
Proof.
  intros Hr. revert parent_info.
  induction Hr as [frames s _|frames root child s before after Hg Hch Hb
                                Hr IH];
    intros parent_info Hst Hib.
  - cbn [extract_images_from_shape]. rewrite Hib.
    destruct Hst as [-> | ->]; rewrite bind_ret;
      cbn [shape_type_is Z.eqb Pos.eqb];
      match goal with
      | |- context [blob_images (Some (Bytes data)) ?d ++ _] =>
          destruct (blob_images_bytes data d) as [r (E & _ & Hh & Hs & _)]
      end;
      eexists; exists r; (split; [reflexivity|]); (split; [|now split]);
      rewrite E.
    + now left.
    + apply in_or_app. right. apply in_or_app. right.
      apply in_or_app. left. now left.
  - cbn [extract_images_from_shape]. rewrite Hg, bind_ret, Hch.
    cbn [shape_type_is Z.eqb Pos.eqb].
    match goal with
    | |- context [group_images ?w _] =>
        destruct (IH ((parent_info ++ " -> Shape type: "
                         ++ str_shape_type (Some 6)) ++ " (group child)")%string
                    Hst Hib)
          as (l & r & Hl & Hin & Hh & Hs);
        assert (Hg' : In r (group_images w (before ++ child :: after)))
    end.
    { apply (group_images_in _ before after child l r); [|exact Hl|exact Hin].
      inversion Hr; subst;
        (eapply Forall_impl; [|exact Hb]); intros b [st Hbst];
        eapply walk_returns; exact Hbst. }
    eexists. exists r. split; [reflexivity|]. split; [|now split].
    apply in_or_app. right. apply in_or_app. right.
    apply in_or_app. right. exact Hg'.
Qed.

(** X12. The walk invents no image: every record of the result is what
    [process_image_blob] gives for bytes held by a shape reachable from
    the root through groups, as the image of a picture or a placeholder
    or as what is read from a fill of type 2.  A tree with no such payload
    yields the empty list. *)
Theorem walk_reports_only_held_images (frames : nat) :
  forall (root : shape) (parent_info : string)
         (images : list image_record) (r : image_record),
    extract_images_from_shape frames root parent_info = ret images ->
    In r images ->
    exists s data debug_info,
      under root s
      /\ own_blob s (Bytes data)
      /\ process_image_blob (Bytes data) debug_info = Some r
      /\ img_hash r = md5_hexdigest data.
Proof.
  induction frames as [|frames IH];
    intros [st ib f ch t tb] parent_info images r;
    cbn [extract_images_from_shape shape_type image_blob fill shapes];
    [discriminate|].
  destruct st as [e|st]; cbn [bind]; [discriminate|].
  intros Himg H. injection Himg as <-.
  assert (Hfin : forall s data debug_info,
             under (Shape (inr st) ib f ch t tb) s ->
             own_blob s (Bytes data) ->
             process_image_blob (Bytes data) debug_info = Some r ->
             exists s data debug_info,
               under (Shape (inr st) ib f ch t tb) s
               /\ own_blob s (Bytes data)
               /\ process_image_blob (Bytes data) debug_info = Some r
               /\ img_hash r = md5_hexdigest data).
  { intros s data dbg Hu Ho Hp. exists s, data, dbg.
    repeat split; try assumption.
    unfold process_image_blob in Hp.
    destruct (Image_open data) as [[[w h] fmt]|];
      injection Hp as <-; reflexivity. }
  apply in_app_or in H. destruct H as [H|H].
  { destruct (shape_type_is st 13) eqn:E; [|contradiction].
    apply shape_type_is_spec in E. subst st.
    apply blob_images_in in H. destruct H as [data [-> Hp]].
    eapply Hfin; [apply under_self| |exact Hp].
    left. cbn [shape_type image_blob]. auto. }
  apply in_app_or in H. destruct H as [H|H].
  { destruct f as [f'|]; [|contradiction].
    destruct (shape_type_is (fill_type f') 2) eqn:E; [|contradiction].
    apply shape_type_is_spec in E.
    apply blob_images_in in H. destruct H as [data [Hb Hp]].
    eapply Hfin; [apply under_self| |exact Hp].
    right. exists f'. cbn [fill]. auto. }
  apply in_app_or in H. destruct H as [H|H].
  { destruct (shape_type_is st 14) eqn:E; [|contradiction].
    apply shape_type_is_spec in E. subst st.
    apply blob_images_in in H. destruct H as [data [-> Hp]].
    eapply Hfin; [apply under_self| |exact Hp].
    left. cbn [shape_type image_blob]. auto. }
  destruct (shape_type_is st 6) eqn:E; [|contradiction].
  apply shape_type_is_spec in E. subst st.
  apply group_images_from in H. destruct H as (child & l & Hin & Hw & Hr).
  destruct (IH child _ l r Hw Hr) as (s & data & dbg & Hu & Ho & Hp & Hh).
  exists s, data, dbg. repeat split; try assumption.
  eapply under_child; [reflexivity|exact Hin|exact Hu].
Qed.

(* ================================================================== *)
(** * Further properties of the text diff and of its display *)
(* ================================================================== *)

(** ** The marks of a delta *)

Lemma mark_of (c1 c2 : ascii) (line : string) :
  substring 0 2 (String c1 (String c2 line)) = String c1 (String c2 "").
Proof. simpl. now destruct line. Qed.

Lemma dump_marked (c : ascii) (x : list string) (lo hi : Z) :
  In (String c " ") delta_marks ->
  Forall (fun line => In (substring 0 2 line) delta_marks)
    (dump (String c "") x lo hi).
Proof.
  intros Hc. unfold dump. apply Forall_forall. intros line Hin.
  apply in_flat_map in Hin. destruct Hin as [i [_ Hin]].
  destruct (getitem x i) as [l|]; [|contradiction].
  destruct Hin as [<-|[]]. cbn [append]. now rewrite mark_of.
Qed.

Lemma marks_listed :
  In "  " delta_marks /\ In "- " delta_marks
  /\ In "+ " delta_marks /\ In "? " delta_marks.
Proof. unfold delta_marks. cbn [In]. auto 8. Qed.

Lemma qformat_marked (aline bline atags btags : string) :
  Forall (fun line => In (substring 0 2 line) delta_marks)
    (qformat aline bline atags btags).
Proof.
  destruct marks_listed as (_ & Hm & Hp & Hq).
  unfold qformat.
  destruct (String.eqb _ ""); destruct (String.eqb _ "");
    cbn [app append]; repeat (constructor; [now rewrite mark_of|]);
    constructor.
Qed.

Lemma plain_replace_marked (a b : list string) (alo ahi blo bhi : Z) :
  Forall (fun line => In (substring 0 2 line) delta_marks)
    (plain_replace a alo ahi b blo bhi).
Proof.
  destruct marks_listed as (_ & Hm & Hp & _).
  unfold plain_replace.
  destruct (bhi - blo <? ahi - alo); apply Forall_app; split;
    first [now apply (dump_marked "-") | now apply (dump_marked "+")].
Qed.

Lemma synch_lines_marked (a b : list string) (best_i best_j : Z)
  (identical : bool) :
  Forall (fun line => In (substring 0 2 line) delta_marks)
    (synch_lines a b best_i best_j identical).
Proof.
  destruct marks_listed as (Hs & _).
  unfold synch_lines.
  destruct (getitem a best_i) as [aelt|]; [|constructor].
  destruct (getitem b best_j) as [belt|]; [|constructor].
  destruct identical.
  - repeat constructor. cbn [append]. now rewrite mark_of.
  - destruct (intraline_tags aelt belt). apply qformat_marked.
Qed.

Lemma fancy_replace_marked (a b : list string) :
  forall (fuel : nat) (alo ahi blo bhi : Z) (out : list string),
    fancy_replace fuel a alo ahi b blo bhi = Some out ->
    Forall (fun line => In (substring 0 2 line) delta_marks) out.
Proof.
  destruct marks_listed as (_ & Hm & Hp & _).
  induction fuel as [|fuel IH]; intros alo ahi blo bhi out; [discriminate|].
  assert (Hhelper : forall lo hi lo' hi' o,
             (if lo <? hi
              then if lo' <? hi' then fancy_replace fuel a lo hi b lo' hi'
                   else Some (dump "-" a lo hi)
              else if lo' <? hi' then Some (dump "+" b lo' hi')
                   else Some []) = Some o ->
             Forall (fun line => In (substring 0 2 line) delta_marks) o).
  { intros lo hi lo' hi' o. destruct (lo <? hi); destruct (lo' <? hi').
    - apply IH.
    - intros H. injection H as <-. now apply (dump_marked "-").
    - intros H. injection H as <-. now apply (dump_marked "+").
    - intros H. injection H as <-. constructor. }
  assert (Hsync : forall best_i best_j identical,
             match
               (if alo <? best_i
                then if blo <? best_j
                     then fancy_replace fuel a alo best_i b blo best_j
                     else Some (dump "-" a alo best_i)
                else if blo <? best_j then Some (dump "+" b blo best_j)
                     else Some []),
               (if best_i + 1 <? ahi
                then if best_j + 1 <? bhi
                     then fancy_replace fuel a (best_i + 1) ahi b
                            (best_j + 1) bhi
                     else Some (dump "-" a (best_i + 1) ahi)
                else if best_j + 1 <? bhi
                     then Some (dump "+" b (best_j + 1) bhi)
                     else Some [])
             with
             | Some before, Some after =>
                 Some (before
                       ++ synch_lines a b best_i best_j identical
                       ++ after)
             | _, _ => None
             end = Some out ->
             Forall (fun line => In (substring 0 2 line) delta_marks) out).
  { intros best_i best_j identical.
    pose proof (Hhelper alo best_i blo best_j) as H1.
    pose proof (Hhelper (best_i + 1) ahi (best_j + 1) bhi) as H2.
    destruct (if alo <? best_i
              then if blo <? best_j
                   then fancy_replace fuel a alo best_i b blo best_j
                   else Some (dump "-" a alo best_i)
              else if blo <? best_j then Some (dump "+" b blo best_j)
                   else Some []) as [o1|]; [|discriminate].
    destruct (if best_i + 1 <? ahi
              then if best_j + 1 <? bhi
                   then fancy_replace fuel a (best_i + 1) ahi b
                          (best_j + 1) bhi
                   else Some (dump "-" a (best_i + 1) ahi)
              else if best_j + 1 <? bhi
                   then Some (dump "+" b (best_j + 1) bhi)
                   else Some []) as [o2|]; [|discriminate].
    intros H. injection H as <-.
    apply Forall_app. split; [now apply H1|].
    apply Forall_app. split; [apply synch_lines_marked|now apply H2]. }
  cbn [fancy_replace].
  destruct (search a alo ahi b blo bhi) as [[best_ratio best] eqij].
  destruct (negb (Qltb best_ratio (75 # 100)%Q)).
  - destruct best as [[best_i best_j]|]; [apply Hsync|discriminate].
  - destruct eqij as [[best_i best_j]|]; [apply Hsync|].
    intros H. injection H as <-. apply plain_replace_marked.
Qed.

Lemma ndiff_marked (a b : list string) :
  Forall (fun line => In (substring 0 2 line) delta_marks) (ndiff a b).
Proof.
  destruct marks_listed as (Hs & Hm & Hp & _).
  unfold ndiff, compare. apply Forall_forall. intros line Hin.
  apply in_flat_map in Hin.
  destruct Hin as [[[[[tg alo] ahi] blo] bhi] [_ Hin]].
  revert line Hin. apply Forall_forall.
  unfold compare_opcode. destruct tg.
  - destruct (fancy_replace (Z.to_nat (ahi - alo)) a alo ahi b blo bhi)
      as [g|] eqn:E; [|constructor].
    eapply fancy_replace_marked; exact E.
  - now apply (dump_marked "-").
  - now apply (dump_marked "+").
  - now apply (dump_marked " ").
Qed.

Lemma splitlines_from_nil (s : string) (cur : list ascii) :
  splitlines_from cur s = [] -> s = "" /\ cur = [].
Proof.
  revert cur. induction s as [|c s IH]; intros cur; cbn [splitlines_from].
  - destruct cur; [auto|discriminate].
  - destruct (islinebreak c); [discriminate|].
    intros H. apply IH in H. destruct H as [_ H]. discriminate.
Qed.

Lemma restore_unmarked (delta : list string) :
  existsb (fun line => marked "- " line || marked "+ " line) delta = false ->
  restore delta 1 = restore delta 2.
Proof.
  unfold restore. induction delta as [|line delta IH]; [reflexivity|].
  cbn [existsb flat_map]. intros H.
  apply orb_false_iff in H. destruct H as [H H'].
  apply orb_false_iff in H. destruct H as [Hm Hp].
  unfold marked in Hm, Hp.
  rewrite (IH H'). cbn [Z.eqb Pos.eqb]. now rewrite Hm, Hp.
Qed.

(** X13. The delta stored for a slide whose text differs is never empty,
    and every entry starts with one of the four marks.  When the two texts
    differ in their lines, and not only in the characters that end their
    lines, an entry is marked as removed or as added. *)
Theorem delta_entries_are_marked (slide1 slide2 : slide_content)
  (delta : list string) :
  text_diff (compare_slide slide1 slide2) = Some delta ->
  delta <> []
  /\ Forall (fun line => In (substring 0 2 line) delta_marks) delta
  /\ (splitlines (text_content slide1) <> splitlines (text_content slide2) ->
      exists line,
        In line delta
        /\ (marked "- " line = true \/ marked "+ " line = true)).
Proof.
  unfold compare_slide. cbn [text_diff].
  destruct (String.eqb (text_content slide1) (text_content slide2)) eqn:E;
    cbn [negb]; [discriminate|].
  intros H. injection H as <-.
  apply String.eqb_neq in E.
  destruct (ndiff_restore (splitlines (text_content slide1))
              (splitlines (text_content slide2))) as [R1 R2].
  split; [|split].
  - intros Hnil. rewrite Hnil in R1, R2. cbn in R1, R2.
    symmetry in R1, R2.
    apply splitlines_from_nil in R1, R2.
    destruct R1 as [R1 _], R2 as [R2 _]. congruence.
  - apply ndiff_marked.
  - intros Hne.
    destruct (existsb (fun line => marked "- " line || marked "+ " line)
                (ndiff (splitlines (text_content slide1))
                   (splitlines (text_content slide2)))) eqn:Ex.
    + apply existsb_exists in Ex. destruct Ex as [line [Hin Hl]].
      exists line. split; [exact Hin|]. now apply orb_true_iff.
    + apply restore_unmarked in Ex. congruence.
Qed.

(** ** The report page *)

Lemma startswith_marked (mark line : string) :
  String.length mark = 2%nat -> startswith mark line = marked mark line.
Proof. unfold startswith, marked. now intros ->. Qed.

Lemma format_diff_line_marked (line : string) :
  In (substring 0 2 line) delta_marks ->
  (marked "+ " line = true
   /\ format_diff_line line
      = ("<span class=" ++ dquote ++ "diff-added" ++ dquote ++ ">"
         ++ line ++ "</span>")%string)
  \/ (marked "- " line = true
      /\ format_diff_line line
         = ("<span class=" ++ dquote ++ "diff-removed" ++ dquote ++ ">"
            ++ line ++ "</span>")%string)
  \/ ((marked "  " line = true \/ marked "? " line = true)
      /\ format_diff_line line = line).
Proof.
  unfold format_diff_line.
  rewrite !startswith_marked by reflexivity. unfold marked, delta_marks.
  cbn [In]. intros [H|[H|[H|[H|[]]]]]; rewrite <- H;
    cbn [String.eqb Ascii.eqb Bool.eqb]; auto.
Qed.

(** X14. The page reads every diff entry without a missing key.  The
    title of an entry names its kinds of difference and is never empty.
    Under the text flag the page shows the two texts and the delta, one
    entry per line break: an added entry in the added span, a removed one
    in the removed span, unchanged and hint entries as they are.  Without
    the flag the three keys are absent, which is why the page tests the
    flag first. *)
Theorem page_reads_every_entry (A B : list slide_content) :
  exists st,
    compare_loop A B = ret st
    /\ Forall
         (fun d =>
            diff_type_str d
            = (if has_text_diff d
               then if has_image_diff d then "Text & Images" else "Text"
               else "Images")
            /\ (has_text_diff d = true ->
                exists content1 content2 delta,
                  text_diff d = Some delta
                  /\ text_panel d
                     = ret (content1, content2,
                            join "<br>" (map format_diff_line delta))
                  /\ Forall
                       (fun line =>
                          (marked "+ " line = true
                           /\ format_diff_line line
                              = ("<span class=" ++ dquote ++ "diff-added"
                                 ++ dquote ++ ">" ++ line
                                 ++ "</span>")%string)
                          \/ (marked "- " line = true
                              /\ format_diff_line line
                                 = ("<span class=" ++ dquote
                                    ++ "diff-removed" ++ dquote ++ ">"
                                    ++ line ++ "</span>")%string)
                          \/ ((marked "  " line = true
                               \/ marked "? " line = true)
                              /\ format_diff_line line = line))
                       delta)
            /\ (has_text_diff d = false ->
                text_panel d = raise (KeyError "ppt1_content")))
         (ls_differences st).
Proof.
  exists (loop_from initial_state (combine A B)).
  split; [apply compare_loop_ret|].
  apply Forall_forall. intros d Hd. apply differences_entries in Hd.
  destruct Hd as (i & X & Y & _ & _ & -> & Hd).
  unfold slide_differs in Hd.
  pose proof (ndiff_marked (splitlines (text_content X))
                (splitlines (text_content Y))) as Hm.
  revert Hd.
  unfold diff_type_str, diff_types, text_panel, formatted_diff, compare_slide.
  cbn [has_text_diff has_image_diff text_diff ppt1_content ppt2_content].
  destruct (negb (String.eqb (text_content X) (text_content Y)));
    destruct (nonempty _ || nonempty _ || _); cbn [orb];
    try discriminate; intros _.
  - split; [reflexivity|]. split; [|discriminate]. intros _.
    exists (text_content X), (text_content Y),
      (ndiff (splitlines (text_content X)) (splitlines (text_content Y))).
    split; [reflexivity|]. split; [reflexivity|].
    eapply Forall_impl; [|exact Hm]. apply format_diff_line_marked.
  - split; [reflexivity|]. split; [|discriminate]. intros _.
    exists (text_content X), (text_content Y),
      (ndiff (splitlines (text_content X)) (splitlines (text_content Y))).
    split; [reflexivity|]. split; [reflexivity|].
    eapply Forall_impl; [|exact Hm]. apply format_diff_line_marked.
  - split; [reflexivity|]. split; [discriminate|]. intros _. reflexivity.
Qed.

(** ** The two kinds of result *)

Lemma extra_of_nil_iff (A B : list slide_content) :
  extra_of A B = [] <-> List.length A = List.length B.
Proof.
  pose proof (extra_of_length A B) as H.
  destruct (extra_of A B) as [|e l]; simpl in H; split; intros E;
    try reflexivity; try discriminate; lia.
Qed.

(** X15. A verdict always comes with its reason. The identical result
    carries no diff entry and none of the keys of a difference report. A
    result that is not identical carries all of them, and it has a diff
    entry or an extra slide; the slide-count message is empty exactly when
    there is no extra slide, that is when the decks are equally long. *)
Theorem verdict_has_a_reason (A B : list slide_content) :
  exists r,
    compare_decks A B = ret r
    /\ if identical r
       then differences r = []
            /\ detailed_summary r = None /\ extra_slides r = None
            /\ slide_count_different r = None
            /\ slide_count_message r = None
       else exists extra msg,
           extra_slides r = Some extra
           /\ slide_count_message r = Some msg
           /\ slide_count_different r
              = Some (negb (List.length A =? List.length B)%nat)
           /\ detailed_summary r <> None
           /\ (differences r <> [] \/ extra <> [])
           /\ (extra = [] <-> msg = "")
           /\ (extra = [] <-> List.length A = List.length B).
Proof.
  unfold compare_decks. rewrite compare_loop_ret. simpl bind at 1.
  rewrite compare_decks_extra. simpl bind.
  pose proof (extra_of_nil_iff A B) as Hx.
  destruct (ls_differences (loop_from initial_state (combine A B)))
    as [|d ds] eqn:Ed; cbn [nonempty negb andb];
  destruct (Nat.eqb_spec (List.length A) (List.length B)) as [E|E];
    cbn [negb]; eexists; (split; [reflexivity|]);
    cbn [identical differences detailed_summary extra_slides
           slide_count_different slide_count_message];
    try (repeat split; reflexivity);
    exists (extra_of A B); eexists; (split; [reflexivity|]);
    (split; [reflexivity|]); (split; [reflexivity|]);
    (split; [discriminate|]).
  - split; [right; intros H; apply Hx in H; contradiction|].
    split; [|exact Hx].
    split; [intros H; apply Hx in H; contradiction|discriminate].
  - split; [left; discriminate|].
    split; [|exact Hx]. split; [reflexivity|intros _; now apply Hx].
  - split; [left; discriminate|].
    split; [|exact Hx].
    split; [intros H; apply Hx in H; contradiction|discriminate].
Qed.

(** ** Grouping shapes *)

Lemma blob_images_hashes (b : option blob) (info info' : string) :
  map img_hash (blob_images b info) = map img_hash (blob_images b info').
Proof.
  unfold blob_images, process_image_blob.
  destruct b as [[data|]|]; try reflexivity.
  destruct (Image_open data) as [[[w h] fmt]|]; reflexivity.
Qed.

Lemma group_images_hashes (w w' : shape -> M (list image_record))
  (children : list shape) :
  (forall c, In c children -> hashes_of (w c) = hashes_of (w' c)) ->
  map img_hash (group_images w children)
  = map img_hash (group_images w' children).
Proof.
  induction children as [|c children IH]; intros H; cbn [group_images];
    [reflexivity|].
  pose proof (H c (or_introl eq_refl)) as Hc. unfold hashes_of in Hc.
  destruct (w c) as [e|l]; destruct (w' c) as [e'|l']; try discriminate;
    [reflexivity|].
  injection Hc as Hc. rewrite !map_app, Hc. f_equal.
  apply IH. intros c' Hc'. apply H. now right.
Qed.

Lemma walk_hashes (frames : nat) :
  forall (s : shape) (info info' : string),
    hashes_of (extract_images_from_shape frames s info)
    = hashes_of (extract_images_from_shape frames s info').
Proof.
  induction frames as [|frames IH]; intros [st ib f ch t tb] info info';
    cbn [extract_images_from_shape shape_type image_blob fill shapes];
    [reflexivity|].
  destruct st as [e|st]; cbn [bind]; [reflexivity|].
  unfold ret, hashes_of. f_equal.
  rewrite !map_app. f_equal; [|f_equal; [|f_equal]].
  - destruct (shape_type_is st 13); [apply blob_images_hashes|reflexivity].
  - destruct f as [f'|]; [|reflexivity].
    destruct (shape_type_is (fill_type f') 2);
      [apply blob_images_hashes|reflexivity].
  - destruct (shape_type_is st 14); [apply blob_images_hashes|reflexivity].
  - destruct (shape_type_is st 6); [|reflexivity].
    apply group_images_hashes. intros c _. apply IH.
Qed.

Lemma truncate_depth_id (s : shape) :
  forall cap : nat, (depth s <= S cap)%nat -> truncate_depth cap s = s.
Proof.
  induction s as [st ib f ch t tb IH] using shape_nested_ind.
  intros cap. cbn [depth truncate_depth]. intros H.
  assert (Hd : Forall (fun k => (k <= cap)%nat) (map depth ch)).
  { apply list_max_le. lia. }
  f_equal. destruct cap as [|cap].
  - destruct ch as [|c ch]; [reflexivity|].
    inversion Hd as [|k l Hk _]; subst. destruct c; cbn [depth] in Hk. lia.
  - clear H. induction IH as [|c ch Hc _ IHch]; [reflexivity|].
    inversion Hd as [|k l Hk Hl]; subst. cbn [map].
    f_equal; [now apply Hc|now apply IHch].
Qed.

Lemma walk_enough_frames (frames k : nat) (s : shape) (info : string) :
  (depth s <= frames)%nat ->
  extract_images_from_shape frames s info
  = extract_images_from_shape (frames + k) s info.
Proof.
  intros H. destruct frames as [|frames].
  - destruct s; cbn [depth] in H. lia.
  - rewrite (walk_truncate frames k), truncate_depth_id by exact H.
    reflexivity.
Qed.

Lemma mapM_hashes (w w' : shape -> M (list image_record))
  (l : list shape) :
  forall per : list (list image_record),
    (forall c, In c l -> hashes_of (w' c) = hashes_of (w c)) ->
    mapM w l = ret per ->
    exists per',
      mapM w' l = ret per'
      /\ map (map img_hash) per' = map (map img_hash) per.
Proof.
  induction l as [|c l IH]; intros per H; cbn [mapM].
  - intros E. injection E as <-. now exists [].
  - pose proof (H c (or_introl eq_refl)) as Hc. unfold hashes_of in Hc.
    destruct (w c) as [e|lc]; [discriminate|].
    destruct (w' c) as [e'|lc']; [discriminate|]. injection Hc as Hc.
    cbn [bind]. destruct (mapM w l) as [e|per0] eqn:E; [discriminate|].
    cbn [bind]. intros E'. injection E' as <-.
    destruct (IH per0) as (per' & -> & Hp); [|reflexivity|].
    { intros c' Hc'. apply H. now right. }
    exists (lc' :: per'). split; [reflexivity|].
    cbn [map]. now rewrite Hc, Hp.
Qed.

Lemma mapM_app_ret {X Y : Type} (f : X -> M Y) (l1 l2 : list X)
  (ys : list Y) :
  mapM f (l1 ++ l2) = ret ys ->
  exists ys1 ys2,
    mapM f l1 = ret ys1 /\ mapM f l2 = ret ys2 /\ ys = ys1 ++ ys2.
Proof.
  rewrite mapM_app.
  destruct (mapM f l1) as [e|ys1]; cbn [bind]; [discriminate|].
  destruct (mapM f l2) as [e|ys2]; cbn [bind]; [discriminate|].
  intros H. injection H as <-. now exists ys1, ys2.
Qed.

Lemma same_hashes_no_image_diff (X Y : slide_content) :
  map img_hash (images X) = map img_hash (images Y) ->
  has_image_diff (compare_slide X Y) = false.
Proof.
  intros H. unfold compare_slide; simpl.
  rewrite !orb_false_iff, !nonempty_false, !missing_from_nil.
  rewrite negb_false_iff, Nat.eqb_eq.
  repeat split.
  - intros h. rewrite H. auto.
  - intros h. rewrite H. auto.
  - rewrite <- (length_map img_hash (images X)), H. apply length_map.
Qed.

(** X16. Putting shapes of a slide into a group keeps their images in
    the comparison and takes their text out of it.  When the slide can be
    extracted and the group fits within the stack's room, the grouped
    slide can be extracted too and has the same image hashes in the same
    order, so comparing it with the slide before grouping reports no
    image diff, whatever the slide numbers; its text is that of the
    shapes left outside the group. *)
Theorem grouping_keeps_images_drops_text (n n' : nat)
  (before grouped after : list shape) (flat : slide_content) :
  extract_slide n (before ++ grouped ++ after) = ret flat ->
  (depth (group grouped) <= stack_room)%nat ->
  exists nested,
    extract_slide n' (before ++ group grouped :: after) = ret nested
    /\ map img_hash (images nested) = map img_hash (images flat)
    /\ image_count nested = image_count flat
    /\ has_image_diff (compare_slide flat nested) = false
    /\ text_content nested
       = join Difflib.newline
           (visible_lines (flat_map shape_texts (before ++ after))).
Proof.
  intros Hflat Hdepth.
  rewrite extract_slide_eq in Hflat.
  destruct (mapM _ (before ++ grouped ++ after)) as [e|per] eqn:E;
    cbn [bind] in Hflat; [discriminate|].
  injection Hflat as <-.
  apply mapM_app_ret in E. destruct E as (pb & pga & Eb & E & ->).
  apply mapM_app_ret in E. destruct E as (pg & pa & Eg & Ea & ->).
  destruct stack_room as [|frames] eqn:Eroom;
    [unfold group in Hdepth; cbn [depth] in Hdepth; lia|].
  assert (Hd : Forall (fun k => (k <= frames)%nat) (map depth grouped)).
  { apply list_max_le. unfold group in Hdepth. cbn [depth] in Hdepth. lia. }
  set (info := ("Slide " ++ str_of_nat n)%string) in *.
  set (info' := ("Slide " ++ str_of_nat n')%string).
  destruct (mapM_hashes
              (fun s => extract_images_from_shape (S frames) s info)
              (fun s => extract_images_from_shape (S frames) s info')
              before pb) as (pb' & Eb' & Hb); [|exact Eb|].
  { intros c _. apply walk_hashes. }
  destruct (mapM_hashes
              (fun s => extract_images_from_shape (S frames) s info)
              (fun s => extract_images_from_shape (S frames) s info')
              after pa) as (pa' & Ea' & Ha); [|exact Ea|].
  { intros c _. apply walk_hashes. }
  set (info'' := ((info' ++ " -> Shape type: " ++ str_shape_type (Some 6))
                    ++ " (group child)")%string).
  destruct (mapM_hashes
              (fun s => extract_images_from_shape (S frames) s info)
              (fun s => extract_images_from_shape frames s info'')
              grouped pg) as (pg' & Eg' & Hg); [|exact Eg|].
  { intros c Hc.
    rewrite (walk_enough_frames frames 1 c info'').
    - rewrite Nat.add_1_r. apply walk_hashes.
    - rewrite Forall_forall in Hd. apply Hd. now apply in_map. }
  assert (Egroup : extract_images_from_shape (S frames) (group grouped) info'
                   = ret (List.concat pg')).
  { unfold group. cbn [extract_images_from_shape shape_type image_blob fill
                         shapes].
    rewrite bind_ret. cbn [shape_type_is Z.eqb Pos.eqb app].
    fold info''. now rewrite (group_images_all _ _ _ Eg'). }
  assert (Enested : mapM (fun s => extract_images_from_shape (S frames) s info')
                      (before ++ group grouped :: after)
                    = ret (pb' ++ List.concat pg' :: pa')).
  { rewrite mapM_app, Eb', bind_ret. cbn [mapM].
    now rewrite Egroup, bind_ret, Ea', !bind_ret. }
  eexists. split.
  { rewrite extract_slide_eq, Eroom. fold info'.
    rewrite Enested, bind_ret. reflexivity. }
  cbn [images image_count text_content].
  assert (Hh : map img_hash (List.concat (pb' ++ List.concat pg' :: pa'))
               = map img_hash (List.concat (pb ++ pg ++ pa))).
  { rewrite !concat_map, !map_app. cbn [map].
    rewrite !concat_app. cbn [List.concat].
    rewrite concat_map. now rewrite Hb, Hg, Ha. }
  split; [exact Hh|]. split; [|split].
  - rewrite <- (length_map img_hash), Hh. apply length_map.
  - now apply same_hashes_no_image_diff.
  - rewrite !flat_map_app. cbn [flat_map]. unfold group at 1.
    unfold shape_texts at 2. cbn [text table app]. reflexivity.
Qed.

End Program.

(* ================================================================== *)
(** * The properties on concrete inputs *)
(* ================================================================== *)

(** A deck of two slides against a deck of three: one extra slide,
    number 3, owned by the second deck. *)
Lemma extra_slides_of_longer_deck_witness :
  let A := [sample_slide 1 "one" []; sample_slide 2 "two" []] in
  let B := [sample_slide 1 "one" []; sample_slide 2 "two" [];
            sample_slide 3 "three" []] in
  exists r extra,
    compare_decks A B = ret r
    /\ identical r = false
    /\ slide_count_different r = Some true
    /\ extra_slides r = Some extra
    /\ Z.of_nat (List.length extra)
       = Z.abs (Z.of_nat (List.length A) - Z.of_nat (List.length B))
    /\ map ex_slide_number extra = [3%nat]
    /\ Forall (fun e => in_presentation e = 2%nat) extra
    /\ extra = map (as_extra 2) (skipn 2 B).
Proof.
  apply (extra_slides_of_longer_deck sample_digest sample_decoder
           sample_preview sample_str_shape_type sample_stack_room
           [[text_box "one"]; [text_box "two"]]
           [[text_box "one"]; [text_box "two"]; [text_box "three"]]
           [sample_slide 1 "one" []; sample_slide 2 "two" []]
           [sample_slide 1 "one" []; sample_slide 2 "two" [];
            sample_slide 3 "three" []]).
  - vm_compute. reflexivity.
  - vm_compute. reflexivity.
  - simpl. discriminate.
Defined.

(** One slide with the image [h1] twice against one slide with it once:
    the counts differ while no image is unmatched on either side. *)
Lemma image_count_mismatch_reported_witness :
  let slide1 := sample_slide 1 "Title" ["h1"; "h1"] in
  let slide2 := sample_slide 1 "Title" ["h1"] in
  images_missing_in_ppt1 (compare_slide slide1 slide2) = Some []
  /\ images_missing_in_ppt2 (compare_slide slide1 slide2) = Some []
  /\ exists r,
       compare_decks [slide1] [slide2] = ret r
       /\ identical r = false
       /\ In (compare_slide slide1 slide2) (differences r)
       /\ image_count_different (compare_slide slide1 slide2) = Some true
       /\ has_image_diff (compare_slide slide1 slide2) = true
       /\ images_missing_in_ppt1 (compare_slide slide1 slide2)
          = Some (missing_from (image_hashes (images slide2))
                    (image_hashes (images slide1)))
       /\ images_missing_in_ppt2 (compare_slide slide1 slide2)
          = Some (missing_from (image_hashes (images slide1))
                    (image_hashes (images slide2))).
Proof.
  split; [reflexivity|]. split; [reflexivity|].
  apply (image_count_mismatch_reported
           [sample_slide 1 "Title" ["h1"; "h1"]]
           [sample_slide 1 "Title" ["h1"]] 0
           (sample_slide 1 "Title" ["h1"; "h1"])
           (sample_slide 1 "Title" ["h1"])).
  - reflexivity.
  - reflexivity.
  - simpl. discriminate.
Defined.

(** An empty first payload: the parser raises and the result is the
    error result. *)
Lemma errors_become_results_witness :
  let e := {| exn_type := "PackageNotFoundError";
              exn_msg := "Package not found";
              exn_frames := "" |} in
  let r := compare_presentations sample_digest sample_decoder sample_preview
             sample_str_shape_type sample_stack_room sample_parser []
             [x50] in
  identical r = false
  /\ error r = Some true
  /\ differences r = []
  /\ summary r = "Error comparing presentations: Package not found"
  /\ summary r <> ""
  /\ exists trace, error_details r = Some trace /\ trace <> "".
Proof.
  apply (errors_become_results sample_digest sample_decoder sample_preview
           sample_str_shape_type sample_stack_room sample_parser [] [x50]
           {| exn_type := "PackageNotFoundError";
              exn_msg := "Package not found";
              exn_frames := "" |}).
  right. left. reflexivity.
Defined.


(** A padded text, a text of blanks and padded cells against the bare
    texts: the same [text_content]. *)
Lemma whitespace_only_changes_not_reported_witness :
  let slide1 := [text_box "  Hello "; text_box "   ";
                 table_shape [["a "; " "]; [" b"]]] in
  let slide2 := [text_box "Hello"; table_shape [["a"; "b"]]] in
  let s :=
    sample_slide 1
      ("Hello" ++ Difflib.newline ++ "a" ++ Difflib.newline ++ "b") [] in
  text_content s
  = join Difflib.newline
      (filter (fun t => negb (String.eqb t ""))
         (map strip (flat_map shape_texts slide1)))
  /\ text_content s = text_content s
  /\ has_text_diff (compare_slide s s) = false
  /\ text_diff (compare_slide s s) = None.
Proof.
  apply (whitespace_only_changes_not_reported sample_digest sample_decoder
           sample_preview sample_str_shape_type sample_stack_room 1 1
           [text_box "  Hello "; text_box "   ";
            table_shape [["a "; " "]; [" b"]]]
           [text_box "Hello"; table_shape [["a"; "b"]]]
           (sample_slide 1
              ("Hello" ++ Difflib.newline ++ "a" ++ Difflib.newline ++ "b")
              [])
           (sample_slide 1
              ("Hello" ++ Difflib.newline ++ "a" ++ Difflib.newline ++ "b")
              [])).
  - simpl.
    apply (svt_padded "  Hello " "Hello" _ _
             (padded_intro "  " " " "" "" "Hello"
                eq_refl eq_refl eq_refl eq_refl)).
    apply svt_blank_l; [reflexivity|].
    apply (svt_padded "a " "a" _ _
             (padded_intro "" " " "" "" "a" eq_refl eq_refl eq_refl eq_refl)).
    apply svt_blank_l; [reflexivity|].
    apply (svt_padded " b" "b" _ _
             (padded_intro " " "" "" "" "b" eq_refl eq_refl eq_refl eq_refl)).
    apply svt_nil.
  - vm_compute. reflexivity.
  - vm_compute. reflexivity.
Defined.

(** Two one-line texts that differ by a letter: the delta has a hint
    entry, and [restore] skips it. *)
Lemma text_diff_restores_witness :
  let slide1 := sample_slide 1 "Quarterly results" [] in
  let slide2 := sample_slide 1 "Quarterly result" [] in
  exists delta,
    text_diff (compare_slide slide1 slide2) = Some delta
    /\ has_text_diff (compare_slide slide1 slide2) = true
    /\ delta = Difflib.ndiff (splitlines (text_content slide1))
                 (splitlines (text_content slide2))
    /\ Difflib.restore delta 1 = splitlines (text_content slide1)
    /\ Difflib.restore delta 2 = splitlines (text_content slide2).
Proof.
  apply (text_diff_restores (sample_slide 1 "Quarterly results" [])
           (sample_slide 1 "Quarterly result" [])).
  simpl. discriminate.
Defined.

(** The same two texts: once the entries marked ["+ "] are removed, the
    delta still holds the hint entry, so it is not the first text's
    lines; likewise for the second text. *)
Lemma hint_entries_counterexample :
  let slide1 := sample_slide 1 "Quarterly results" [] in
  let slide2 := sample_slide 1 "Quarterly result" [] in
  let hint := ("?                 -" ++ Difflib.newline)%string in
  let delta := ["- Quarterly results"; hint; "+ Quarterly result"] in
  text_content slide1 <> text_content slide2
  /\ text_diff (compare_slide slide1 slide2) = Some delta
  /\ without_marked "+ " delta = ["- Quarterly results"; hint]
  /\ splitlines (text_content slide1) = ["Quarterly results"]
  /\ map unmark (without_marked "+ " delta)
     <> splitlines (text_content slide1)
  /\ map unmark (without_marked "- " delta)
     <> splitlines (text_content slide2).
Proof.
  cbv zeta.
  split; [simpl; discriminate|].
  split; [vm_compute; reflexivity|].
  split; [vm_compute; reflexivity|].
  split; [vm_compute; reflexivity|].
  split; vm_compute; discriminate.
Qed.

(** ** The scenarios of the specification *)

(** One slide ["Hello"] against one slide ["Hello World"]: not identical,
    one diff entry for slide 1 with a text diff and no image diff. *)
Example scenario_hello :
  exists r d,
    compare_decks [sample_slide 1 "Hello" []] [sample_slide 1 "Hello World" []]
    = ret r
    /\ identical r = false
    /\ differences r = [d]
    /\ sd_slide_number d = 1%nat
    /\ has_text_diff d = true
    /\ text_diff d = Some ["- Hello"; "+ Hello World"]
    /\ has_image_diff d = false
    /\ image_count_different d = None.
Proof.
  eexists. eexists. split; [vm_compute; reflexivity|].
  repeat split.
Qed.

(** A slide with image [h1] against a slide with images [h1] and [h2]:
    the counts differ, nothing is only in the first, [h2] is only in the
    second. *)
Example scenario_extra_image :
  let d := compare_slide (sample_slide 1 "Title" ["h1"])
             (sample_slide 1 "Title" ["h1"; "h2"]) in
  image_count_different d = Some true
  /\ images_missing_in_ppt2 d = Some []
  /\ images_missing_in_ppt1 d = Some [sample_image "h2"].
Proof. repeat split. Qed.

(** A picture inside a group inside a group, after a text box: the walk
    from the outer group, with room for three nested calls, returns its
    record. *)
Lemma walk_finds_every_image_witness :
  let inner := picture [x50; x4e] in
  let root := group [text_box "caption"; group [inner]] in
  exists images r,
    extract_images_from_shape sample_digest sample_decoder sample_preview
      sample_str_shape_type 3 root "Slide 1" = ret images
    /\ In r images
    /\ img_hash r = sample_digest [x50; x4e]
    /\ img_size r = 2%nat.
Proof.
  apply (walk_finds_every_image sample_digest sample_decoder sample_preview
           sample_str_shape_type 3
           (group [text_box "caption"; group [picture [x50; x4e]]])
           (picture [x50; x4e]) [x50; x4e] "Slide 1").
  - apply (reached_child 2 _ (group [picture [x50; x4e]]) _
             [text_box "caption"] []);
      [reflexivity|reflexivity| |].
    + constructor; [|constructor]. now exists (Some 17).
    + apply (reached_child 1 _ (picture [x50; x4e]) _ [] []);
        [reflexivity|reflexivity|constructor|].
      apply reached_self. now exists (Some 13).
  - left. reflexivity.
  - reflexivity.
Defined.

(** The record the walk returns for a group with one picture comes from
    that picture. *)
Lemma walk_reports_only_held_images_witness :
  let root := group [picture [x50; x4e]] in
  let r :=
    {| img_hash := "PN";
       img_size := 2;
       img_width := 4;
       img_height := 3;
       img_format := "PNG";
       img_thumbnail := Some "data:image/png;base64,cHJldmlldw==";
       img_debug_info :=
         "Slide 1 -> Shape type: GROUP (6) (group child)"
         ++ " -> Shape type: PICTURE (13)" |} in
  exists s data debug_info,
    under root s
    /\ own_blob s (Bytes data)
    /\ process_image_blob sample_digest sample_decoder sample_preview
         (Bytes data) debug_info = Some r
    /\ img_hash r = sample_digest data.
Proof.
  apply (walk_reports_only_held_images sample_digest sample_decoder
           sample_preview sample_str_shape_type sample_stack_room
           (group [picture [x50; x4e]]) "Slide 1"
           [{| img_hash := "PN";
               img_size := 2;
               img_width := 4;
               img_height := 3;
               img_format := "PNG";
               img_thumbnail := Some "data:image/png;base64,cHJldmlldw==";
               img_debug_info :=
                 "Slide 1 -> Shape type: GROUP (6) (group child)"
                 ++ " -> Shape type: PICTURE (13)" |}]).
  - vm_compute. reflexivity.
  - left. reflexivity.
Defined.

(** Two one-line texts that differ by a letter: the delta is not empty,
    its entries are marked, and one of them is marked as removed. *)
Lemma delta_entries_are_marked_witness :
  let slide1 := sample_slide 1 "Quarterly results" [] in
  let slide2 := sample_slide 1 "Quarterly result" [] in
  let delta := Difflib.ndiff ["Quarterly results"] ["Quarterly result"] in
  delta <> []
  /\ Forall (fun line => In (substring 0 2 line) delta_marks) delta
  /\ (splitlines (text_content slide1) <> splitlines (text_content slide2) ->
      exists line,
        In line delta
        /\ (marked "- " line = true \/ marked "+ " line = true)).
Proof.
  apply (delta_entries_are_marked
           (sample_slide 1 "Quarterly results" [])
           (sample_slide 1 "Quarterly result" [])
           (Difflib.ndiff ["Quarterly results"] ["Quarterly result"])).
  vm_compute. reflexivity.
Defined.

(** Two decks of two slides as the extractor returns them, the second
    slides differing: one diff entry, for slide 2. *)
Lemma slide_numbers_in_order_witness :
  let A := [sample_slide 1 "one" []; sample_slide 2 "two" []] in
  let B := [sample_slide 1 "one" []; sample_slide 2 "deux" []] in
  exists st,
    compare_loop A B = ret st
    /\ StronglySorted lt (map sd_slide_number (ls_differences st))
    /\ Forall (fun n => (1 <= n <= 2)%nat)
         (map sd_slide_number (ls_differences st))
    /\ Forall (fun n => (2 < n)%nat) (map ex_slide_number (extra_of A B))
    /\ StronglySorted lt (map ex_slide_number (extra_of A B)).
Proof.
  apply (slide_numbers_in_order sample_digest sample_decoder sample_preview
           sample_str_shape_type sample_stack_room
           [[text_box "one"]; [text_box "two"]]
           [[text_box "one"]; [text_box "deux"]]
           [sample_slide 1 "one" []; sample_slide 2 "two" []]
           [sample_slide 1 "one" []; sample_slide 2 "deux" []]).
  - vm_compute. reflexivity.
  - vm_compute. reflexivity.
Defined.

(** A first payload that parses to a slide with a shape the parser does
    not recognise: the result is the error result for the exception of
    reading that shape's type. *)
Lemma extraction_failures_are_reported_witness :
  compare_presentations sample_digest sample_decoder sample_preview
    sample_str_shape_type sample_stack_room sample_parser [x00] [x50]
  = error_result NotImplementedError.
Proof.
  assert (Hroom : (0 < sample_stack_room)%nat)
    by (unfold sample_stack_room; lia).
  apply (proj1 (proj2
                  (extraction_failures_are_reported sample_digest
                     sample_decoder sample_preview sample_str_shape_type
                     sample_stack_room sample_parser [x00] [x50] Hroom))
           NotImplementedError).
  reflexivity.
Defined.

(** A padded text box: the text of the slide is trimmed. *)
Lemma slide_text_is_trimmed_witness :
  let t := text_content (sample_slide 1 "Hello" []) in
  trimmed t
  /\ (t = "" <-> Forall (fun x => blank x = true)
                   (flat_map shape_texts [text_box "  Hello "])).
Proof.
  apply (slide_text_is_trimmed sample_digest sample_decoder sample_preview
           sample_str_shape_type sample_stack_room 1 [text_box "  Hello "]
           (sample_slide 1 "Hello" [])).
  vm_compute. reflexivity.
Defined.

(** A text box and a picture, the picture then put into a group with a
    second text box: the same image hash, and the text of the box left
    outside. *)
Lemma grouping_keeps_images_drops_text_witness :
  let before := [text_box "Title"] in
  let grouped := [picture [x50; x4e]; text_box "Caption"] in
  let flat :=
    {| slide_number := 1;
       text_content := "Title" ++ Difflib.newline ++ "Caption";
       images :=
         [{| img_hash := "PN";
             img_size := 2;
             img_width := 4;
             img_height := 3;
             img_format := "PNG";
             img_thumbnail := Some "data:image/png;base64,cHJldmlldw==";
             img_debug_info := "Slide 1 -> Shape type: PICTURE (13)" |}];
       image_count := 1 |} in
  exists nested,
    extract_slide sample_digest sample_decoder sample_preview
      sample_str_shape_type sample_stack_room 2
      (before ++ [group grouped]) = ret nested
    /\ map img_hash (images nested) = map img_hash (images flat)
    /\ image_count nested = image_count flat
    /\ has_image_diff (compare_slide flat nested) = false
    /\ text_content nested
       = join Difflib.newline
           (visible_lines (flat_map shape_texts (before ++ []))).
Proof.
  apply (grouping_keeps_images_drops_text sample_digest sample_decoder
           sample_preview sample_str_shape_type sample_stack_room 1 2
           [text_box "Title"] [picture [x50; x4e]; text_box "Caption"] []).
  - vm_compute. reflexivity.
  - vm_compute. lia.
Defined.
